(** * brain-surf-cli: the intent classifier, the session store, the
      transport client and the REPL orchestrator

    A shallow embedding of [src/lib/command-parser.js],
    [src/lib/session-manager.js], [src/lib/brain-client.js] and
    [src/lib/repl.js], followed by the properties of the specification.

    JavaScript strings are sequences of UTF-16 code units; regular
    expressions are run by a backtracking matcher with the priorities of
    ECMAScript (leftmost alternative first, greedy or lazy repetition,
    capture groups); objects are association lists in insertion order;
    stateful code threads an explicit [world]. *)

From Stdlib Require Import ZArith NArith List String Ascii Bool Lia DecimalString.
From stdpp Require Import base option list gmap.
Import ListNotations.

Local Open Scope N_scope.

(* ================================================================== *)
(** * Strings *)
(* ================================================================== *)

Module Str.

(** A JavaScript string: a list of UTF-16 code units. *)
Abbreviation jsstring := (list N).

(** The string of an ASCII literal of the source. *)
Definition lit (s : string) : jsstring :=
  List.map N_of_ascii (list_ascii_of_string s).
Arguments lit s%_string.

Fixpoint eqb (a b : jsstring) : bool :=
  match a, b with
  | [], [] => true
  | x :: a', y :: b' => (x =? y) && eqb a' b'
  | _, _ => false
  end.

(** [WhiteSpace] and [LineTerminator] of ECMAScript: what [trim] strips
    and what [\s] matches. *)
Definition isLineTerminator (c : N) : bool :=
  (c =? 10) || (c =? 13) || (c =? 8232) || (c =? 8233).

Definition isWhiteSpace (c : N) : bool :=
  ((9 <=? c) && (c <=? 13)) || (c =? 32) || (c =? 160) || (c =? 5760)
  || ((8192 <=? c) && (c <=? 8202)) || (c =? 8232) || (c =? 8233)
  || (c =? 8239) || (c =? 8287) || (c =? 12288) || (c =? 65279).

Definition isDigit (c : N) : bool := (48 <=? c) && (c <=? 57).

Definition isWordChar (c : N) : bool :=
  ((97 <=? c) && (c <=? 122)) || ((65 <=? c) && (c <=? 90))
  || isDigit c || (c =? 95).

(** [toUpperCase] and [toLowerCase] on the ASCII letters.  A code unit
    above 127 never folds to an ASCII one under the case-insensitive
    matching of a regular expression without the [u] flag, and every
    keyword the source compares against is ASCII. *)
Definition upper (c : N) : N :=
  if (97 <=? c) && (c <=? 122) then c - 32 else c.

Definition lower (c : N) : N :=
  if (65 <=? c) && (c <=? 90) then c + 32 else c.

Fixpoint trimStart (s : jsstring) : jsstring :=
  match s with
  | c :: s' => if isWhiteSpace c then trimStart s' else s
  | [] => []
  end.

Definition trimEnd (s : jsstring) : jsstring := rev (trimStart (rev s)).

(** [String.prototype.trim]. *)
Definition trim (s : jsstring) : jsstring := trimEnd (trimStart s).

(** [String.prototype.startsWith]. *)
Fixpoint startsWith (s p : jsstring) : bool :=
  match p, s with
  | [], _ => true
  | y :: p', x :: s' => (x =? y) && startsWith s' p'
  | _ :: _, [] => false
  end.

(** [String.prototype.includes]. *)
Fixpoint includes (s p : jsstring) : bool :=
  startsWith s p ||
  match s with
  | [] => false
  | _ :: s' => includes s' p
  end.

(** [s.split(/\s+/)]: the pieces of [s] between the maximal runs of white
    space; a run at either end leaves an empty piece there. *)
Fixpoint split_ws_from (in_sep : bool) (cur : jsstring) (s : jsstring)
  : list jsstring :=
  match s with
  | [] => [rev cur]
  | c :: s' =>
      if isWhiteSpace c then
        if in_sep then split_ws_from true [] s'
        else rev cur :: split_ws_from true [] s'
      else split_ws_from false (c :: cur) s'
  end.

Definition split_ws (s : jsstring) : list jsstring :=
  split_ws_from false [] s.

End Str.

Export Str.

(* ================================================================== *)
(** * Values *)
(* ================================================================== *)

(** A JavaScript Number holding an integer, [NaN] or an infinity (the
    only numbers the modelled code computes). *)
Inductive number :=
| NaN
| Fin (z : Z)
| Infinity
| NegInfinity.

(** The double nearest to a non-negative integer (ties to even). *)
Definition to_double (n : Z) : number :=
  (if n <? 2 ^ 53 then Fin n
   else
     let e := Z.log2 n - 52 in
     let q := n / 2 ^ e in
     let r := n mod 2 ^ e in
     let half := 2 ^ (e - 1) in
     let q' := if r <? half then q
               else if half <? r then q + 1
               else if Z.even q then q else q + 1 in
     let v := q' * 2 ^ e in
     if 2 ^ 1024 <=? v then Infinity else Fin v)%Z.

#[warnings="-register-all"]
Inductive jsval :=
| VUndefined
| VNull
| VBool (b : bool)
| VNum (n : number)
| VStr (s : jsstring)
| VArr (l : list jsval)
| VObj (o : list (jsstring * jsval)).

(** An object: its own properties, in the order they are enumerated. *)
Abbreviation jsobj := (list (jsstring * jsval)).

(** [o[k]]. *)
Fixpoint get (k : jsstring) (o : jsobj) : jsval :=
  match o with
  | [] => VUndefined
  | (k', v) :: o' => if Str.eqb k' k then v else get k o'
  end.

(** Whether [o] has the own property [k]. *)
Definition has (k : jsstring) (o : jsobj) : bool :=
  existsb (fun kv => Str.eqb (fst kv) k) o.

(** An array index: the canonical decimal name of an integer below
    [2^32 - 1].  Objects enumerate such properties first, in ascending
    order, and the others after them in the order of their creation. *)
Definition is_index (k : jsstring) : option N :=
  match k with
  | [] => None
  | [48] => Some 0
  | c :: _ =>
      if forallb isDigit k && negb (c =? 48) then
        let n := fold_left (fun acc d => acc * 10 + (d - 48)) k 0 in
        if n <? 4294967295 then Some n else None
      else None
  end.

Fixpoint replace (k : jsstring) (v : jsval) (o : jsobj) : jsobj :=
  match o with
  | [] => []
  | (k', v') :: o' =>
      if Str.eqb k' k then (k', v) :: o' else (k', v') :: replace k v o'
  end.

Fixpoint insert_index (n : N) (k : jsstring) (v : jsval) (o : jsobj) : jsobj :=
  match o with
  | [] => [(k, v)]
  | (k', v') :: o' =>
      match is_index k' with
      | Some n' =>
          if n' <? n then (k', v') :: insert_index n k v o'
          else (k, v) :: o
      | None => (k, v) :: o
      end
  end.

(** [o[k] = v]: an existing property keeps its place, a new one goes to
    its place in the enumeration order. *)
Definition set (k : jsstring) (v : jsval) (o : jsobj) : jsobj :=
  if has k o then replace k v o
  else
    match is_index k with
    | Some n => insert_index n k v o
    | None => o ++ [(k, v)]
    end.

(** [Object.assign(o, src)] and the spread [{...o, ...src}]. *)
Definition assign (o src : jsobj) : jsobj :=
  fold_left (fun acc kv => set (fst kv) (snd kv) acc) src o.

(** The rest pattern [const { k, ...rest } = o]. *)
Fixpoint without (k : jsstring) (o : jsobj) : jsobj :=
  match o with
  | [] => []
  | (k', v) :: o' =>
      if Str.eqb k' k then without k o' else (k', v) :: without k o'
  end.

(** Truthiness. *)
Definition truthy (v : jsval) : bool :=
  match v with
  | VUndefined | VNull => false
  | VBool b => b
  | VNum NaN => false
  | VNum (Fin z) => negb (z =? 0)%Z
  | VNum Infinity | VNum NegInfinity => true
  | VStr s => match s with [] => false | _ => true end
  | VArr _ | VObj _ => true
  end.

(** [v[k]] for the property names the program reads: a [TypeError] on
    [undefined] and [null]; arrays and strings have a [length]. *)
Definition prop (k : jsstring) (v : jsval) : option jsval :=
  match v with
  | VUndefined | VNull => None
  | VObj o => Some (get k o)
  | VArr l =>
      Some (if Str.eqb k (lit "length")
            then VNum (Fin (Z.of_nat (length l))) else VUndefined)
  | VStr s =>
      Some (if Str.eqb k (lit "length")
            then VNum (Fin (Z.of_nat (length s))) else VUndefined)
  | VBool _ | VNum _ => Some VUndefined
  end.

(** What a call can do besides returning. *)
Inductive exn :=
| TypeError
| SyntaxError
| Error (message : jsstring).

Inductive outcome (A : Type) :=
| Ret (a : A)
| Throw (e : exn).
Arguments Ret {A} a.
Arguments Throw {A} e.

(** [parseInt(s)] with no radix. *)
Definition digitValue (radix : Z) (c : N) : option Z :=
  let d :=
    if isDigit c then Some (Z.of_N c - 48)%Z
    else if (97 <=? c) && (c <=? 122) then Some (Z.of_N c - 87)%Z
    else if (65 <=? c) && (c <=? 90) then Some (Z.of_N c - 55)%Z
    else None in
  match d with
  | Some v => if (v <? radix)%Z then Some v else None
  | None => None
  end.

Fixpoint digits (radix : Z) (acc : option Z) (s : jsstring) : option Z :=
  match s with
  | [] => acc
  | c :: s' =>
      match digitValue radix c with
      | Some v => digits radix (Some (default 0%Z acc * radix + v)%Z) s'
      | None => acc
      end
  end.

Definition parseInt (s : jsstring) : number :=
  let s := trimStart s in
  let '(neg, s) :=
    match s with
    | c :: s' =>
        if c =? 45 then (true, s')
        else if c =? 43 then (false, s')
        else (false, s)
    | [] => (false, s)
    end in
  let '(radix, s) :=
    match s with
    | c :: x :: s' =>
        if (c =? 48) && ((x =? 120) || (x =? 88)) then (16%Z, s')
        else (10%Z, s)
    | _ => (10%Z, s)
    end in
  match digits radix None s with
  | None => NaN
  | Some v =>
      match to_double v with
      | Fin z => Fin (if neg then - z else z)%Z
      | Infinity => if neg then NegInfinity else Infinity
      | other => other
      end
  end.

(* ================================================================== *)
(** * Regular expressions *)
(* ================================================================== *)

Module Regex.

(** A single-character matcher. *)
Inductive cls :=
| CChar (c : N)          (* a literal character *)
| CDot                   (* [.] *)
| CSpace                 (* [\s] *)
| CNonSpace              (* [\S] *)
| CWord                  (* [\w] *)
| CDigit                 (* [\d] *)
| CSet (cs : list N).    (* [[...]] of literal characters *)

(** The constructs the rule table uses.  Every [+], [*] and [+?] of the
    table repeats a single-character matcher. *)
Inductive regex :=
| REmpty
| RChar (c : cls)
| RBol                              (* [^] *)
| REol                              (* [$] *)
| RSeq (r1 r2 : regex)
| RAlt (r1 r2 : regex)              (* [r1|r2] *)
| ROpt (r : regex)                  (* [(?:r)?] *)
| RStar (greedy : bool) (c : cls)   (* [c*] and [c*?] *)
| RGroup (i : nat) (r : regex).     (* the [i]-th capture group *)
Arguments RGroup i%_nat r.

Definition cls_match (ic : bool) (c : cls) (x : N) : bool :=
  match c with
  | CChar y => if ic then upper x =? upper y else x =? y
  | CDot => negb (isLineTerminator x)
  | CSpace => isWhiteSpace x
  | CNonSpace => negb (isWhiteSpace x)
  | CWord => isWordChar x
  | CDigit => isDigit x
  | CSet cs =>
      existsb (fun y => if ic then upper x =? upper y else x =? y) cs
  end.

(** Captures: entry [i] is the text of group [i], if it took part. *)
Abbreviation caps := (list (option jsstring)).

(** A continuation gets the position reached, the rest of the input and
    the captures so far and says where the whole match ends. *)
Definition cont := nat -> jsstring -> caps -> option (nat * caps).

Fixpoint star (ic greedy : bool) (c : cls) (k : cont)
    (pos : nat) (s : jsstring) (cs : caps) : option (nat * caps) :=
  match s with
  | x :: s' =>
      if cls_match ic c x then
        if greedy then
          match star ic greedy c k (S pos) s' cs with
          | Some r => Some r
          | None => k pos s cs
          end
        else
          match k pos s cs with
          | Some r => Some r
          | None => star ic greedy c k (S pos) s' cs
          end
      else k pos s cs
  | [] => k pos s cs
  end.

(** The backtracking matcher: [m ic r pos s cs k] matches [r] at
    position [pos], where [s] is the input from [pos] on.  An optional
    part is tried before it is skipped, and is refused when it consumes
    nothing. *)
Fixpoint m (ic : bool) (r : regex) (pos : nat) (s : jsstring) (cs : caps)
    (k : cont) : option (nat * caps) :=
  match r with
  | REmpty => k pos s cs
  | RChar c =>
      match s with
      | x :: s' => if cls_match ic c x then k (S pos) s' cs else None
      | [] => None
      end
  | RBol => if Nat.eqb pos 0 then k pos s cs else None
  | REol => match s with [] => k pos s cs | _ :: _ => None end
  | RSeq r1 r2 => m ic r1 pos s cs (fun pos' s' cs' => m ic r2 pos' s' cs' k)
  | RAlt r1 r2 =>
      match m ic r1 pos s cs k with
      | Some res => Some res
      | None => m ic r2 pos s cs k
      end
  | ROpt r1 =>
      match m ic r1 pos s cs
              (fun pos' s' cs' =>
                 if Nat.eqb pos' pos then None else k pos' s' cs') with
      | Some res => Some res
      | None => k pos s cs
      end
  | RStar greedy c => star ic greedy c k pos s cs
  | RGroup i r1 =>
      m ic r1 pos s cs
        (fun pos' s' cs' => k pos' s' (<[i := Some (take (pos' - pos) s)]> cs'))
  end.

(** The array [String.prototype.match] returns for a regular expression
    without the [g] flag. *)
Record matchres := {
  index : nat;
  input : jsstring;
  groups : caps;          (* [groups !! 0] is the whole match *)
}.

(** [match[i]]. *)
Definition group (i : nat) (mr : matchres) : option jsstring :=
  match groups mr !! i with
  | Some (Some s) => Some s
  | _ => None
  end.
Arguments group i%_nat mr.

(** The search: the first position from which the pattern matches. *)
Fixpoint exec_from (ic : bool) (r : regex) (n : nat) (whole : jsstring)
    (pos : nat) (s : jsstring) : option matchres :=
  match m ic r pos s (replicate (S n) None)
          (fun pos' _ cs => Some (pos', cs)) with
  | Some (e, cs) =>
      Some {| index := pos; input := whole;
              groups := <[0%nat := Some (take (e - pos) s)]> cs |}
  | None =>
      match s with
      | [] => None
      | _ :: s' => exec_from ic r n whole (S pos) s'
      end
  end.

(** [s.match(r)] for a pattern with [n] capture groups. *)
Definition exec (ic : bool) (r : regex) (n : nat) (s : jsstring)
  : option matchres :=
  exec_from ic r n s 0 s.

(** Pattern syntax. *)
Definition chr (a : ascii) : regex := RChar (CChar (N_of_ascii a)).

Definition str (s : string) : regex :=
  fold_right (fun a r => RSeq (chr a) r) REmpty (list_ascii_of_string s).
Arguments str s%_string.

Fixpoint alt (r : regex) (rs : list regex) : regex :=
  match rs with
  | [] => r
  | r' :: rs' => RAlt r (alt r' rs')
  end.

Definition cat (rs : list regex) : regex := fold_right RSeq REmpty rs.

Definition plus (c : cls) : regex := RSeq (RChar c) (RStar true c).
Definition plus_lazy (c : cls) : regex := RSeq (RChar c) (RStar false c).
Definition many (c : cls) : regex := RStar true c.
Definition opt (rs : list regex) : regex := ROpt (cat rs).

(** The class of the double and the single quote. *)
Definition quote : regex := RChar (CSet [34; 39]).

End Regex.

Export Regex.

(* ================================================================== *)
(** * The intent classifier ([src/lib/command-parser.js]) *)
(* ================================================================== *)

Module CommandParser.

(** One entry of [this.patterns]. *)
Record rule := {
  pattern : regex;
  ignoreCase : bool;                              (* the [i] flag *)
  ngroups : nat;
  type : jsstring;
  extract : option (matchres -> outcome jsobj);
}.

(** [match[i]], which is [undefined] when the group took no part. *)
Definition grp (i : nat) (mr : matchres) : jsval :=
  match group i mr with
  | Some s => VStr s
  | None => VUndefined
  end.

Arguments grp i%_nat mr.

(** [match[i].trim()]: a [TypeError] on [undefined]. *)
Definition grp_trim (i : nat) (mr : matchres) : outcome jsval :=
  match group i mr with
  | Some s => Ret (VStr (trim s))
  | None => Throw TypeError
  end.

Arguments grp_trim i%_nat mr.

(** [match[i]?.trim()]. *)
Definition grp_trim_opt (i : nat) (mr : matchres) : jsval :=
  match group i mr with
  | Some s => VStr (trim s)
  | None => VUndefined
  end.

Arguments grp_trim_opt i%_nat mr.

(** [v || '.']. *)
Definition or_dot (v : jsval) : jsval :=
  if truthy v then v else VStr (lit ".").

Definition bind {A B} (o : outcome A) (f : A -> outcome B) : outcome B :=
  match o with
  | Ret a => f a
  | Throw e => Throw e
  end.

Definition mk (p : list regex) (n : nat) (ty : string)
    (ex : option (matchres -> outcome jsobj)) : rule :=
  {| pattern := cat p; ignoreCase := true; ngroups := n;
     type := lit ty; extract := ex |}.
Arguments mk p n%_nat ty%_string ex.

Definition sp : regex := plus CSpace.       (* [\s+] *)
Definition rest : regex := plus CDot.       (* [.+] *)
Definition word : regex := plus CWord.      (* [\w+] *)

Definition filePath_trim : option (matchres -> outcome jsobj) :=
  Some (fun mr => bind (grp_trim 1 mr) (fun v => Ret [(lit "filePath", v)])).

Definition path_trim : option (matchres -> outcome jsobj) :=
  Some (fun mr => bind (grp_trim 1 mr) (fun v => Ret [(lit "path", v)])).

Definition pattern_directory : option (matchres -> outcome jsobj) :=
  Some (fun mr => Ret [(lit "pattern", grp 1 mr);
                       (lit "directory", or_dot (grp 2 mr))]).

Definition filePath_opt : option (matchres -> outcome jsobj) :=
  Some (fun mr => Ret [(lit "filePath", grp_trim_opt 1 mr)]).

Definition limit_of : option (matchres -> outcome jsobj) :=
  Some (fun mr =>
    Ret [(lit "limit",
          if truthy (grp 1 mr) then
            match group 1 mr with
            | Some s => VNum (parseInt s)
            | None => VNum NaN
            end
          else VNum (Fin 10))]).

Definition files_of : option (matchres -> outcome jsobj) :=
  Some (fun mr =>
    bind (grp_trim 1 mr) (fun v =>
      match v with
      | VStr s => Ret [(lit "files", VArr (List.map VStr (split_ws s)))]
      | _ => Throw TypeError
      end)).

Definition message_of : option (matchres -> outcome jsobj) :=
  Some (fun mr => Ret [(lit "message", grp 1 mr)]).

Definition symbol_filePath : option (matchres -> outcome jsobj) :=
  Some (fun mr => Ret [(lit "symbol", grp 1 mr);
                       (lit "filePath", grp_trim_opt 2 mr)]).

Definition symbol_of : option (matchres -> outcome jsobj) :=
  Some (fun mr => Ret [(lit "symbol", grp 1 mr)]).

Definition serverId_config : option (matchres -> outcome jsobj) :=
  Some (fun mr =>
    bind (grp_trim 2 mr) (fun v =>
      Ret [(lit "serverId", grp 1 mr); (lit "config", v)])).

Definition serverId_of : option (matchres -> outcome jsobj) :=
  Some (fun mr => Ret [(lit "serverId", grp 1 mr)]).

Definition query_trim : option (matchres -> outcome jsobj) :=
  Some (fun mr => bind (grp_trim 1 mr) (fun v => Ret [(lit "query", v)])).

Definition query_input : option (matchres -> outcome jsobj) :=
  Some (fun mr => Ret [(lit "query", VStr (input mr))]).

(** [this.patterns], in the order of the constructor. *)
Definition patterns : list rule := [
  (* File operations *)
  mk [RBol; alt (str "read") [str "show"; str "cat"; str "view"]; sp;
      opt [str "file"; sp]; RGroup 1 rest; REol]
     1 "read_file" filePath_trim;
  mk [RBol; alt (str "write") [str "save"]; sp; opt [str "to"; sp];
      opt [str "file"; sp]; RGroup 1 rest; REol]
     1 "write_file" filePath_trim;
  mk [RBol; alt (str "edit") [str "modify"]; sp; opt [str "file"; sp];
      RGroup 1 rest; REol]
     1 "edit_file" filePath_trim;
  mk [RBol; alt (str "list") [str "ls"; str "dir"]; many CSpace;
      RGroup 1 (many CDot); REol]
     1 "list_directory"
     (Some (fun mr =>
        bind (grp_trim 1 mr) (fun v => Ret [(lit "path", or_dot v)])));
  mk [RBol; alt (str "search") [str "find"; str "grep"]; sp;
      opt [str "for"; sp]; quote; RGroup 1 (plus_lazy CDot); quote;
      opt [sp; str "in"; sp; RGroup 2 rest]; REol]
     2 "search_files" pattern_directory;
  mk [RBol; alt (str "search") [str "find"; str "grep"]; sp;
      opt [str "for"; sp]; RGroup 1 (plus CNonSpace);
      opt [sp; str "in"; sp; RGroup 2 rest]; REol]
     2 "search_files" pattern_directory;
  mk [RBol; alt (str "create") [str "mkdir"]; sp; opt [str "directory"; sp];
      RGroup 1 rest; REol]
     1 "create_directory" path_trim;

  (* Git operations *)
  mk [RBol; str "git"; sp; str "status"; REol] 0 "git_status" None;
  mk [RBol; opt [str "git"; sp]; opt [str "show"; sp];
      alt (str "status") [str "st"]; REol]
     0 "git_status" None;
  mk [RBol; str "git"; sp; str "diff"; opt [sp; RGroup 1 rest]; REol]
     1 "git_diff" filePath_opt;
  mk [RBol; opt [str "show"; sp]; str "diff";
      opt [sp; opt [str "for"; sp]; RGroup 1 rest]; REol]
     1 "git_diff" filePath_opt;
  mk [RBol; str "git"; sp; str "log"; opt [sp; RGroup 1 (plus CDigit)]; REol]
     1 "git_log" limit_of;
  mk [RBol; opt [str "show"; sp]; opt [str "git"; sp];
      alt (str "history") [str "log"]; opt [sp; RGroup 1 (plus CDigit)]; REol]
     1 "git_log" limit_of;
  mk [RBol; str "git"; sp; str "add"; sp; RGroup 1 rest; REol]
     1 "git_add" files_of;
  mk [RBol; alt (str "stage") [str "add"]; sp; RGroup 1 rest; REol]
     1 "git_add" files_of;
  mk [RBol; str "git"; sp; str "commit"; sp; opt [str "-m"; sp]; quote;
      RGroup 1 rest; quote; REol]
     1 "git_commit" message_of;
  mk [RBol; str "commit"; sp; quote; RGroup 1 rest; quote; REol]
     1 "git_commit" message_of;
  mk [RBol; opt [str "git"; sp]; alt (str "branch") [str "branches"]; REol]
     0 "git_branch_info" None;

  (* Codebase analysis *)
  mk [RBol; alt (str "analyze") [str "analysis"]; sp;
      alt (str "project") [str "codebase"]; REol]
     0 "analyze_project" None;
  mk [RBol; alt (str "explain") [str "describe"]; sp; opt [str "this"; sp];
      alt (str "project") [str "codebase"; str "architecture"]; REol]
     0 "explain_codebase" None;
  mk [RBol; opt [str "show"; sp]; opt [str "project"; sp]; str "structure";
      REol]
     0 "get_project_structure" None;
  mk [RBol; alt (str "find") [str "search"]; sp;
      opt [str "definition"; sp; opt [str "of"; sp]]; RGroup 1 word;
      opt [sp; str "in"; sp; RGroup 2 rest]; REol]
     2 "find_definition" symbol_filePath;
  mk [RBol; alt (str "find") [str "search"]; sp;
      opt [str "references"; sp; opt [str "to"; sp]]; RGroup 1 word;
      opt [sp; str "in"; sp; RGroup 2 rest]; REol]
     2 "find_references" symbol_filePath;
  mk [RBol; alt (cat [str "where"; sp; str "is"]) [cat [str "what"; sp; str "is"]];
      sp; RGroup 1 word; opt [sp; alt (str "defined") [str "used"]]; REol]
     1 "find_definition" symbol_of;

  (* Server connection patterns *)
  mk [RBol; str "connect"; sp; opt [str "to"; sp]; str "server"; sp;
      RGroup 1 word; sp; opt [str "with"; sp]; opt [str "config"; sp];
      RGroup 2 rest; REol]
     2 "connect_server" serverId_config;
  mk [RBol; str "connect"; sp; RGroup 1 word; sp; RGroup 2 rest; REol]
     2 "connect_server" serverId_config;

  (* Server listing patterns *)
  mk [RBol; alt (str "list") [str "show"]; sp; str "server"; opt [str "s"];
      REol]
     0 "list_servers" None;
  mk [RBol; str "server"; opt [str "s"]; REol] 0 "list_servers" None;

  (* Tools listing patterns *)
  mk [RBol; alt (str "list") [str "show"]; sp; str "tool"; opt [str "s"]; sp;
      opt [str "from"; sp]; opt [str "server"; sp]; RGroup 1 word; REol]
     1 "list_tools" serverId_of;
  mk [RBol; str "tool"; opt [str "s"]; sp; opt [str "from"; sp];
      RGroup 1 word; REol]
     1 "list_tools" serverId_of;

  (* Query patterns (explicit) *)
  mk [RBol; str "query:"; many CSpace; RGroup 1 rest; REol]
     1 "query" query_trim;
  mk [RBol; str "ask:"; many CSpace; RGroup 1 rest; REol]
     1 "query" query_trim;

  (* Question patterns (natural language queries) *)
  mk [RBol;
      alt (str "what")
        [str "how"; str "why"; str "when"; str "where"; str "who";
         str "can"; str "could"; str "would"; str "should"; str "is";
         str "are"; str "do"; str "does"; str "did"; str "will";
         str "explain"; str "tell"; str "describe"];
      sp]
     0 "query" query_input;
  {| pattern := cat [str "?"; REol]; ignoreCase := false; ngroups := 0%nat;
     type := lit "query"; extract := query_input |}
].

(** [trimmedInput.match(pattern)]. *)
Definition matches (r : rule) (s : jsstring) : option matchres :=
  exec (ignoreCase r) (pattern r) (ngroups r) s.

(** The object a matching rule builds: [{ type }], then
    [Object.assign(result, extract(match))]. *)
Definition build (r : rule) (mr : matchres) : outcome jsobj :=
  let result := [(lit "type", VStr (type r))] in
  match extract r with
  | Some ex => bind (ex mr) (fun props => Ret (assign result props))
  | None => Ret result
  end.

(** The loop of [parse] over the rules. *)
Fixpoint first_match (rules : list rule) (trimmedInput : jsstring)
  : outcome jsobj :=
  match rules with
  | [] => Ret [(lit "type", VStr (lit "unknown"));
               (lit "input", VStr trimmedInput)]
  | r :: rules' =>
      match matches r trimmedInput with
      | Some mr => build r mr
      | None => first_match rules' trimmedInput
      end
  end.

Definition parse (input : jsstring) : outcome jsobj :=
  first_match patterns (trim input).

(** [input.toLowerCase()], exact on the ASCII letters.  The two code
    units outside ASCII whose lower case contains an ASCII letter (U+0130
    and U+212A) give an [i] followed by U+0307 and a [k]; no keyword
    compared against below has a [k] or ends in [i]. *)
Definition toLowerCase (s : jsstring) : jsstring := List.map lower s.

Definition devKeywords : list jsstring :=
  List.map lit
    ["read"; "write"; "edit"; "file"; "list"; "search"; "find";
     "git"; "status"; "diff"; "commit"; "add"; "stage";
     "analyze"; "explain"; "structure"; "definition"; "references"]%string.

Definition isDevelopmentCommand (input : jsstring) : bool :=
  existsb (fun keyword => includes (toLowerCase input) keyword) devKeywords.

Definition categories : list (jsstring * list jsstring) :=
  [(lit "file_operations",
    List.map lit ["read_file"; "write_file"; "edit_file"; "list_directory";
                  "search_files"; "create_directory"]%string);
   (lit "git_operations",
    List.map lit ["git_status"; "git_diff"; "git_log"; "git_add";
                  "git_commit"; "git_branch_info"]%string);
   (lit "codebase_analysis",
    List.map lit ["analyze_project"; "explain_codebase";
                  "get_project_structure"; "find_definition";
                  "find_references"]%string);
   (lit "server_management",
    List.map lit ["connect_server"; "list_servers"; "list_tools"]%string);
   (lit "queries", List.map lit ["query"]%string)].

Fixpoint category_in (cats : list (jsstring * list jsstring))
    (ty : jsstring) : jsstring :=
  match cats with
  | [] => lit "unknown"
  | (category, types) :: cats' =>
      if existsb (Str.eqb ty) types then category else category_in cats' ty
  end.

Definition getCommandCategory (ty : jsstring) : jsstring :=
  category_in categories ty.

(** [input.includes(k1) || input.includes(k2) || ...]. *)
Definition includes_any (input : jsstring) (keywords : list string) : bool :=
  existsb (fun k => includes input (lit k)) keywords.

Definition suggestCommand (input : jsstring) : list jsstring :=
  (* File operations *)
  (if includes_any input ["file"; "read"; "edit"]%string
   then [lit "read file.txt"; lit "edit src/app.js"; lit "list ."] else [])
  (* Git operations *)
  ++ (if includes_any input ["git"; "commit"; "diff"]%string
      then [lit "git status"; lit "git diff";
            lit "commit " ++ [34] ++ lit "message" ++ [34]] else [])
  (* Project analysis *)
  ++ (if includes_any input ["project"; "analyze"; "structure"]%string
      then [lit "analyze project"; lit "show structure"; lit "explain codebase"]
      else [])
  (* Server operations *)
  ++ (if includes_any input ["server"; "connect"]%string
      then [lit "connect server_name config_path"] else [])
  ++ (if includes_any input ["list"; "show"]%string
      then [lit "list servers"; lit "list tools from server_name"] else []).

End CommandParser.


(* ================================================================== *)
(** * JSON texts, the process and its environment *)
(* ================================================================== *)

(** [JSON.parse(JSON.stringify(v))]: a property holding [undefined] is
    left out, an [undefined] array element and a number that is not
    finite become [null]. *)
Fixpoint json (v : jsval) : jsval :=
  match v with
  | VUndefined => VNull
  | VNum NaN | VNum Infinity | VNum NegInfinity => VNull
  | VArr l => VArr (List.map json l)
  | VObj o =>
      VObj ((fix props (o : list (jsstring * jsval)) :=
               match o with
               | [] => []
               | (k, VUndefined) :: o' => props o'
               | (k, x) :: o' => (k, json x) :: props o'
               end) o)
  | _ => v
  end.

(** The values [JSON.parse] produces. *)
Fixpoint is_json (v : jsval) : bool :=
  match v with
  | VUndefined => false
  | VNum NaN | VNum Infinity | VNum NegInfinity => false
  | VArr l => forallb is_json l
  | VObj o =>
      (fix props (o : list (jsstring * jsval)) :=
         match o with
         | [] => true
         | (_, x) :: o' => is_json x && props o'
         end) o
  | _ => true
  end.

(** A text, as far as [JSON.parse] can tell: the value it denotes, or
    no value at all. *)
Inductive text :=
| Corrupt
| Json (v : jsval).

Definition JSON_stringify (v : jsval) : text := Json (json v).

Definition JSON_parse (t : text) : outcome jsval :=
  match t with
  | Json v => Ret v
  | Corrupt => Throw SyntaxError
  end.

(** [String(v)], as a template literal applies it; the digits of a
    number are exact below [10^21]. *)
Fixpoint toString (v : jsval) : jsstring :=
  match v with
  | VUndefined => lit "undefined"
  | VNull => lit "null"
  | VBool true => lit "true"
  | VBool false => lit "false"
  | VNum NaN => lit "NaN"
  | VNum Infinity => lit "Infinity"
  | VNum NegInfinity => lit "-Infinity"
  | VNum (Fin z) =>
      (if (z <? 0)%Z then [45] else [])
        ++ lit (NilZero.string_of_uint (N.to_uint (Z.abs_N z)))
  | VStr s => s
  | VArr l =>
      (fix join (l : list jsval) :=
         match l with
         | [] => []
         | [x] => match x with VUndefined | VNull => [] | _ => toString x end
         | x :: l' =>
             match x with VUndefined | VNull => [] | _ => toString x end
               ++ [44] ++ join l'
         end) l
  | VObj _ => lit "[object Object]"
  end.

(** Whether the conversion of [v] to a string returns, for a value that
    [JSON.parse] built.  An own property [toString] of such an object
    is no function and its [valueOf] gives no primitive, so the
    conversion throws a [TypeError]; an array converts its elements. *)
Fixpoint convertible (v : jsval) : bool :=
  match v with
  | VObj o => negb (has (lit "toString") o)
  | VArr l => forallb convertible l
  | _ => true
  end.

(** ['' + v], as a template literal and the styles of [chalk] convert
    what they are given. *)
Definition as_string (v : jsval) : outcome jsstring :=
  if convertible v then Ret (toString v) else Throw TypeError.

(** What the process does to the outside, in order. *)
Inductive event :=
| Out (label : string) (vals : list jsval)
    (* [console.log] and the spinner: the fixed text, the values shown *)
| ErrOut (label : string) (vals : list jsval)
    (* [console.error] and [console.warn] *)
| Clear                                   (* [console.clear()] *)
| Send (t : text)                         (* [ws.send(t)] *)
| Close                                   (* [ws.close()] *)
| Emit (channel : jsstring) (arg : jsval) (* [this.emit(channel, arg)] *)
| Write (name : jsstring) (t : text)      (* a file written *)
| Exit (code : Z).                        (* [process.exit(code)] *)

Record world := {
  files : gmap jsstring text;
    (* the session directory: the text of [<name>.json], by name; a
       name is taken as it is, separators in it are not interpreted *)
  writable : bool;            (* whether [writeFileSync] succeeds *)
  dates : nat -> jsstring;
    (* what the successive [new Date().toISOString()] return *)
  ticks : nat;                (* how many dates were taken *)
  ws : bool;                  (* whether [client.ws] is set *)
  connected : bool;           (* [client.connected] *)
  isRunning : bool;           (* [repl.isRunning] *)
  currentSessionId : jsval;   (* [repl.currentSessionId] *)
  trace : list event;         (* the effects so far, oldest first *)
}.

Module Run.

(** A computation: it returns or throws, and leaves a world. *)
Definition M (A : Type) : Type := world -> outcome A * world.

Definition ret {A} (a : A) : M A := fun w => (Ret a, w).

Definition throw {A} (e : exn) : M A := fun w => (Throw e, w).

Definition bind {A B} (c : M A) (f : A -> M B) : M B :=
  fun w =>
    match c w with
    | (Ret a, w') => f a w'
    | (Throw e, w') => (Throw e, w')
    end.

(** [try { c } catch (e) { h e }]. *)
Definition try_catch {A} (c : M A) (h : exn -> M A) : M A :=
  fun w =>
    match c w with
    | (Throw e, w') => h e w'
    | r => r
    end.

Definition say (e : event) : M unit :=
  fun w =>
    (Ret tt,
     {| files := files w; writable := writable w; dates := dates w;
        ticks := ticks w; ws := ws w; connected := connected w;
        isRunning := isRunning w; currentSessionId := currentSessionId w;
        trace := trace w ++ [e] |}).

Definition read {A} (f : world -> A) : M A := fun w => (Ret (f w), w).

(** [new Date().toISOString()]. *)
Definition now : M jsstring :=
  fun w =>
    (Ret (dates w (ticks w)),
     {| files := files w; writable := writable w; dates := dates w;
        ticks := S (ticks w); ws := ws w; connected := connected w;
        isRunning := isRunning w; currentSessionId := currentSessionId w;
        trace := trace w |}).

(** [fs.writeFileSync(<name>.json, t)]. *)
Definition writeFile (name : jsstring) (t : text) : M unit :=
  fun w =>
    if writable w then
      (Ret tt,
       {| files := <[name := t]> (files w); writable := writable w;
          dates := dates w; ticks := ticks w; ws := ws w;
          connected := connected w; isRunning := isRunning w;
          currentSessionId := currentSessionId w;
          trace := trace w ++ [Write name t] |})
    else (Throw (Error (lit "EACCES")), w).

(** [fs.readFileSync(<name>.json, 'utf8')]. *)
Definition readFile (name : jsstring) : M text :=
  fun w =>
    match files w !! name with
    | Some t => (Ret t, w)
    | None => (Throw (Error (lit "ENOENT")), w)
    end.

Definition set_connected (b : bool) : M unit :=
  fun w =>
    (Ret tt,
     {| files := files w; writable := writable w; dates := dates w;
        ticks := ticks w; ws := ws w; connected := b;
        isRunning := isRunning w; currentSessionId := currentSessionId w;
        trace := trace w |}).

Definition set_isRunning (b : bool) : M unit :=
  fun w =>
    (Ret tt,
     {| files := files w; writable := writable w; dates := dates w;
        ticks := ticks w; ws := ws w; connected := connected w;
        isRunning := b; currentSessionId := currentSessionId w;
        trace := trace w |}).

(** A value that must not be [undefined] or [null] to be read from. *)
Definition lift {A} (o : option A) : M A :=
  match o with
  | Some a => ret a
  | None => throw TypeError
  end.

Definition of_outcome {A} (o : outcome A) : M A := fun w => (o, w).

Fixpoint for_each {A} (f : A -> M unit) (l : list A) : M unit :=
  match l with
  | [] => ret tt
  | x :: l' => bind (f x) (fun _ => for_each f l')
  end.

End Run.

Export Run.

Notation "x <- c1 ;; c2" := (Run.bind c1 (fun x => c2))
  (at level 100, c1 at next level, c2 at level 200, right associativity).

(* ================================================================== *)
(** * The session store ([src/lib/session-manager.js]) *)
(* ================================================================== *)

Module SessionManager.

(** [saveSession(session)]: the file is named after [session.id]. *)
Definition saveSession (session : jsval) : M unit :=
  id <- lift (prop (lit "id") session) ;;
  try_catch
    (writeFile (toString id) (JSON_stringify session))
    (fun error => say (ErrOut "Failed to save session:" [])).

(** [loadSession(sessionId)]: [null] when the file cannot be read or
    parsed. *)
Definition loadSession (sessionId : jsval) : M jsval :=
  try_catch
    (data <- readFile (toString sessionId) ;;
     of_outcome (JSON_parse data))
    (fun error => ret VNull).

(** [{ ...entry, timestamp: t }]. *)
Definition stamp (entry : jsobj) (t : jsstring) : jsobj :=
  assign (assign [] entry) [(lit "timestamp", VStr t)].

(** [session.history.push(e)]; the array is looked up before the
    argument is evaluated. *)
Definition history_of (session : jsval) : M (list jsval) :=
  history <- lift (prop (lit "history") session) ;;
  match history with
  | VArr l => ret l
  | _ => throw TypeError
  end.

Definition with_history (session : jsval) (l : list jsval) : jsval :=
  match session with
  | VObj o => VObj (set (lit "history") (VArr l) o)
  | _ => session
  end.

Definition addToHistory (sessionId : jsval) (entry : jsobj) : M unit :=
  session <- loadSession sessionId ;;
  if truthy session then
    l <- history_of session ;;
    t <- now ;;
    saveSession (with_history session (l ++ [VObj (stamp entry t)]))
  else ret tt.

Definition getHistory (sessionId : jsval) : M jsval :=
  session <- loadSession sessionId ;;
  if truthy session then lift (prop (lit "history") session)
  else ret (VArr []).

(** [crypto.randomBytes(8).toString('hex')], from the bytes drawn. *)
Definition hexDigit (d : N) : N := if d <? 10 then 48 + d else 87 + d.

Definition toHex (bytes : list N) : jsstring :=
  flat_map (fun b => [hexDigit (b / 16 mod 16); hexDigit (b mod 16)]) bytes.

Definition generateSessionId (bytes : list N) : jsstring := toHex bytes.

(** [createSession()], with the bytes [generateSessionId] draws.  The
    manager's own [currentSessionId], set here, is read nowhere. *)
Definition createSession (bytes : list N) : M jsval :=
  let id := VStr (generateSessionId bytes) in
  created <- now ;;
  _ <- saveSession (VObj [(lit "id", id); (lit "created", VStr created);
                          (lit "history", VArr [])]) ;;
  ret id.

(** [fs.unlinkSync(<name>.json)]: it needs the file, and a directory
    that can be written. *)
Definition unlink (name : jsstring) : M unit :=
  fun w =>
    match files w !! name with
    | Some _ =>
        if writable w then
          (Ret tt,
           {| files := delete name (files w); writable := writable w;
              dates := dates w; ticks := ticks w; ws := ws w;
              connected := connected w; isRunning := isRunning w;
              currentSessionId := currentSessionId w; trace := trace w |})
        else (Throw (Error (lit "EACCES")), w)
    | None => (Throw (Error (lit "ENOENT")), w)
    end.

Definition deleteSession (sessionId : jsval) : M bool :=
  try_catch
    (_ <- unlink (toString sessionId) ;; ret true)
    (fun error => ret false).

(** [String.prototype.endsWith]. *)
Definition endsWith (s p : jsstring) : bool := startsWith (rev s) (rev p).

(** [s.replace(p, '')] for a string [p]: its first occurrence goes. *)
Fixpoint remove_first (p s : jsstring) : jsstring :=
  if startsWith s p then drop (length p) s
  else
    match s with
    | [] => []
    | c :: s' => c :: remove_first p s'
    end.

(** [fs.readdirSync(this.sessionDir)]: the names of the files, in the
    order of the file system. *)
Definition readdir : M (list jsstring) :=
  read (fun w => List.map (fun kv => fst kv ++ lit ".json")
                   (map_to_list (files w))).

(** [Array.prototype.sort] with the comparator [(a, b) => key b - key a]:
    descending, and stable. *)
Fixpoint insert_desc {A} (key : A -> Z) (x : A) (l : list A) : list A :=
  match l with
  | [] => [x]
  | y :: l' =>
      if (key y <=? key x)%Z then x :: l else y :: insert_desc key x l'
  end.

Definition sort_desc {A} (key : A -> Z) (l : list A) : list A :=
  fold_right (insert_desc key) [] l.

(** [l.slice(0, limit)] for an integer [limit]. *)
Definition slice_to {A} (limit : Z) (l : list A) : list A :=
  if (limit <? 0)%Z
  then take (Z.to_nat (Z.max (Z.of_nat (length l) + limit) 0)) l
  else take (Z.to_nat limit) l.

(** [v?.[k]]. *)
Definition opt_prop (k : jsstring) (v : jsval) : jsval :=
  match prop k v with
  | Some x => x
  | None => VUndefined
  end.

(** [v || 0]. *)
Definition or_zero (v : jsval) : jsval :=
  if truthy v then v else VNum (Fin 0).

Section Directory.

(** [fs.statSync(file).mtime] of a file of the directory, in
    milliseconds. *)
Variable mtime : jsstring -> Z.

Definition getLastSession : M jsval :=
  try_catch
    (names <- readdir ;;
     let files :=
       sort_desc (fun f => snd f)
         (List.map
            (fun file => ((file, remove_first (lit ".json") file), mtime file))
            (List.filter (fun file => endsWith file (lit ".json")) names)) in
     ret (match files with
          | ((_, sessionId), _) :: _ => VStr sessionId
          | [] => VNull
          end))
    (fun error => ret VNull).

(** One row of [listSessions]; [modified] is a [Date], kept as its time
    value. *)
Definition session_row (file : jsstring) : M (jsobj * Z) :=
  let id := remove_first (lit ".json") file in
  session <- loadSession (VStr id) ;;
  ret ([(lit "id", VStr id);
        (lit "created", opt_prop (lit "created") session);
        (lit "modified", VNum (Fin (mtime file)));
        (lit "historyCount",
         or_zero (opt_prop (lit "length") (opt_prop (lit "history") session)))],
       mtime file).

Fixpoint map_M {A B} (f : A -> M B) (l : list A) : M (list B) :=
  match l with
  | [] => ret []
  | x :: l' => y <- f x ;; ys <- map_M f l' ;; ret (y :: ys)
  end.

Definition listSessions (limit : Z) : M (list jsobj) :=
  try_catch
    (names <- readdir ;;
     rows <- map_M session_row
               (List.filter (fun file => endsWith file (lit ".json")) names) ;;
     ret (List.map fst (slice_to limit (sort_desc snd rows))))
    (fun error => ret []).

End Directory.

End SessionManager.

(* ================================================================== *)
(** * The transport client ([src/lib/brain-client.js]) *)
(* ================================================================== *)

Module BrainClient.

(** [v === 'literal']. *)
Definition is_str (v : jsval) (s : jsstring) : bool :=
  match v with
  | VStr s' => Str.eqb s' s
  | _ => false
  end.

Definition set_ws (b : bool) : M unit :=
  fun w =>
    (Ret tt,
     {| files := files w; writable := writable w; dates := dates w;
        ticks := ticks w; ws := b; connected := connected w;
        isRunning := isRunning w; currentSessionId := currentSessionId w;
        trace := trace w |}).

Definition not_connected : exn := Error (lit "Not connected to Brain server").

(** [{ command, ...params }]. *)
Definition message_of (command : jsstring) (params : jsobj) : jsobj :=
  assign [(lit "command", VStr command)] params.

Definition sendCommand (command : jsstring) (params : jsobj) : M unit :=
  c <- read connected ;;
  if negb c then throw not_connected
  else
    let message := message_of command params in
    socket <- read ws ;;
    if socket then say (Send (JSON_stringify (VObj message)))
    else throw TypeError.

Definition connectServer (serverId serverConfig : jsval) : M unit :=
  _ <- say (Out "Connecting to server:" [serverId]) ;;
  try_catch
    (_ <- sendCommand (lit "connect_server")
            [(lit "server_id", serverId); (lit "server_config", serverConfig)] ;;
     say (Out "Server connected successfully" [serverId]))
    (fun error =>
       _ <- say (ErrOut "Failed to connect server:" [serverId]) ;;
       throw error).

Definition disconnectServer (serverId : jsval) : M unit :=
  sendCommand (lit "disconnect_server") [(lit "server_id", serverId)].

Definition listServers : M unit :=
  _ <- say (Out "Fetching connected servers..." []) ;;
  _ <- sendCommand (lit "get_servers") [] ;;
  say (Out "spinner.stop" []).

Definition listTools (serverId : jsval) : M unit :=
  _ <- say (Out "Fetching tools from" [serverId]) ;;
  _ <- sendCommand (lit "list_tools") [(lit "server_id", serverId)] ;;
  say (Out "spinner.stop" []).

(** Every call of the program gives [sendQuery] a text, which the box
    shows as it is. *)
Definition sendQuery (query : jsval) : M unit :=
  _ <- say (Out "Query:" [query]) ;;
  sendCommand (lit "query") [(lit "query", query)].

Definition showStatus : M unit :=
  _ <- say (Out "Getting system status..." []) ;;
  c <- read connected ;;
  if c then
    _ <- sendCommand (lit "get_servers") [] ;;
    say (Out "System status retrieved" [])
  else say (ErrOut "Not connected to Brain server" []).

(** The handlers of the inbound frames.  They print; reading a property
    of [undefined] or [null] on the way throws, and so does the
    conversion to a string of a value that has none. *)
Definition handleServerConnected (data : jsobj) : M unit :=
  let server := get (lit "server") data in
  id <- lift (prop (lit "id") server) ;;
  _ <- of_outcome (as_string id) ;;
  status <- lift (prop (lit "status") server) ;;
  _ <- of_outcome (as_string status) ;;
  tools_count <- lift (prop (lit "tools_count") server) ;;
  _ <- of_outcome (as_string tools_count) ;;
  say (Out "Server Connected" [id; status; tools_count]).

Definition handleServerDisconnected (data : jsobj) : M unit :=
  let server_id := get (lit "server_id") data in
  _ <- of_outcome (as_string server_id) ;;
  say (Out "Server disconnected:" [server_id]).

Definition is_zero (v : jsval) : bool :=
  match v with
  | VNum (Fin 0) => true
  | _ => false
  end.

Definition handleToolsList (data : jsobj) : M unit :=
  let server_id := get (lit "server_id") data in
  let tools := get (lit "tools") data in
  _ <- of_outcome (as_string server_id) ;;
  _ <- say (Out "Tools available on server:" [server_id]) ;;
  len <- lift (prop (lit "length") tools) ;;
  if is_zero len then say (Out "No tools available" [])
  else
    match tools with
    | VArr l =>
        _ <- for_each
               (fun tool =>
                  name <- lift (prop (lit "name") tool) ;;
                  _ <- of_outcome (as_string name) ;;
                  description <- lift (prop (lit "description") tool) ;;
                  _ <- (if truthy description
                        then of_outcome (as_string description)
                        else ret (lit "No description")) ;;
                  ret tt) l ;;
        say (Out "table" [tools])
    | _ => throw TypeError       (* [tools.forEach] is not a function *)
    end.

(** [Object.values(v)]. *)
Definition values (v : jsval) : list jsval :=
  match v with
  | VObj o => List.map snd o
  | VArr l => l
  | VStr s => List.map (fun c => VStr [c]) s
  | _ => []
  end.

Definition handleServersList (data : jsobj) : M unit :=
  let servers := get (lit "servers") data in
  _ <- say (Out "Connected MCP Servers" []) ;;
  len <- lift (prop (lit "length") servers) ;;
  if is_zero len then say (Out "No servers connected" [])
  else
    _ <- for_each
           (fun server =>
              id <- lift (prop (lit "id") server) ;;
              _ <- of_outcome (as_string id) ;;
              _ <- lift (prop (lit "status") server) ;;
              tools_count <- lift (prop (lit "tools_count") server) ;;
              _ <- lift (prop (lit "toString") tools_count) ;;
              _ <- of_outcome (as_string tools_count) ;;
              ret tt) (values servers) ;;
    say (Out "table" [servers]).

Definition handleQueryResponse (data : jsobj) : M unit :=
  let response := get (lit "response") data in
  _ <- of_outcome (as_string response) ;;
  say (Out "Brain Response:" [response]).

Definition handleThinking (data : jsobj) : M unit :=
  let message := get (lit "message") data in
  _ <- of_outcome (as_string message) ;;
  say (Out "thinking" [message]).

Definition handleStatus (data : jsobj) : M unit :=
  say (Out "Status:" [VObj data]).

Definition handleError (data : jsobj) : M unit :=
  let error := get (lit "error") data in
  _ <- of_outcome (as_string error) ;;
  say (ErrOut "Error" [error]).

(** The [case] labels of [handleMessage], with their handlers. *)
Definition dispatch_table : list (jsstring * (jsobj -> M unit)) :=
  [(lit "server_connected", handleServerConnected);
   (lit "server_disconnected", handleServerDisconnected);
   (lit "tools_list", handleToolsList);
   (lit "servers_list", handleServersList);
   (lit "query_response", handleQueryResponse);
   (lit "thinking", handleThinking);
   (lit "status", handleStatus);
   (lit "error", handleError)].

(** The [switch]: the handler of the first label [type] is strictly
    equal to. *)
Fixpoint handler_in (table : list (jsstring * (jsobj -> M unit)))
    (type : jsval) : option (jsobj -> M unit) :=
  match table with
  | [] => None
  | (label, h) :: table' =>
      if is_str type label then Some h else handler_in table' type
  end.

Definition handler_of (type : jsval) : option (jsobj -> M unit) :=
  handler_in dispatch_table type.

(** [this.emit('message', message)]: the listeners run at once, in the
    order they were added. *)
Definition emit (listeners : list (jsval -> M unit)) (message : jsval)
  : M unit :=
  _ <- say (Emit (lit "message") message) ;;
  for_each (fun listener => listener message) listeners.

Definition handleMessage (listeners : list (jsval -> M unit))
    (message : jsval) : M unit :=
  match message with
  | VUndefined | VNull => throw TypeError     (* nothing to destructure *)
  | _ =>
      let type := match message with
                  | VObj o => get (lit "type") o
                  | _ => VUndefined
                  end in
      let data := match message with
                  | VObj o => without (lit "type") o
                  | _ => []
                  end in
      _ <- match handler_of type with
           | Some h => h data
           | None => say (Out "Unknown message type:" [type])
           end ;;
      emit listeners message
  end.

(** [connect(url, timeout)] up to the creation of the socket; what
    follows is driven by the events of the socket. *)
Definition connect : M unit :=
  _ <- say (Out "Connecting to Brain server..." []) ;;
  set_ws true.

(** The listeners [connect] puts on the socket. *)
Definition on_open : M unit :=
  _ <- set_connected true ;;
  _ <- say (Out "Connected to" []) ;;
  say (Out "Brain CLI Connected!" []).

Definition on_message (listeners : list (jsval -> M unit)) (data : text)
  : M unit :=
  try_catch
    (message <- of_outcome (JSON_parse data) ;;
     handleMessage listeners message)
    (fun error => say (ErrOut "Failed to parse message:" [])).

Definition on_error : M unit :=
  _ <- say (ErrOut "Connection failed" []) ;;
  set_connected false.

Definition on_close : M unit :=
  _ <- set_connected false ;;
  say (Out "Connection closed" []).

Definition disconnect : M unit :=
  socket <- read ws ;;
  if socket then
    _ <- say Close ;;
    set_connected false
  else ret tt.

(** The client before [connect]. *)
Definition fresh (w : world) : Prop := ws w = false /\ connected w = false.

(** What can happen to a client: its methods are called, its socket
    (once there is one) fires. *)
Inductive step : world -> world -> Prop :=
| step_connect w : step w (snd (connect w))
| step_open w : ws w = true -> step w (snd (on_open w))
| step_error w : ws w = true -> step w (snd (on_error w))
| step_close w : ws w = true -> step w (snd (on_close w))
| step_message w ls data :
    ws w = true ->
    (forall l message w0, In l ls ->
       ws (snd (l message w0)) = ws w0
       /\ connected (snd (l message w0)) = connected w0) ->
    step w (snd (on_message ls data w))
| step_send w command params : step w (snd (sendCommand command params w))
| step_disconnect w : step w (snd (disconnect w)).

Inductive reachable : world -> Prop :=
| reach_fresh w : fresh w -> reachable w
| reach_step w w' : reachable w -> step w w' -> reachable w'.

End BrainClient.

(* ================================================================== *)
(** * The REPL orchestrator ([src/lib/repl.js]) *)
(* ================================================================== *)

Module BrainREPL.

Import CommandParser SessionManager BrainClient.

(** The text [JSON.stringify(v)] of a value (an [undefined] on its own
    is printed as [null], as it is inside an array). *)
Definition hex (d : N) : N := if d <? 10 then 48 + d else 87 + d.

Definition unicode_escape (c : N) : jsstring :=
  [92; 117; hex (c / 4096 mod 16); hex (c / 256 mod 16);
   hex (c / 16 mod 16); hex (c mod 16)].

Definition is_high (c : N) : bool := (55296 <=? c) && (c <=? 56319).
Definition is_low (c : N) : bool := (56320 <=? c) && (c <=? 57343).

Definition escape (c : N) : jsstring :=
  if c =? 8 then [92; 98]
  else if c =? 9 then [92; 116]
  else if c =? 10 then [92; 110]
  else if c =? 12 then [92; 102]
  else if c =? 13 then [92; 114]
  else if c =? 34 then [92; 34]
  else if c =? 92 then [92; 92]
  else if (c <? 32) || is_high c || is_low c then unicode_escape c
  else [c].

Fixpoint quote_chars (s : jsstring) : jsstring :=
  match s with
  | [] => []
  | [c] => escape c
  | c :: (d :: s'') as s' =>
      if is_high c && is_low d then c :: d :: quote_chars s''
      else escape c ++ quote_chars s'
  end.

Definition quoteJSON (s : jsstring) : jsstring :=
  [34] ++ quote_chars s ++ [34].

Fixpoint stringify (v : jsval) : jsstring :=
  match v with
  | VUndefined | VNull => lit "null"
  | VNum NaN | VNum Infinity | VNum NegInfinity => lit "null"
  | VNum _ | VBool _ => toString v
  | VStr s => quoteJSON s
  | VArr l =>
      [91] ++
      (fix items (l : list jsval) :=
         match l with
         | [] => []
         | [x] => stringify x
         | x :: l' => stringify x ++ [44] ++ items l'
         end) l
      ++ [93]
  | VObj o =>
      [123] ++
      (fix props (first : bool) (o : list (jsstring * jsval)) :=
         match o with
         | [] => []
         | (k, VUndefined) :: o' => props first o'
         | (k, x) :: o' =>
             (if first then [] else [44])
               ++ quoteJSON k ++ [58] ++ stringify x ++ props false o'
         end) true o
      ++ [125]
  end.

Definition user_entry (input : jsstring) : jsobj :=
  [(lit "type", VStr (lit "user")); (lit "content", VStr input)].

Definition query_entry (query : jsval) : jsobj :=
  [(lit "type", VStr (lit "query")); (lit "content", query)].

Definition response_entry (response : jsval) : jsobj :=
  [(lit "type", VStr (lit "response")); (lit "content", response)].

Definition handleQuery (query : jsval) : M unit :=
  sid <- read currentSessionId ;;
  _ <- addToHistory sid (query_entry query) ;;
  sendQuery query.

Definition handleConnectServer (serverId config : jsval) : M unit :=
  try_catch
    (_ <- connectServer serverId config ;;
     say (Out "Connected to server:" [serverId]))
    (fun error => say (ErrOut "Failed to connect server:" [])).

Definition handleListTools (serverId : jsval) : M unit :=
  if negb (truthy serverId) then say (Out "Please specify a server ID." [])
  else
    try_catch (listTools serverId)
      (fun error => say (ErrOut "Failed to list tools:" [])).

Definition showHelp : M unit := say (Out "Brain CLI - Available Commands:" []).

(** [history.length > 0]. *)
Definition positive (v : jsval) : bool :=
  match v with
  | VNum (Fin z) => (0 <? z)%Z
  | VNum Infinity => true
  | _ => false
  end.

Definition handleExit : M unit :=
  sid <- read currentSessionId ;;
  _ <- (if truthy sid then
          history <- getHistory sid ;;
          len <- lift (prop (lit "length") history) ;;
          if positive len then
            match sid with
            | VStr _ => say (Out "Session saved" [sid; len])
            | _ => throw TypeError          (* [slice] is not a function *)
            end
          else ret tt
        else ret tt) ;;
  _ <- say (Out "Goodbye!" []) ;;
  _ <- disconnect ;;
  _ <- set_isRunning false ;;
  say (Exit 0).

(** The listener [start] puts on the client. *)
Definition handleMessage (message : jsval) : M unit :=
  type <- lift (prop (lit "type") message) ;;
  if is_str type (lit "query_response") then
    sid <- read currentSessionId ;;
    response <- lift (prop (lit "response") message) ;;
    addToHistory sid (response_entry response)
  else ret tt.

(** The three forwarding helpers differ in the server they name. *)
Definition operation_query (server operation : jsstring) (params : jsobj)
  : jsstring :=
  lit "Use the " ++ server ++ lit " server to perform: " ++ operation
    ++ lit " with parameters: " ++ stringify (VObj params).

Definition handleFileOperation (operation : jsstring) (params : jsobj)
  : M unit :=
  try_catch
    (sendQuery (VStr (operation_query (lit "filesystem") operation params)))
    (fun error => say (ErrOut "File operation failed:" [])).

Definition handleGitOperation (operation : jsstring) (params : jsobj)
  : M unit :=
  try_catch
    (sendQuery (VStr (operation_query (lit "git") operation params)))
    (fun error => say (ErrOut "Git operation failed:" [])).

Definition handleCodebaseOperation (operation : jsstring) (params : jsobj)
  : M unit :=
  try_catch
    (sendQuery (VStr (operation_query (lit "codebase") operation params)))
    (fun error => say (ErrOut "Codebase operation failed:" [])).

Definition handleDevelopmentQuery (input : jsstring) : M unit :=
  sendQuery (VStr (lit "As a development assistant, help with: " ++ input)).

Definition showHistory : M unit :=
  sid <- read currentSessionId ;;
  history <- getHistory sid ;;
  len <- lift (prop (lit "length") history) ;;
  if is_zero len then say (Out "No conversation history in this session" [])
  else
    _ <- say (Out "Conversation History:" []) ;;
    match history with
    | VArr l =>
        _ <- for_each
               (fun entry =>
                  timestamp <- lift (prop (lit "timestamp") entry) ;;
                  (* [new Date(entry.timestamp)] *)
                  _ <- of_outcome (as_string timestamp) ;;
                  type <- lift (prop (lit "type") entry) ;;
                  if is_str type (lit "user") || is_str type (lit "query")
                     || is_str type (lit "response")
                  then say (Out "entry" [entry])
                  else ret tt) l ;;
        say (Out "==================================================" [])
    | _ => throw TypeError       (* [history.forEach] is not a function *)
    end.

(** [showSessions] reads the directory and prints; [listSessions] turns
    every storage error into an empty list. *)
Definition showSessions : M unit := say (Out "Recent Sessions:" []).

(** The [switch] of [processInput] on [command.type]. *)
Definition dispatch (command : jsobj) (input : jsstring) : M unit :=
  let type := get (lit "type") command in
  let field (k : string) := get (lit k) command in
  let case (s : string) := is_str type (lit s) in
  (* File operations *)
  if case "read_file"%string then
    handleFileOperation (lit "read_file") [(lit "path", field "filePath"%string)]
  else if case "write_file"%string then
    handleFileOperation (lit "write_file") [(lit "path", field "filePath"%string)]
  else if case "edit_file"%string then
    handleFileOperation (lit "edit_file") [(lit "path", field "filePath"%string)]
  else if case "list_directory"%string then
    handleFileOperation (lit "list_directory") [(lit "path", field "path"%string)]
  else if case "search_files"%string then
    handleFileOperation (lit "search_files")
      [(lit "pattern", field "pattern"%string); (lit "directory", field "directory"%string)]
  else if case "create_directory"%string then
    handleFileOperation (lit "create_directory") [(lit "path", field "path"%string)]
  (* Git operations *)
  else if case "git_status"%string then handleGitOperation (lit "git_status") []
  else if case "git_diff"%string then
    handleGitOperation (lit "git_diff") [(lit "file_path", field "filePath"%string)]
  else if case "git_log"%string then
    handleGitOperation (lit "git_log") [(lit "limit", field "limit"%string)]
  else if case "git_add"%string then
    handleGitOperation (lit "git_add") [(lit "file_paths", field "files"%string)]
  else if case "git_commit"%string then
    handleGitOperation (lit "git_commit") [(lit "message", field "message"%string)]
  else if case "git_branch_info"%string then
    handleGitOperation (lit "git_branch_info") []
  (* Codebase analysis *)
  else if case "analyze_project"%string then
    handleCodebaseOperation (lit "analyze_project") []
  else if case "explain_codebase"%string then
    handleCodebaseOperation (lit "explain_codebase") []
  else if case "get_project_structure"%string then
    handleCodebaseOperation (lit "get_project_structure") []
  else if case "find_definition"%string then
    handleCodebaseOperation (lit "find_definition")
      [(lit "symbol", field "symbol"%string); (lit "file_path", field "filePath"%string)]
  else if case "find_references"%string then
    handleCodebaseOperation (lit "find_references")
      [(lit "symbol", field "symbol"%string); (lit "file_path", field "filePath"%string)]
  (* Server operations *)
  else if case "connect_server"%string then
    handleConnectServer (field "serverId"%string) (field "config"%string)
  else if case "list_servers"%string then listServers
  else if case "list_tools"%string then handleListTools (field "serverId"%string)
  (* Queries *)
  else if case "query"%string then handleQuery (field "query"%string)
  else if case "unknown"%string then
    if isDevelopmentCommand input then handleDevelopmentQuery input
    else handleQuery (VStr input)
  else handleQuery (VStr input).

Definition processInput (input : jsstring) : M unit :=
  (* Add to session history *)
  sid <- read currentSessionId ;;
  _ <- addToHistory sid (user_entry input) ;;
  (* Handle special commands *)
  let lower := toLowerCase input in
  if Str.eqb lower (lit "exit") || Str.eqb lower (lit "quit") then handleExit
  else if Str.eqb lower (lit "help") then showHelp
  else if Str.eqb lower (lit "status") then showStatus
  else if Str.eqb lower (lit "clear") then say Clear
  else if Str.eqb lower (lit "history") then showHistory
  else if startsWith lower (lit "sessions") then showSessions
  else
    (* Parse natural language command *)
    command <- of_outcome (parse input) ;;
    dispatch command input.

(** One turn of [mainLoop] on the line the prompt returned. *)
Definition on_line (input : jsstring) : M unit :=
  match trim input with
  | [] => ret tt                              (* skip empty input *)
  | line =>
      try_catch (processInput line)
        (fun error => say (ErrOut "Error:" []))
  end.

(** An inbound frame, with the listener of the REPL on the client. *)
Definition on_frame (data : text) : M unit :=
  on_message [handleMessage] data.

Definition set_currentSessionId (v : jsval) : M unit :=
  fun w =>
    (Ret tt,
     {| files := files w; writable := writable w; dates := dates w;
        ticks := ticks w; ws := ws w; connected := connected w;
        isRunning := isRunning w; currentSessionId := v;
        trace := trace w |}).

Section Start.

(** The modification times [getLastSession] reads, the options of the
    constructor and the bytes a new session id is drawn from. *)
Variable mtime : jsstring -> Z.
Variable continueSession : bool.
Variable sessionId : jsval.
Variable bytes : list N.

(** [start(url)] from the point where [connect] has resolved, up to the
    main loop: the choice of the session.  The listener it puts on the
    client is the one of [on_frame]. *)
Definition start_resolved : M unit :=
  try_catch
    (_ <- set_isRunning true ;;
     (* Handle session management *)
     _ <- (if continueSession || truthy sessionId then
             sid <- (if truthy sessionId then ret sessionId
                     else getLastSession mtime) ;;
             if truthy sid then
               _ <- set_currentSessionId sid ;;
               history <- getHistory sid ;;
               len <- lift (prop (lit "length") history) ;;
               if positive len then
                 match sid with
                 | VStr _ => say (Out "Continuing session" [sid; len])
                 | _ => throw TypeError       (* [slice] is not a function *)
                 end
               else ret tt
             else
               _ <- say (Out "No previous session found, starting new session" []) ;;
               id <- createSession bytes ;;
               set_currentSessionId id
           else
             id <- createSession bytes ;;
             set_currentSessionId id) ;;
     _ <- say (Out "Connected to Brain server" []) ;;
     say (Out "" []))
    (fun error =>
       _ <- say (ErrOut "Failed to connect:" []) ;;
       say (Exit 1)).

End Start.

End BrainREPL.

(* ================================================================== *)
(** * The utilities ([src/lib/utils.js]) *)
(* ================================================================== *)

Module Utils.

(** [truncate(text, maxLength)]; [substring] takes a negative end for
    zero. *)
Definition truncate (text : jsstring) (maxLength : Z) : jsstring :=
  if (Z.of_nat (length text) <=? maxLength)%Z then text
  else take (Z.to_nat (maxLength - 3)) text ++ lit "...".

(** The characters of the class of [validateServerId]: the letters, the
    digits, the underscore and the hyphen. *)
Definition idChars : list N :=
  List.map N.of_nat (seq 97 26 ++ seq 65 26 ++ seq 48 10) ++ [95; 45].

(** [/^[a-zA-Z0-9_-]+$/.test(id)]. *)
Definition validateServerId (id : jsstring) : bool :=
  match exec false (cat [RBol; plus (CSet idChars); REol]) 0 id with
  | Some _ => true
  | None => false
  end.

End Utils.

(* ================================================================== *)
(** * The vocabulary of the properties *)
(* ================================================================== *)

Section Vocabulary.

Import CommandParser SessionManager BrainClient BrainREPL.

(** Group [i] took part. *)
Definition is_set (cs : caps) (i : nat) : Prop :=
  exists t, cs !! i = Some (Some t).

(** The groups that take part in every match of a pattern. *)
Fixpoint must (r : regex) : list nat :=
  match r with
  | RGroup i r1 => i :: must r1
  | RSeq r1 r2 => must r1 ++ must r2
  | _ => []
  end.

(** Every group of a pattern. *)
Fixpoint groups_of (r : regex) : list nat :=
  match r with
  | RGroup i r1 => i :: groups_of r1
  | RSeq r1 r2 | RAlt r1 r2 => groups_of r1 ++ groups_of r2
  | ROpt r1 => groups_of r1
  | _ => []
  end.

(** What a successful match hands to its continuation. *)
Definition handed (r : regex) (cs : caps) (k : cont) (res : nat * caps)
  : Prop :=
  exists pos' s' cs',
    k pos' s' cs' = Some res
    /\ length cs' = length cs
    /\ (forall i, is_set cs i -> is_set cs' i)
    /\ (forall i, In i (must r) -> (i < length cs)%nat -> is_set cs' i).

(** The kind of a command. *)
Definition kind (command : jsobj) : jsval := get (lit "type") command.

Definition unknown (t : jsstring) : jsobj :=
  [(lit "type", VStr (lit "unknown")); (lit "input", VStr t)].

(** Every kind the rule table names, and [unknown]. *)
Definition kinds : list jsstring :=
  List.map lit
    ["read_file"; "write_file"; "edit_file"; "list_directory";
     "search_files"; "create_directory"; "git_status"; "git_diff";
     "git_log"; "git_add"; "git_commit"; "git_branch_info";
     "analyze_project"; "explain_codebase"; "get_project_structure";
     "find_definition"; "find_references"; "connect_server";
     "list_servers"; "list_tools"; "query"; "unknown"]%string.

Definition category_names : list jsstring :=
  List.map lit
    ["file_operations"; "git_operations"; "codebase_analysis";
     "server_management"; "queries"]%string.

(** The number a string of decimal digits denotes. *)
Definition decimal (n : jsstring) : Z :=
  fold_left (fun acc d => acc * 10 + (Z.of_N d - 48))%Z n 0%Z.

Definition git_log_command (limit : number) : jsobj :=
  [(lit "type", VStr (lit "git_log")); (lit "limit", VNum limit)].

Definition finish : cont := fun pos' _ cs => Some (pos', cs).

(** A well-formed session file [sid].json in [w], with history [h]. *)
Record recorded (w : world) (sid : jsstring) (session : jsobj)
    (h : list jsval) : Prop := {
  rec_file : files w !! sid = Some (Json (VObj session));
  rec_json : is_json (VObj session) = true;
  rec_id : get (lit "id") session = VStr sid;
  rec_history : get (lit "history") session = VArr h;
  rec_writable : writable w = true;
}.

(** The record once [e] is pushed on its history. *)
Definition pushed (session : jsobj) (h : list jsval) (e : jsval) : jsobj :=
  replace (lit "history") (VArr (h ++ [e])) session.

(** The world after an append. *)
Definition appended (w : world) (sid : jsstring) (session : jsobj)
    (h : list jsval) (entry : jsobj) : world :=
  let e := json (VObj (stamp entry (dates w (ticks w)))) in
  let doc := Json (VObj (pushed session h e)) in
  {| files := <[sid := doc]> (files w); writable := writable w;
     dates := dates w; ticks := S (ticks w); ws := ws w;
     connected := connected w; isRunning := isRunning w;
     currentSessionId := currentSessionId w;
     trace := trace w ++ [Write sid doc] |}.

(** A record with one earlier entry, and a user line appended to it. *)
Definition sample_session : jsobj :=
  [(lit "id", VStr (lit "a1b2c3d4e5f60718"));
   (lit "created", VStr (lit "2025-01-01T00:00:00.000Z"));
   (lit "history",
    VArr [VObj [(lit "type", VStr (lit "user"));
                (lit "content", VStr (lit "help"));
                (lit "timestamp", VStr (lit "2025-01-01T00:00:01.000Z"))]])].

Definition sample_world : world :=
  {| files := {[ lit "a1b2c3d4e5f60718" := Json (VObj sample_session) ]};
     writable := true;
     dates := fun _ => lit "2025-01-01T00:00:02.000Z";
     ticks := 0; ws := true; connected := true; isRunning := true;
     currentSessionId := VStr (lit "a1b2c3d4e5f60718");
     trace := [] |}.

(** The world with more effects in its trace. *)
Definition after (w : world) (evs : list event) : world :=
  {| files := files w; writable := writable w; dates := dates w;
     ticks := ticks w; ws := ws w; connected := connected w;
     isRunning := isRunning w; currentSessionId := currentSessionId w;
     trace := trace w ++ evs |}.

(** [c] takes every world to one related to it by [R]. *)
Definition keeps (R : world -> world -> Prop) {A : Type} (c : M A) : Prop :=
  forall w, R w (snd (c w)).

(** The client is the same on both sides. *)
Definition same_client (w w' : world) : Prop :=
  ws w' = ws w /\ connected w' = connected w.

(** A client that never connected, and one whose socket has opened. *)
Definition idle_world : world :=
  {| files := ∅; writable := true; dates := fun _ => [];
     ticks := 0; ws := false; connected := false; isRunning := false;
     currentSessionId := VNull; trace := [] |}.

Definition open_world : world := snd (on_open (snd (connect idle_world))).

(** A store whose one file is no JSON. *)
Definition torn_world : world :=
  {| files := {[ lit "0000" := Corrupt ]}; writable := true;
     dates := fun _ => []; ticks := 0; ws := false; connected := false;
     isRunning := false; currentSessionId := VStr (lit "0000");
     trace := [] |}.

(** Two replies to a query: one whose response is a text, and one whose
    response has an own [toString] that is no function. *)
Definition text_reply : jsobj :=
  [(lit "type", VStr (lit "query_response"));
   (lit "response", VStr (lit "ok"))].

Definition odd_reply : jsobj :=
  [(lit "type", VStr (lit "query_response"));
   (lit "response", VObj [(lit "toString", VNum (Fin 1))])].

(** The labels of the dispatch table. *)
Definition labels : list jsstring := List.map fst dispatch_table.

(** Nothing but effects on the console and the socket: the store, the
    clock and the active session are as before, the trace has grown. *)
Definition quiet (w w' : world) : Prop :=
  files w' = files w /\ writable w' = writable w /\ dates w' = dates w
  /\ ticks w' = ticks w /\ currentSessionId w' = currentSessionId w
  /\ exists evs, trace w' = trace w ++ evs.

(** An entry of type [query]. *)
Definition is_query_entry (e : jsval) : Prop :=
  prop (lit "type") e = Some (VStr (lit "query")).

(** [c] leaves the record of the active session in place and pushes at
    most one entry on its history, of type [query]. *)
Definition grows (c : M unit) : Prop :=
  forall w sid s h,
    recorded w sid s h -> currentSessionId w = VStr sid ->
    exists s' tail evs,
      recorded (snd (c w)) sid s' (h ++ tail)
      /\ Forall is_query_entry tail /\ (length tail <= 1)%nat
      /\ trace (snd (c w)) = trace w ++ evs.

(** The user entry as it is stored. *)
Definition stored_user (line t : jsstring) : jsval :=
  VObj [(lit "type", VStr (lit "user")); (lit "content", VStr line);
        (lit "timestamp", VStr t)].

Definition stored_response (response : jsval) (t : jsstring) : jsval :=
  json (VObj (stamp (response_entry response) t)).

(** Whether a search found a match. *)
Definition hit {A} (o : option A) : bool :=
  match o with
  | Some _ => true
  | None => false
  end.

(** The same string up to the case of the ASCII letters. *)
Definition same_letters (s s' : jsstring) : Prop :=
  List.map upper s = List.map upper s'.

(** Two continuations that succeed on the same inputs, up to case. *)
Definition alike (k k' : cont) : Prop :=
  forall pos t t' cs cs',
    same_letters t t' -> hit (k pos t cs) = hit (k' pos t' cs').

Definition is_letter (c : N) : bool :=
  ((97 <=? c) && (c <=? 122)) || ((65 <=? c) && (c <=? 90)).

(** A pattern whose literal characters match without regard to case:
    it has the [i] flag, or none of them is a letter. *)
Definition cls_caseless (c : cls) : bool :=
  match c with
  | CChar y => negb (is_letter y)
  | CSet ys => forallb (fun y => negb (is_letter y)) ys
  | _ => true
  end.

Fixpoint caseless (r : regex) : bool :=
  match r with
  | RChar c | RStar _ c => cls_caseless c
  | RSeq r1 r2 | RAlt r1 r2 => caseless r1 && caseless r2
  | ROpt r1 | RGroup _ r1 => caseless r1
  | _ => true
  end.

(** No line terminator: what [.] matches all along. *)
Definition one_line (s : jsstring) : bool :=
  forallb (fun c => negb (isLineTerminator c)) s.

(** The kinds the lines of [suggestCommand] are classified with. *)
Definition suggested_kinds : list jsstring :=
  List.map lit
    ["read_file"; "edit_file"; "list_directory"; "git_status"; "git_diff";
     "git_commit"; "analyze_project"; "explain_codebase";
     "connect_server"]%string.

(** The question words of the last but one rule. *)
Definition question_words : list string :=
  ["what"; "how"; "why"; "when"; "where"; "who"; "can"; "could"; "would";
   "should"; "is"; "are"; "do"; "does"; "did"; "will"; "explain"; "tell";
   "describe"]%string.

(** The last rule of the table: a question mark at the end. *)
Definition question_rule : rule :=
  {| pattern := cat [str "?"; REol]; ignoreCase := false; ngroups := 0%nat;
     type := lit "query"; extract := query_input |}.

(** The rule before it: a question word and white space at the start. *)
Definition question_word_rule : rule :=
  mk [RBol;
      alt (str "what")
        [str "how"; str "why"; str "when"; str "where"; str "who";
         str "can"; str "could"; str "would"; str "should"; str "is";
         str "are"; str "do"; str "does"; str "did"; str "will";
         str "explain"; str "tell"; str "describe"];
      sp]
     0 "query" query_input.

(** A record just created. *)
Definition new_session (id created : jsstring) : jsobj :=
  [(lit "id", VStr id); (lit "created", VStr created); (lit "history", VArr [])].

Definition is_hex (c : N) : bool :=
  isDigit c || ((97 <=? c) && (c <=? 102)).

(** In descending order of [key]. *)
Fixpoint descending {A} (key : A -> Z) (l : list A) : bool :=
  match l with
  | a :: l' =>
      match l' with
      | b :: _ => (key b <=? key a)%Z && descending key l'
      | [] => true
      end
  | [] => true
  end.

(** The time a row of [listSessions] carries. *)
Definition modified_of (row : jsobj) : Z :=
  match get (lit "modified") row with
  | VNum (Fin z) => z
  | _ => 0%Z
  end.

(** The name of the file of a session. *)
Definition file_of (sid : jsstring) : jsstring := sid ++ lit ".json".

(** No file of the directory has [.json] inside its session id. *)
Definition plain_names (w : world) : Prop :=
  forall sid t, files w !! sid = Some t -> includes sid (lit ".json") = false.

(** What [loadSession] finds under a session id. *)
Definition stored (w : world) (sid : jsstring) : jsval :=
  match files w !! sid with
  | Some (Json v) => v
  | _ => VNull
  end.

(** The names [readdirSync] lists. *)
Definition names_of (w : world) : list jsstring :=
  List.map (fun kv => file_of (fst kv)) (map_to_list (files w)).

(** The row [listSessions] makes for a file. *)
Definition row_of (mtime : jsstring -> Z) (w : world) (file : jsstring)
  : jsobj * Z :=
  let id := remove_first (lit ".json") file in
  ([(lit "id", VStr id);
    (lit "created", opt_prop (lit "created") (stored w id));
    (lit "modified", VNum (Fin (mtime file)));
    (lit "historyCount",
     or_zero (opt_prop (lit "length")
                (opt_prop (lit "history") (stored w id))))],
   mtime file).

Definition is_send (e : event) : bool :=
  match e with
  | Send _ => true
  | _ => false
  end.

(** An effect on the console, on the listeners or on a file: the socket
    and the process are left alone. *)
Definition silent (e : event) : bool :=
  match e with
  | Send _ | Close | Exit _ => false
  | _ => true
  end.

(** The trace grows, by effects that satisfy [P] only. *)
Definition only (P : event -> bool) (w w' : world) : Prop :=
  exists evs, trace w' = trace w ++ evs /\ forallb P evs = true.

Definition is_exit (e : event) : bool :=
  match e with
  | Exit _ => true
  | _ => false
  end.

(** An effect that neither writes to the socket nor ends the process. *)
Definition going (e : event) : bool := negb (is_send e) && negb (is_exit e).

(** The lines that end the loop: [exit] and [quit], in any case. *)
Definition leaving (line : jsstring) : bool :=
  let lower := toLowerCase line in
  Str.eqb lower (lit "exit") || Str.eqb lower (lit "quit").

(** While the client is not connected: it stays so, nothing is written
    to the socket and the process goes on. *)
Definition offline (w w' : world) : Prop :=
  connected w = false -> connected w' = false /\ only going w w'.

(** While the client is not connected, [c] sends nothing and leaves it
    so; when [c] returns, the process has ended with code 0 as its last
    effect, and when it throws, the process goes on. *)
Definition ending {A : Type} (c : M A) : Prop :=
  forall w, connected w = false ->
    connected (snd (c w)) = false
    /\ match fst (c w) with
       | Ret _ =>
           exists evs, trace (snd (c w)) = trace w ++ evs ++ [Exit 0]
                       /\ forallb going evs = true
       | Throw _ => only going w (snd (c w))
       end.

(** The client and the loop are as before, and the effects are silent. *)
Definition inbound (w w' : world) : Prop :=
  ws w' = ws w /\ connected w' = connected w /\ isRunning w' = isRunning w
  /\ currentSessionId w' = currentSessionId w
  /\ only silent w w'.

(** A line the REPL handles itself, before any classification. *)
Definition builtin (line : jsstring) : bool :=
  let lower := toLowerCase line in
  Str.eqb lower (lit "exit") || Str.eqb lower (lit "quit")
  || Str.eqb lower (lit "help") || Str.eqb lower (lit "status")
  || Str.eqb lower (lit "clear") || Str.eqb lower (lit "history")
  || startsWith lower (lit "sessions").

(** The query entry as it is stored, and the frame of a query. *)
Definition stored_query (q t : jsstring) : jsval :=
  VObj [(lit "type", VStr (lit "query")); (lit "content", VStr q);
        (lit "timestamp", VStr t)].

Definition query_frame (q : jsstring) : text :=
  Json (VObj [(lit "command", VStr (lit "query")); (lit "query", VStr q)]).

(** The frame that asks for the servers. *)
Definition servers_frame : text :=
  Json (VObj [(lit "command", VStr (lit "get_servers"))]).

(** The text [handleDevelopmentQuery] sends for a line. *)
Definition framed (line : jsstring) : jsstring :=
  lit "As a development assistant, help with: " ++ line.

(** The fields of a command that hold a path or a query. *)
Definition trimmed_fields : list jsstring :=
  List.map lit ["filePath"; "path"; "config"; "query"]%string.

(** The sample store when it cannot be written. *)
Definition locked_world : world :=
  {| files := files sample_world; writable := false;
     dates := dates sample_world; ticks := 0; ws := true; connected := true;
     isRunning := true; currentSessionId := currentSessionId sample_world;
     trace := [] |}.


End Vocabulary.

(* ================================================================== *)
(** * Properties of the strings *)
(* ================================================================== *)

Section Strings.

Lemma eqb_eq (a b : jsstring) : Str.eqb a b = true <-> a = b.
Proof.
  revert b; induction a as [|x a IH]; intros [|y b]; simpl;
    try (split; [discriminate | congruence]); try tauto.
  rewrite andb_true_iff, N.eqb_eq, IH. split.
  - intros [-> ->]; reflexivity.
  - intros [= -> ->]; auto.
Qed.

Lemma eqb_refl (a : jsstring) : Str.eqb a a = true.
Proof. apply eqb_eq; reflexivity. Qed.

Lemma eqb_neq (a b : jsstring) : Str.eqb a b = false <-> a <> b.
Proof.
  rewrite <- eqb_eq. destruct (Str.eqb a b); split; congruence.
Qed.

(** The ten digits. *)
Lemma isDigit_cases (c : N) :
  isDigit c = true ->
  In c [48; 49; 50; 51; 52; 53; 54; 55; 56; 57].
Proof.
  unfold isDigit. rewrite andb_true_iff, !N.leb_le. intros [H1 H2].
  simpl.
  assert (c = 48 \/ c = 49 \/ c = 50 \/ c = 51 \/ c = 52 \/ c = 53
          \/ c = 54 \/ c = 55 \/ c = 56 \/ c = 57) by lia.
  intuition.
Qed.

Lemma digit_not_space (c : N) : isDigit c = true -> isWhiteSpace c = false.
Proof.
  intros H. apply isDigit_cases in H. simpl in H.
  repeat destruct H as [<- | H]; try reflexivity. destruct H.
Qed.

Lemma trimStart_spaces (s : jsstring) :
  forallb isWhiteSpace s = true -> trimStart s = [].
Proof.
  induction s as [|c s IH]; simpl; [reflexivity|].
  rewrite andb_true_iff. intros [-> H]. auto.
Qed.

Lemma trim_spaces (s : jsstring) :
  forallb isWhiteSpace s = true -> trim s = [].
Proof.
  intros H. unfold trim, trimEnd. rewrite (trimStart_spaces s H).
  reflexivity.
Qed.

Lemma trimStart_head (c : N) (s : jsstring) :
  isWhiteSpace c = false -> trimStart (c :: s) = c :: s.
Proof. intros H. simpl. rewrite H. reflexivity. Qed.

Lemma trimEnd_last (s : jsstring) (c : N) :
  isWhiteSpace c = false -> trimEnd (s ++ [c]) = s ++ [c].
Proof.
  intros H. unfold trimEnd. rewrite rev_app_distr. simpl.
  rewrite H. simpl. rewrite rev_involutive. reflexivity.
Qed.

(** A string that neither starts nor ends with white space is its own
    trim. *)
Lemma trim_tight (c d : N) (s : jsstring) :
  isWhiteSpace c = false -> isWhiteSpace d = false ->
  trim (c :: s ++ [d]) = c :: s ++ [d].
Proof.
  intros Hc Hd. unfold trim. rewrite (trimStart_head c _ Hc).
  change (c :: s ++ [d]) with ((c :: s) ++ [d]).
  apply trimEnd_last, Hd.
Qed.

End Strings.

(* ================================================================== *)
(** * Properties of the matcher *)
(* ================================================================== *)

Section Matcher.

Lemma is_set_insert (cs : caps) (i j : nat) (t : jsstring) :
  is_set cs j -> is_set (<[i := Some t]> cs) j.
Proof.
  intros [u Hu]. destruct (decide (i = j)) as [->|Hne].
  - exists t. apply list_lookup_insert_eq. eapply lookup_lt_Some, Hu.
  - exists u. rewrite list_lookup_insert_ne by exact Hne. exact Hu.
Qed.

Lemma star_handed ic g c k res :
  forall s pos cs,
    star ic g c k pos s cs = Some res ->
    exists pos' s', k pos' s' cs = Some res.
Proof.
  induction s as [|x s IH]; intros pos cs H; simpl in H.
  - eauto.
  - destruct (cls_match ic c x); [|eauto].
    destruct g.
    + destruct (star ic true c k (S pos) s cs) eqn:E.
      * injection H as <-. eapply IH, E.
      * eauto.
    + destruct (k pos (x :: s) cs) eqn:E.
      * injection H as <-. eauto.
      * eapply IH, H.
Qed.

Lemma m_handed ic r :
  forall pos s cs k res,
    m ic r pos s cs k = Some res -> handed r cs k res.
Proof.
  unfold handed.
  induction r as [|c| | |r1 IH1 r2 IH2|r1 IH1 r2 IH2|r1 IH1|g c|i r1 IH1];
    intros pos s cs k res H; simpl in H.
  - exists pos, s, cs. simpl. intuition.
  - destruct s as [|x s]; [discriminate|].
    destruct (cls_match ic c x); [|discriminate].
    exists (S pos), s, cs. simpl. intuition.
  - destruct (Nat.eqb pos 0); [|discriminate].
    exists pos, s, cs. simpl. intuition.
  - destruct s; [|discriminate].
    exists pos, [], cs. simpl. intuition.
  - apply IH1 in H as (p1 & s1 & cs1 & H & L1 & M1 & G1).
    apply IH2 in H as (p2 & s2 & cs2 & H & L2 & M2 & G2).
    exists p2, s2, cs2. split; [exact H|]. split; [congruence|].
    split; [auto|]. simpl. intros i Hi Hlt.
    apply in_app_or in Hi as [Hi|Hi].
    + apply M2, G1; assumption.
    + apply G2; [assumption|]. rewrite L1. exact Hlt.
  - destruct (m ic r1 pos s cs k) eqn:E.
    + injection H as <-.
      apply IH1 in E as (p1 & s1 & cs1 & E & L1 & M1 & _).
      exists p1, s1, cs1. simpl. intuition.
    + apply IH2 in H as (p2 & s2 & cs2 & H & L2 & M2 & _).
      exists p2, s2, cs2. simpl. intuition.
  - match type of H with
    | match ?e with _ => _ end = _ => destruct e eqn:E
    end.
    + injection H as <-.
      apply IH1 in E as (p1 & s1 & cs1 & E & L1 & M1 & _).
      destruct (Nat.eqb p1 pos); [discriminate|].
      exists p1, s1, cs1. simpl. intuition.
    + exists pos, s, cs. simpl. intuition.
  - apply star_handed in H as (p1 & s1 & H).
    exists p1, s1, cs. simpl. intuition.
  - apply IH1 in H as (p1 & s1 & cs1 & H & L1 & M1 & G1).
    eexists p1, s1, _. split; [exact H|].
    split; [rewrite length_insert; exact L1|].
    split; [intros j Hj; apply is_set_insert, M1, Hj|].
    simpl. intros j [<-|Hj] Hlt.
    + eexists. apply list_lookup_insert_eq. rewrite L1. exact Hlt.
    + apply is_set_insert, G1; assumption.
Qed.

Lemma exec_from_eq ic r n whole pos s :
  exec_from ic r n whole pos s =
  match m ic r pos s (replicate (S n) None)
          (fun pos' _ cs => Some (pos', cs)) with
  | Some (e, cs) =>
      Some {| index := pos; input := whole;
              groups := <[0%nat := Some (take (e - pos) s)]> cs |}
  | None =>
      match s with
      | [] => None
      | _ :: s' => exec_from ic r n whole (S pos) s'
      end
  end.
Proof. destruct s; reflexivity. Qed.

(** The groups of [must] are defined in the array [match] returns. *)
Lemma exec_from_must ic r n whole :
  forall s pos mr i,
    exec_from ic r n whole pos s = Some mr ->
    In i (must r) -> (i <= n)%nat ->
    exists t, group i mr = Some t.
Proof.
  assert (Hit : forall s pos e cs i,
    m ic r pos s (replicate (S n) None) (fun pos' _ cs => Some (pos', cs))
      = Some (e, cs) ->
    In i (must r) -> (i <= n)%nat ->
    exists t, group i {| index := pos; input := whole;
                         groups := <[0%nat := Some (take (e - pos) s)]> cs |}
              = Some t).
  { intros s pos e cs i E Hi Hn.
    apply m_handed in E as (p1 & s1 & cs1 & E & L1 & _ & G1).
    injection E as -> ->.
    rewrite length_replicate in L1, G1.
    destruct (is_set_insert cs 0 i (take (e - pos) s) (G1 i Hi ltac:(lia)))
      as [t Ht].
    exists t. unfold group. cbn [groups]. rewrite Ht. reflexivity. }
  induction s as [|x s IH]; intros pos mr i H Hi Hn;
    rewrite exec_from_eq in H;
    destruct (m ic r pos _ (replicate (S n) None) _) as [[e cs]|] eqn:E;
    try discriminate.
  - injection H as <-. eapply Hit; eassumption.
  - injection H as <-. eapply Hit; eassumption.
  - eapply IH; eassumption.
Qed.

(** A pattern that starts with [^] matches at position 0 or not at
    all. *)
Lemma exec_from_bol ic r n whole :
  forall s pos, (0 < pos)%nat -> exec_from ic (RSeq RBol r) n whole pos s = None.
Proof.
  induction s as [|x s IH]; intros pos Hpos; simpl;
    destruct pos; try lia; simpl; try reflexivity.
  apply IH. lia.
Qed.

Lemma exec_bol ic r n s :
  exec ic (RSeq RBol r) n s =
  match m ic r 0 s (replicate (S n) None) (fun pos' _ cs => Some (pos', cs)) with
  | Some (e, cs) =>
      Some {| index := 0; input := s;
              groups := <[0%nat := Some (take (e - 0) s)]> cs |}
  | None => None
  end.
Proof.
  unfold exec. destruct s as [|x s]; simpl.
  - destruct (m ic r 0 [] _ _) as [[e cs]|]; reflexivity.
  - destruct (m ic r 0 (x :: s) _ _) as [[e cs]|]; [reflexivity|].
    apply exec_from_bol. lia.
Qed.

(** A greedy repetition runs to the end of the input when every
    character is in the class and the rest of the pattern accepts
    there. *)
Lemma star_greedy_all ic c k res :
  forall s pos cs,
    forallb (cls_match ic c) s = true ->
    k (pos + length s)%nat [] cs = Some res ->
    star ic true c k pos s cs = Some res.
Proof.
  induction s as [|x s IH]; intros pos cs Hall Hk; simpl in *.
  - rewrite Nat.add_0_r in Hk. exact Hk.
  - apply andb_true_iff in Hall as [-> Hall].
    rewrite (IH (S pos) cs Hall); [reflexivity|].
    rewrite <- Hk. f_equal. lia.
Qed.

(** A repetition consumes characters of its class. *)
Lemma star_span ic g c k res :
  forall s pos cs,
    star ic g c k pos s cs = Some res ->
    exists xs s',
      s = xs ++ s' /\ forallb (cls_match ic c) xs = true
      /\ k (pos + length xs)%nat s' cs = Some res.
Proof.
  induction s as [|x s IH]; intros pos cs H; simpl in H.
  - exists [], []. rewrite Nat.add_0_r. auto.
  - assert (Hstop : k pos (x :: s) cs = Some res ->
                    exists xs s', x :: s = xs ++ s'
                      /\ forallb (cls_match ic c) xs = true
                      /\ k (pos + length xs)%nat s' cs = Some res).
    { intros Hk. exists [], (x :: s). rewrite Nat.add_0_r. auto. }
    assert (Hmore : cls_match ic c x = true ->
                    star ic g c k (S pos) s cs = Some res ->
                    exists xs s', x :: s = xs ++ s'
                      /\ forallb (cls_match ic c) xs = true
                      /\ k (pos + length xs)%nat s' cs = Some res).
    { intros Hx Hs. apply IH in Hs as (xs & s' & -> & Hall & Hk).
      exists (x :: xs), s'. simpl. rewrite Hx, Hall.
      replace (pos + S (length xs))%nat with (S pos + length xs)%nat by lia.
      auto. }
    destruct (cls_match ic c x) eqn:Hx; [|auto].
    destruct g.
    + destruct (star ic true c k (S pos) s cs) eqn:E.
      * injection H as <-. auto.
      * auto.
    + destruct (k pos (x :: s) cs) eqn:E.
      * injection H as <-. auto.
      * auto.
Qed.

(** A match consumes a prefix of the input, and a pattern without groups
    leaves the captures alone. *)
Lemma m_span ic r :
  forall pos s cs k res,
    m ic r pos s cs k = Some res ->
    exists xs s' cs',
      s = xs ++ s' /\ k (pos + length xs)%nat s' cs' = Some res
      /\ (groups_of r = [] -> cs' = cs).
Proof.
  induction r as [|c| | |r1 IH1 r2 IH2|r1 IH1 r2 IH2|r1 IH1|g c|i r1 IH1];
    intros pos s cs k res H; simpl in H.
  - exists [], s, cs. rewrite Nat.add_0_r. auto.
  - destruct s as [|x s]; [discriminate|].
    destruct (cls_match ic c x); [|discriminate].
    exists [x], s, cs. simpl. rewrite Nat.add_1_r. auto.
  - destruct (Nat.eqb pos 0); [|discriminate].
    exists [], s, cs. rewrite Nat.add_0_r. auto.
  - destruct s; [|discriminate].
    exists [], [], cs. rewrite Nat.add_0_r. auto.
  - apply IH1 in H as (x1 & s1 & cs1 & -> & H & G1).
    apply IH2 in H as (x2 & s2 & cs2 & -> & H & G2).
    exists (x1 ++ x2), s2, cs2. rewrite <- app_assoc, length_app.
    rewrite Nat.add_assoc. split; [reflexivity|]. split; [exact H|].
    simpl. intros Hg. apply app_eq_nil in Hg as [Hg1 Hg2].
    rewrite (G2 Hg2). auto.
  - destruct (m ic r1 pos s cs k) eqn:E.
    + injection H as <-.
      apply IH1 in E as (x1 & s1 & cs1 & -> & E & G1).
      exists x1, s1, cs1. simpl. split; [reflexivity|]. split; [exact E|].
      intros Hg. apply app_eq_nil in Hg as [Hg1 _]. auto.
    + apply IH2 in H as (x2 & s2 & cs2 & -> & H & G2).
      exists x2, s2, cs2. simpl. split; [reflexivity|]. split; [exact H|].
      intros Hg. apply app_eq_nil in Hg as [_ Hg2]. auto.
  - match type of H with
    | match ?e with _ => _ end = _ => destruct e eqn:E
    end.
    + injection H as <-.
      apply IH1 in E as (x1 & s1 & cs1 & -> & E & G1).
      destruct (Nat.eqb _ pos); [discriminate|].
      exists x1, s1, cs1. auto.
    + exists [], s, cs. rewrite Nat.add_0_r. auto.
  - apply star_span in H as (xs & s' & -> & _ & H).
    exists xs, s', cs. auto.
  - apply IH1 in H as (x1 & s1 & cs1 & -> & H & _).
    eexists x1, s1, _. split; [reflexivity|]. split; [exact H|].
    simpl. discriminate.
Qed.

End Matcher.

(* ================================================================== *)
(** * Properties of the classifier *)
(* ================================================================== *)

Section Classifier.

Import CommandParser.

(** The loop returns what the first matching rule builds. *)
Lemma first_match_first (rules : list rule) (t : jsstring) :
  (exists i r mr,
      rules !! i = Some r /\ matches r t = Some mr
      /\ (forall j r', (j < i)%nat -> rules !! j = Some r' -> matches r' t = None)
      /\ first_match rules t = build r mr)
  \/ ((forall r, In r rules -> matches r t = None)
      /\ first_match rules t = Ret (unknown t)).
Proof.
  induction rules as [|r rules IH]; simpl.
  - right. split; [intros r []|reflexivity].
  - destruct (matches r t) as [mr|] eqn:E.
    + left. exists 0%nat, r, mr. repeat split; auto. intros j r' Hj. lia.
    + destruct IH as [(i & ri & mr & Hi & Hm & Hbefore & Hres)|[Hnone Hres]].
      * left. exists (S i), ri, mr. repeat split; auto.
        intros [|j] r' Hj Hr'; simpl in Hr'.
        -- injection Hr' as <-. exact E.
        -- eapply Hbefore; [|exact Hr']. lia.
      * right. split; [|exact Hres].
        intros r' [<-|Hin]; auto.
Qed.

Lemma matches_must (r : rule) (s : jsstring) (mr : matchres) (i : nat) :
  matches r s = Some mr ->
  In i (must (pattern r)) -> (i <= ngroups r)%nat ->
  exists t, group i mr = Some t.
Proof. unfold matches, exec. apply exec_from_must. Qed.

Ltac with_group H i :=
  let t := fresh "t" in
  let Ht := fresh "Ht" in
  destruct (matches_must _ _ _ i H) as [t Ht];
  [cbv; tauto | cbv; lia |];
  unfold grp_trim; rewrite Ht.

(** No rule that matched throws while it builds its command: the groups
    its extractor trims took part in the match. *)
Lemma build_returns :
  Forall (fun r => forall s mr, matches r s = Some mr ->
                   exists command, build r mr = Ret command) patterns.
Proof.
  unfold patterns.
  repeat (apply Forall_cons; split;
          [intros s mr H; unfold build; cbn [extract mk];
           unfold filePath_trim, path_trim, files_of, serverId_config,
             query_trim;
           cbn [CommandParser.bind];
           first [ eexists; reflexivity
                 | with_group H 1%nat; eexists; reflexivity
                 | with_group H 2%nat; eexists; reflexivity ]
          |]).
  constructor.
Qed.

(** The command of a rule carries the kind of the rule. *)
Lemma build_kind :
  Forall (fun r => forall mr command,
            build r mr = Ret command -> kind command = VStr (type r))
    patterns.
Proof.
  unfold patterns.
  repeat (apply Forall_cons; split;
          [intros mr command H; unfold build in H; cbn [extract mk] in H;
           unfold filePath_trim, path_trim, files_of, serverId_config,
             query_trim, grp_trim in H;
           cbn [CommandParser.bind] in H;
           try destruct (group 1 mr); try destruct (group 2 mr);
           try discriminate H;
           injection H as <-; reflexivity
          |]).
  constructor.
Qed.

Lemma rule_kinds : Forall (fun r => In (type r) kinds) patterns.
Proof.
  unfold patterns.
  repeat (apply Forall_cons; split; [cbv; tauto|]).
  constructor.
Qed.

Lemma lookup_In {A} (l : list A) (i : nat) (x : A) :
  l !! i = Some x -> In x l.
Proof.
  revert i; induction l as [|y l IH]; intros [|i] H; simpl in H;
    try discriminate.
  - injection H as ->. left; reflexivity.
  - right. eapply IH, H.
Qed.

Lemma category_of_kinds :
  Forall (fun ty => ty = lit "unknown"
                    \/ In (getCommandCategory ty) category_names) kinds.
Proof.
  unfold kinds.
  repeat (apply Forall_cons; split; [cbv; tauto|]).
  constructor.
Qed.

(** What [parse] returns, whichever way the loop ends. *)
Lemma parse_cases (input : jsstring) :
  (exists i r mr command,
      patterns !! i = Some r /\ matches r (trim input) = Some mr
      /\ (forall j r', (j < i)%nat -> patterns !! j = Some r' ->
                       matches r' (trim input) = None)
      /\ build r mr = Ret command
      /\ kind command = VStr (type r)
      /\ parse input = Ret command)
  \/ ((forall r, In r patterns -> matches r (trim input) = None)
      /\ parse input = Ret (unknown (trim input))).
Proof.
  unfold parse.
  destruct (first_match_first patterns (trim input))
    as [(i & r & mr & Hi & Hm & Hb & Hres)|[Hnone Hres]]; [left|right; auto].
  pose proof (lookup_In _ _ _ Hi) as Hin.
  destruct (proj1 (List.Forall_forall _ _) build_returns r Hin _ _ Hm)
    as [command Hc].
  exists i, r, mr, command. repeat split; auto.
  - exact (proj1 (List.Forall_forall _ _) build_kind r Hin _ _ Hc).
  - congruence.
Qed.

(** C1.  Declaration order is the tie-break of [parse]: whenever some
    rule matches the trimmed input, the command returned is the one
    built by the earliest rule that matches, and it carries that rule's
    kind; no rule declared later wins over it.  For the bare input
    [status] the rule that fires is the generic status rule of the
    version-control family (index 8 of the table), no rule before it
    matches, and the kind is [git_status]. *)
Theorem parse_first_match_wins :
  (forall input j rj mj,
      patterns !! j = Some rj ->
      matches rj (trim input) = Some mj ->
      exists i ri mi command,
        (i <= j)%nat
        /\ patterns !! i = Some ri
        /\ matches ri (trim input) = Some mi
        /\ (forall i' r', (i' < i)%nat -> patterns !! i' = Some r' ->
                          matches r' (trim input) = None)
        /\ parse input = Ret command
        /\ build ri mi = Ret command
        /\ kind command = VStr (type ri))
  /\ (exists r mr,
        patterns !! 8%nat = Some r
        /\ type r = lit "git_status"
        /\ matches r (lit "status") = Some mr
        /\ (forall i' r', (i' < 8)%nat -> patterns !! i' = Some r' ->
                          matches r' (lit "status") = None)
        /\ parse (lit "status")
           = Ret [(lit "type", VStr (lit "git_status"))]).
Proof.
  split.
  - intros input j rj mj Hj Hm.
    destruct (parse_cases input)
      as [(i & r & mr & command & Hi & Hmi & Hb & Hc & Hk & Hp)|[Hnone _]].
    + exists i, r, mr, command. repeat split; auto.
      destruct (le_lt_dec i j) as [Hle|Hlt]; [exact Hle|].
      rewrite (Hb j rj Hlt Hj) in Hm. discriminate.
    + rewrite (Hnone rj (lookup_In _ _ _ Hj)) in Hm. discriminate.
  - eexists _, _. split; [reflexivity|]. split; [reflexivity|].
    split; [vm_compute; reflexivity|]. split; [|vm_compute; reflexivity].
    intros i' r' Hlt Hr'.
    do 8 (destruct i' as [|i'];
          [injection Hr' as <-; vm_compute; reflexivity|]).
    lia.
Qed.

(** The input [show status] matches the file-reading rule (index 0) and
    the generic status rule (index 8); [parse] returns what the first
    builds. *)
Lemma parse_first_match_wins_witness :
  exists r8 m8,
    patterns !! 8%nat = Some r8
    /\ matches r8 (trim (lit "show status")) = Some m8
    /\ exists i ri mi command,
         (i <= 8)%nat
         /\ patterns !! i = Some ri
         /\ matches ri (trim (lit "show status")) = Some mi
         /\ (forall i' r', (i' < i)%nat -> patterns !! i' = Some r' ->
                           matches r' (trim (lit "show status")) = None)
         /\ parse (lit "show status") = Ret command
         /\ build ri mi = Ret command
         /\ kind command = VStr (type ri).
Proof.
  eexists _, _. split; [reflexivity|]. split; [vm_compute; reflexivity|].
  eapply (proj1 parse_first_match_wins (lit "show status") 8%nat).
  - reflexivity.
  - vm_compute; reflexivity.
Defined.

(** C2.  [parse] never throws: it returns a command for every input.
    When no rule matches the trimmed input, the command is of kind
    [unknown] and carries the trimmed input; so it is for the empty
    input and for an input of white space only, whose content is
    empty. *)
Theorem parse_total :
  (forall input, exists command, parse input = Ret command)
  /\ (forall input,
        (forall r, In r patterns -> matches r (trim input) = None) ->
        parse input = Ret (unknown (trim input)))
  /\ parse [] = Ret (unknown [])
  /\ (forall input,
        forallb isWhiteSpace input = true ->
        parse input = Ret (unknown [])).
Proof.
  assert (Hempty : parse [] = Ret (unknown [])) by (vm_compute; reflexivity).
  split; [|split; [|split]].
  - intros input.
    destruct (parse_cases input)
      as [(i & r & mr & command & _ & _ & _ & _ & _ & Hp)|[_ Hp]]; eauto.
  - intros input Hnone.
    destruct (parse_cases input)
      as [(i & r & mr & command & Hi & Hm & _)|[_ Hp]]; [|exact Hp].
    rewrite (Hnone r (lookup_In _ _ _ Hi)) in Hm. discriminate.
  - exact Hempty.
  - intros input Hws. unfold parse. rewrite (trim_spaces input Hws).
    exact Hempty.
Qed.

(** A line of three blanks, and a line no rule matches. *)
Lemma parse_total_witness :
  (forallb isWhiteSpace (lit "   ") = true
   /\ parse (lit "   ") = Ret (unknown []))
  /\ ((forall r, In r patterns -> matches r (trim (lit " hello ")) = None)
      /\ parse (lit " hello ") = Ret (unknown (trim (lit " hello ")))).
Proof.
  assert (Hnone : forall r, In r patterns ->
                            matches r (trim (lit " hello ")) = None).
  { apply List.Forall_forall. unfold patterns.
    repeat (apply Forall_cons; split; [vm_compute; reflexivity|]).
    constructor. }
  split.
  - split; [reflexivity|].
    apply (proj2 (proj2 (proj2 parse_total))). reflexivity.
  - split; [exact Hnone|].
    apply (proj1 (proj2 parse_total)). exact Hnone.
Defined.

(** C8.  Scenario B: the quoted message of [git commit] is returned
    without its quotes, by the first [git_commit] rule (index 15), which
    no earlier rule beats. *)
Theorem parse_git_commit :
  parse (lit "git commit " ++ [34] ++ lit "fix bug" ++ [34])
  = Ret [(lit "type", VStr (lit "git_commit"));
         (lit "message", VStr (lit "fix bug"))]
  /\ exists r mr,
       patterns !! 15%nat = Some r
       /\ type r = lit "git_commit"
       /\ matches r (lit "git commit " ++ [34] ++ lit "fix bug" ++ [34])
          = Some mr
       /\ group 1 mr = Some (lit "fix bug")
       /\ Forall (fun r' =>
                    matches r' (lit "git commit " ++ [34] ++ lit "fix bug" ++ [34])
                    = None)
            (take 15 patterns).
Proof.
  split; [vm_compute; reflexivity|].
  eexists _, _. split; [reflexivity|]. split; [reflexivity|].
  split; [vm_compute; reflexivity|]. split; [reflexivity|].
  unfold patterns.
  cbn [take firstn].
  repeat (apply Forall_cons; split; [vm_compute; reflexivity|]).
  constructor.
Qed.

(** C9.  The kinds of [parse] form a closed set: [parse] returns a
    command whose kind is one of the twenty-one kinds of the rule table
    or [unknown], and every one of them but [unknown] is put by
    [getCommandCategory] in one of its five named categories. *)
Theorem parse_kind_closed (input : jsstring) :
  exists command ty,
    parse input = Ret command
    /\ kind command = VStr ty
    /\ In ty kinds
    /\ (ty = lit "unknown" \/ In (getCommandCategory ty) category_names).
Proof.
  assert (Hcat := proj1 (List.Forall_forall _ _) category_of_kinds).
  destruct (parse_cases input)
    as [(i & r & mr & command & Hi & _ & _ & _ & Hk & Hp)|[_ Hp]].
  - exists command, (type r).
    pose proof (proj1 (List.Forall_forall _ _) rule_kinds r
                  (lookup_In _ _ _ Hi)) as Hin.
    repeat split; auto.
  - exists (unknown (trim input)), (lit "unknown").
    repeat split; auto.
    cbv; tauto.
Qed.

End Classifier.

(* ================================================================== *)
(** * The limit of [git log] *)
(* ================================================================== *)

Section GitLog.

Import CommandParser.

Local Arguments isWhiteSpace : simpl never.
Local Arguments isDigit : simpl never.

Lemma digitValue_digit (c : N) :
  isDigit c = true -> digitValue 10 c = Some (Z.of_N c - 48)%Z.
Proof.
  intros H. unfold digitValue. rewrite H.
  apply isDigit_cases in H. simpl in H.
  repeat destruct H as [<- | H]; try reflexivity. destruct H.
Qed.

Lemma digits_decimal (s : jsstring) :
  forall acc,
    forallb isDigit s = true ->
    digits 10 (Some acc) s
    = Some (fold_left (fun acc d => acc * 10 + (Z.of_N d - 48))%Z s acc).
Proof.
  induction s as [|c s IH]; intros acc H; simpl in *; [reflexivity|].
  apply andb_true_iff in H as [Hc Hs].
  rewrite (digitValue_digit c Hc). simpl. apply IH, Hs.
Qed.

(** [parseInt] reads a string of digits in base ten. *)
Lemma parseInt_digits (n : jsstring) :
  n <> [] -> forallb isDigit n = true ->
  parseInt n = to_double (decimal n).
Proof.
  destruct n as [|d ds]; [congruence|]. intros _ H.
  simpl in H. apply andb_true_iff in H as [Hd Hds].
  unfold parseInt. rewrite (trimStart_head d ds (digit_not_space d Hd)).
  assert (H45 : (d =? 45) = false /\ (d =? 43) = false).
  { apply isDigit_cases in Hd. simpl in Hd.
    repeat destruct Hd as [<- | Hd]; try (split; reflexivity). destruct Hd. }
  destruct H45 as [-> ->].
  assert (Hradix :
    match ds with
    | x :: s' =>
        if (d =? 48) && ((x =? 120) || (x =? 88)) then (16%Z, s')
        else (10%Z, d :: ds)
    | [] => (10%Z, d :: ds)
    end = (10%Z, d :: ds)).
  { destruct ds as [|x s']; [reflexivity|].
    simpl in Hds. apply andb_true_iff in Hds as [Hx _].
    apply isDigit_cases in Hx. simpl in Hx.
    repeat destruct Hx as [<- | Hx];
      try (simpl; rewrite andb_false_r; reflexivity).
    destruct Hx. }
  rewrite Hradix.
  simpl digits. rewrite (digitValue_digit d Hd). simpl default.
  rewrite digits_decimal by exact Hds.
  unfold decimal. simpl fold_left.
  destruct (to_double _); reflexivity.
Qed.

Lemma to_double_exact (z : Z) : (z < 2 ^ 53)%Z -> to_double z = Fin z.
Proof.
  intros H. unfold to_double.
  destruct (Z.ltb_spec z (2 ^ 53)); [reflexivity|lia].
Qed.

Lemma matches_bol_none (r : rule) (t : jsstring) (r' : regex) :
  pattern r = RSeq RBol r' ->
  m (ignoreCase r) r' 0 t (replicate (S (ngroups r)) None) finish = None ->
  matches r t = None.
Proof.
  intros Hp Hm. unfold matches. rewrite Hp, exec_bol.
  unfold finish in Hm. rewrite Hm. reflexivity.
Qed.

Lemma matches_bol_some (r : rule) (t : jsstring) (r' : regex) e cs :
  pattern r = RSeq RBol r' ->
  m (ignoreCase r) r' 0 t (replicate (S (ngroups r)) None) finish
  = Some (e, cs) ->
  matches r t
  = Some {| index := 0; input := t;
            groups := <[0%nat := Some (take (e - 0) t)]> cs |}.
Proof.
  intros Hp Hm. unfold matches. rewrite Hp, exec_bol.
  unfold finish in Hm. rewrite Hm. reflexivity.
Qed.

Lemma first_match_skip (r : rule) (rules : list rule) (t : jsstring) :
  matches r t = None -> first_match (r :: rules) t = first_match rules t.
Proof. intros H. simpl. rewrite H. reflexivity. Qed.

Lemma first_match_hit (r : rule) (rules : list rule) (t : jsstring) mr :
  matches r t = Some mr -> first_match (r :: rules) t = build r mr.
Proof. intros H. simpl. rewrite H. reflexivity. Qed.

(** A rule of [limit_of] whose group 1 took part. *)
Lemma build_limit (r : rule) (mr : matchres) (d : N) (ds : jsstring) :
  extract r = limit_of ->
  group 1 mr = Some (d :: ds) ->
  build r mr
  = Ret [(lit "type", VStr (type r));
         (lit "limit", VNum (parseInt (d :: ds)))].
Proof.
  intros He Hg. unfold build. rewrite He. unfold limit_of, grp.
  rewrite Hg. reflexivity.
Qed.

Ltac closed_tests :=
  repeat match goal with
  | |- context [isWhiteSpace ?v] =>
      let b := eval vm_compute in (isWhiteSpace v) in
      match b with
      | true => change (isWhiteSpace v) with true
      | false => change (isWhiteSpace v) with false
      end
  | |- context [isDigit ?v] =>
      let b := eval vm_compute in (isDigit v) in
      match b with
      | true => change (isDigit v) with true
      | false => change (isDigit v) with false
      end
  end.

(** Runs a pattern on a known phrase followed by digits: the phrase is
    consumed by computation, the digits by [star_greedy_all]. *)
Ltac run_on_digits Hd Hds :=
  match goal with
  | |- m _ ?r _ (?p ++ _) _ _ = _ =>
      let r' := eval vm_compute in r in
      let p' := eval vm_compute in p in
      change r with r'; change p with p'
  end;
  simpl; closed_tests; simpl; closed_tests; simpl;
  rewrite ?(digit_not_space _ Hd), ?Hd;
  erewrite star_greedy_all; [reflexivity | exact Hds |];
  simpl; rewrite firstn_all; reflexivity.

Lemma git_log_digits (d : N) (ds : jsstring) :
  isDigit d = true -> forallb isDigit ds = true ->
  m true
    (cat [str "git"; sp; str "log"; opt [sp; RGroup 1 (plus CDigit)]; REol])
    0 (lit "git log " ++ d :: ds) (replicate 2 None) finish
  = Some ((9 + length ds)%nat, [None; Some (d :: ds)]).
Proof. intros Hd Hds. run_on_digits Hd Hds. Qed.

Lemma log_digits (d : N) (ds : jsstring) :
  isDigit d = true -> forallb isDigit ds = true ->
  m true
    (cat [opt [str "show"; sp]; opt [str "git"; sp];
          alt (str "history") [str "log"];
          opt [sp; RGroup 1 (plus CDigit)]; REol])
    0 (lit "log " ++ d :: ds) (replicate 2 None) finish
  = Some ((5 + length ds)%nat, [None; Some (d :: ds)]).
Proof. intros Hd Hds. run_on_digits Hd Hds. Qed.

Lemma history_digits (d : N) (ds : jsstring) :
  isDigit d = true -> forallb isDigit ds = true ->
  m true
    (cat [opt [str "show"; sp]; opt [str "git"; sp];
          alt (str "history") [str "log"];
          opt [sp; RGroup 1 (plus CDigit)]; REol])
    0 (lit "history " ++ d :: ds) (replicate 2 None) finish
  = Some ((9 + length ds)%nat, [None; Some (d :: ds)]).
Proof. intros Hd Hds. run_on_digits Hd Hds. Qed.

Lemma trim_phrase_digits (c : N) (p n : jsstring) :
  isWhiteSpace c = false -> n <> [] -> forallb isDigit n = true ->
  trim ((c :: p) ++ n) = (c :: p) ++ n.
Proof.
  intros Hc Hn Hd.
  destruct (exists_last Hn) as (n' & l & ->).
  rewrite forallb_app in Hd. apply andb_true_iff in Hd as [_ Hl].
  simpl in Hl. rewrite andb_true_r in Hl.
  replace ((c :: p) ++ n' ++ [l]) with (c :: (p ++ n') ++ [l])
    by (simpl; rewrite app_assoc; reflexivity).
  apply trim_tight; [exact Hc|]. apply digit_not_space, Hl.
Qed.

Ltac skip_rules :=
  repeat (rewrite first_match_skip
            by (eapply matches_bol_none; [reflexivity|vm_compute; reflexivity])).

Lemma parse_git_log_digits (n : jsstring) :
  n <> [] -> forallb isDigit n = true ->
  parse (lit "git log " ++ n) = Ret (git_log_command (parseInt n)).
Proof.
  intros Hn Hall. unfold parse.
  change (lit "git log " ++ n) with ((103 :: lit "it log ") ++ n).
  rewrite (trim_phrase_digits 103 (lit "it log ") n eq_refl Hn Hall).
  destruct n as [|d ds]; [congruence|].
  simpl in Hall. apply andb_true_iff in Hall as [Hd Hds].
  unfold patterns. skip_rules.
  erewrite first_match_hit
    by (eapply matches_bol_some; [reflexivity|apply git_log_digits; assumption]).
  apply build_limit; reflexivity.
Qed.

Lemma parse_log_digits (n : jsstring) :
  n <> [] -> forallb isDigit n = true ->
  parse (lit "log " ++ n) = Ret (git_log_command (parseInt n)).
Proof.
  intros Hn Hall. unfold parse.
  change (lit "log " ++ n) with ((108 :: lit "og ") ++ n).
  rewrite (trim_phrase_digits 108 (lit "og ") n eq_refl Hn Hall).
  destruct n as [|d ds]; [congruence|].
  simpl in Hall. apply andb_true_iff in Hall as [Hd Hds].
  unfold patterns. skip_rules.
  erewrite first_match_hit
    by (eapply matches_bol_some; [reflexivity|apply log_digits; assumption]).
  apply build_limit; reflexivity.
Qed.

Lemma parse_history_digits (n : jsstring) :
  n <> [] -> forallb isDigit n = true ->
  parse (lit "history " ++ n) = Ret (git_log_command (parseInt n)).
Proof.
  intros Hn Hall. unfold parse.
  change (lit "history " ++ n) with ((104 :: lit "istory ") ++ n).
  rewrite (trim_phrase_digits 104 (lit "istory ") n eq_refl Hn Hall).
  destruct n as [|d ds]; [congruence|].
  simpl in Hall. apply andb_true_iff in Hall as [Hd Hds].
  unfold patterns. skip_rules.
  erewrite first_match_hit
    by (eapply matches_bol_some; [reflexivity|apply history_digits; assumption]).
  apply build_limit; reflexivity.
Qed.

(** The end of the two [git_log] patterns: nothing more, or blanks and
    then digits up to the end of the input, which are group 1. *)
Lemma limit_tail ic (p : nat) (s1 : jsstring) e cs :
  m ic (cat [opt [sp; RGroup 1 (plus CDigit)]; REol]) p s1 [None; None] finish
  = Some (e, cs) ->
  (s1 = [] /\ cs = [None; None])
  \/ exists c ws n,
       s1 = (c :: ws) ++ n /\ forallb isWhiteSpace (c :: ws) = true
       /\ n <> [] /\ forallb isDigit n = true
       /\ cs = [None; Some n].
Proof.
  intros H. simpl in H.
  destruct s1 as [|c s1].
  { injection H as <- <-. left. auto. }
  right.
  destruct (isWhiteSpace c) eqn:Hc; [|discriminate].
  match type of H with
  | match ?e with _ => _ end = _ => destruct e as [res|] eqn:E
  end; [|discriminate].
  injection H as ->.
  apply star_span in E as (ws & s2 & -> & Hws & E).
  destruct s2 as [|d s2]; [discriminate|].
  destruct (isDigit d) eqn:Hd; [|discriminate].
  apply star_span in E as (ds & s3 & -> & Hds & E).
  destruct (Nat.eqb _ p); [discriminate|].
  destruct s3; [|discriminate].
  unfold finish in E. injection E as <- <-.
  exists c, ws, (d :: ds).
  rewrite app_nil_r.
  split; [reflexivity|]. split; [simpl; rewrite Hc; exact Hws|].
  split; [discriminate|].
  split; [simpl; rewrite Hd; exact Hds|].
  simpl. do 3 f_equal.
  replace (S (p + length ws + length ds) - (p + length ws))%nat
    with (length (d :: ds)) by (simpl; lia).
  apply firstn_all.
Qed.

Lemma matches_bol_inv (r : rule) (t : jsstring) (r' : regex) mr :
  pattern r = RSeq RBol r' ->
  matches r t = Some mr ->
  exists e cs,
    m (ignoreCase r) r' 0 t (replicate (S (ngroups r)) None) finish
    = Some (e, cs)
    /\ mr = {| index := 0; input := t;
               groups := <[0%nat := Some (take (e - 0) t)]> cs |}.
Proof.
  intros Hp. unfold matches. rewrite Hp, exec_bol. fold finish.
  destruct (m _ r' 0 t _ finish) as [[e cs]|]; [|discriminate].
  intros [= <-]. eauto.
Qed.

(** A pattern that is a prefix without groups followed by the end of
    the [git_log] patterns. *)
Lemma limit_shape ic (A : regex) (t : jsstring) e cs :
  groups_of A = [] ->
  m ic A 0 t [None; None]
    (fun pos' s' cs' =>
       m ic (cat [opt [sp; RGroup 1 (plus CDigit)]; REol]) pos' s' cs' finish)
  = Some (e, cs) ->
  cs = [None; None]
  \/ exists pre c n,
       t = pre ++ c :: n /\ isWhiteSpace c = true
       /\ n <> [] /\ forallb isDigit n = true
       /\ cs = [None; Some n].
Proof.
  intros HA H.
  apply m_span in H as (xs & s1 & cs1 & -> & H & Hcs).
  rewrite (Hcs HA) in H.
  apply limit_tail in H as [[_ ->]|(c & ws & n & -> & Hws & Hn & Hd & ->)];
    [left; reflexivity|right].
  destruct (exists_last (l := c :: ws) ltac:(discriminate))
    as (ws' & c' & Hlast).
  rewrite Hlast in *.
  rewrite forallb_app in Hws. apply andb_true_iff in Hws as [_ Hc'].
  simpl in Hc'. rewrite andb_true_r in Hc'.
  exists (xs ++ ws'), c', n.
  split; [|auto].
  rewrite <- !app_assoc. reflexivity.
Qed.

(** The two rules of kind [git_log]. *)
Lemma git_log_rule_shape (r : rule) :
  In r patterns -> type r = lit "git_log" ->
  exists A,
    groups_of A = [] /\ extract r = limit_of
    /\ forall t mr,
         matches r t = Some mr ->
         exists e cs,
           m true A 0 t [None; None]
             (fun pos' s' cs' =>
                m true (cat [opt [sp; RGroup 1 (plus CDigit)]; REol])
                  pos' s' cs' finish)
           = Some (e, cs)
           /\ mr = {| index := 0; input := t;
                      groups := <[0%nat := Some (take (e - 0) t)]> cs |}.
Proof.
  intros Hin Ht. unfold patterns in Hin.
  repeat (destruct Hin as [<-|Hin];
          [try (vm_compute in Ht; discriminate Ht)|]);
    [| |destruct Hin].
  - exists (cat [str "git"; sp; str "log"]).
    split; [reflexivity|]. split; [reflexivity|].
    intros t mr Hm.
    match type of Hm with
    | matches ?r0 _ = _ =>
        destruct (matches_bol_inv r0 t
                    (cat [str "git"; sp; str "log";
                          opt [sp; RGroup 1 (plus CDigit)]; REol])
                    mr eq_refl Hm) as (e & cs & Hrun & ->)
    end.
    exists e, cs. split; [exact Hrun|reflexivity].
  - exists (cat [opt [str "show"; sp]; opt [str "git"; sp];
                 alt (str "history") [str "log"]]).
    split; [reflexivity|]. split; [reflexivity|].
    intros t mr Hm.
    match type of Hm with
    | matches ?r0 _ = _ =>
        destruct (matches_bol_inv r0 t
                    (cat [opt [str "show"; sp]; opt [str "git"; sp];
                          alt (str "history") [str "log"];
                          opt [sp; RGroup 1 (plus CDigit)]; REol])
                    mr eq_refl Hm) as (e & cs & Hrun & ->)
    end.
    exists e, cs. split; [exact Hrun|reflexivity].
Qed.

(** Whatever the phrasing, a command of kind [git_log] has limit 10
    when no number was given and [parseInt n] when the input ends with a
    blank and the digits [n]. *)
Lemma git_log_limit_of_any (input : jsstring) (command : jsobj) :
  parse input = Ret command ->
  kind command = VStr (lit "git_log") ->
  command = git_log_command (Fin 10)
  \/ exists pre c n,
       trim input = pre ++ c :: n /\ isWhiteSpace c = true
       /\ n <> [] /\ forallb isDigit n = true
       /\ command = git_log_command (parseInt n).
Proof.
  intros Hp Hk.
  destruct (parse_cases input)
    as [(i & r & mr & command' & Hi & Hm & _ & Hb & Hk' & Hp')|[_ Hp']];
    rewrite Hp in Hp'; [injection Hp' as <-|injection Hp' as ->; discriminate Hk].
  rewrite Hk in Hk'. injection Hk' as Ht. symmetry in Ht.
  destruct (git_log_rule_shape r (lookup_In _ _ _ Hi) Ht)
    as (A & HA & He & Hshape).
  destruct (Hshape _ _ Hm) as (e & cs & Hrun & ->).
  unfold build in Hb. rewrite He in Hb. unfold limit_of, grp in Hb.
  apply (limit_shape true A _ e cs HA) in Hrun
    as [->|(pre & c & n & Htrim & Hc & Hn & Hd & ->)].
  - left. simpl in Hb. injection Hb as <-. rewrite Ht. reflexivity.
  - right. exists pre, c, n.
    repeat (split; [assumption|]).
    destruct n as [|d ds]; [congruence|].
    simpl in Hb. injection Hb as <-. rewrite Ht. reflexivity.
Qed.

(** C10.  The default limit of [git log]: without a numeric argument
    ([git log], [log], [history]) [parse] returns kind [git_log] with
    limit 10; with a numeric argument [n] the limit is [parseInt n], the
    value of [n] read in base ten (as a Number: exactly that integer
    below [2^53], the nearest double above).  And whatever the phrasing,
    a command of kind [git_log] has limit 10, or the input ends with a
    blank and digits [n] and the limit is [parseInt n]. *)
Theorem parse_git_log_limit :
  (parse (lit "git log") = Ret (git_log_command (Fin 10))
   /\ parse (lit "log") = Ret (git_log_command (Fin 10))
   /\ parse (lit "history") = Ret (git_log_command (Fin 10)))
  /\ (forall n,
       n <> [] -> forallb isDigit n = true ->
       parse (lit "git log " ++ n) = Ret (git_log_command (parseInt n))
       /\ parse (lit "log " ++ n) = Ret (git_log_command (parseInt n))
       /\ parse (lit "history " ++ n) = Ret (git_log_command (parseInt n))
       /\ parseInt n = to_double (decimal n)
       /\ ((decimal n < 2 ^ 53)%Z -> parseInt n = Fin (decimal n)))
  /\ (forall input command,
        parse input = Ret command ->
        kind command = VStr (lit "git_log") ->
        command = git_log_command (Fin 10)
        \/ exists pre c n,
             trim input = pre ++ c :: n /\ isWhiteSpace c = true
             /\ n <> [] /\ forallb isDigit n = true
             /\ command = git_log_command (parseInt n)).
Proof.
  split; [repeat split; vm_compute; reflexivity|].
  split; [|exact git_log_limit_of_any].
  intros n Hn Hall.
  split; [apply parse_git_log_digits; assumption|].
  split; [apply parse_log_digits; assumption|].
  split; [apply parse_history_digits; assumption|].
  split; [apply parseInt_digits; assumption|].
  intros Hlt. rewrite parseInt_digits by assumption.
  apply to_double_exact, Hlt.
Qed.

(** [git log 25]. *)
Lemma parse_git_log_limit_witness :
  lit "25" <> [] /\ forallb isDigit (lit "25") = true
  /\ (decimal (lit "25") < 2 ^ 53)%Z
  /\ parse (lit "git log " ++ lit "25") = Ret (git_log_command (Fin 25))
  /\ parse (lit "history " ++ lit "25") = Ret (git_log_command (Fin 25)).
Proof.
  assert (Hn : lit "25" <> []) by discriminate.
  assert (Hd : forallb isDigit (lit "25") = true) by reflexivity.
  assert (Hlt : (decimal (lit "25") < 2 ^ 53)%Z) by reflexivity.
  destruct (proj1 (proj2 parse_git_log_limit) (lit "25") Hn Hd)
    as (H1 & _ & H3 & _ & H5).
  rewrite (H5 Hlt) in H1, H3.
  repeat split; assumption.
Defined.

End GitLog.

(* ================================================================== *)
(** * Properties of the session store *)
(* ================================================================== *)

Section Store.

Import SessionManager.

(** What [JSON.parse] produces is unchanged by a round trip. *)
Lemma json_id : forall v, is_json v = true -> json v = v.
Proof.
  fix IH 1. intros [ | |b|n|s|l|o] H; simpl in *; try reflexivity.
  - discriminate.
  - destruct n; try discriminate; reflexivity.
  - f_equal. induction l as [|x l IHl]; simpl in *; [reflexivity|].
    apply andb_true_iff in H as [Hx Hl].
    rewrite (IH x Hx), (IHl Hl). reflexivity.
  - f_equal. induction o as [|[k x] o IHo]; simpl in *; [reflexivity|].
    apply andb_true_iff in H as [Hx Ho].
    rewrite (IHo Ho), (IH x Hx).
    destruct x; try reflexivity. discriminate.
Qed.

Lemma json_is_json : forall v, is_json (json v) = true.
Proof.
  fix IH 1. intros [ | |b|n|s|l|o]; simpl; try reflexivity.
  - destruct n; reflexivity.
  - induction l as [|x l IHl]; simpl; [reflexivity|].
    rewrite (IH x), IHl. reflexivity.
  - induction o as [|[k x] o IHo]; simpl; [reflexivity|].
    pose proof (IH x) as Hx.
    destruct x as [ | |b|n|s|l|o']; simpl in *; rewrite ?IHo, ?Hx;
      try reflexivity.
Qed.

(** ** Objects *)

Lemma str_eqb_sym (a b : jsstring) : Str.eqb a b = Str.eqb b a.
Proof.
  destruct (Str.eqb a b) eqn:E; symmetry.
  - apply eqb_eq in E as ->. apply eqb_refl.
  - apply eqb_neq. apply eqb_neq in E. congruence.
Qed.

Lemma get_replace_eq (k : jsstring) (v : jsval) (o : jsobj) :
  has k o = true -> get k (replace k v o) = v.
Proof.
  induction o as [|[k' v'] o IH]; simpl; [discriminate|].
  destruct (Str.eqb k' k) eqn:E; simpl; rewrite E; auto.
Qed.

Lemma get_replace_ne (k k' : jsstring) (v : jsval) (o : jsobj) :
  k' <> k -> get k' (replace k v o) = get k' o.
Proof.
  intros Hne. induction o as [|[k0 v0] o IH]; simpl; [reflexivity|].
  destruct (Str.eqb k0 k) eqn:E; simpl.
  - apply eqb_eq in E as ->.
    destruct (Str.eqb k k') eqn:E'; [|reflexivity].
    apply eqb_eq in E'. congruence.
  - rewrite IH. reflexivity.
Qed.

Lemma get_absent (k : jsstring) (o : jsobj) :
  has k o = false -> get k o = VUndefined.
Proof.
  induction o as [|[k' v'] o IH]; simpl; [reflexivity|].
  destruct (Str.eqb k' k); simpl; [discriminate|exact IH].
Qed.

Lemma get_insert_index (n : N) (k k' : jsstring) (v : jsval) (o : jsobj) :
  has k o = false ->
  get k' (insert_index n k v o) = if Str.eqb k k' then v else get k' o.
Proof.
  induction o as [|[k0 v0] o IH]; simpl; [reflexivity|].
  destruct (Str.eqb k0 k) eqn:E0; simpl; [discriminate|]. intros Hno.
  destruct (is_index k0) as [n0|]; [destruct (n0 <? n)|]; simpl;
    try reflexivity.
  rewrite (IH Hno).
  destruct (Str.eqb k0 k') eqn:E1; [|reflexivity].
  apply eqb_eq in E1 as ->. rewrite str_eqb_sym, E0. reflexivity.
Qed.

Lemma get_app_absent (k k' : jsstring) (v : jsval) (o : jsobj) :
  has k o = false ->
  get k' (o ++ [(k, v)]) = if Str.eqb k k' then v else get k' o.
Proof.
  induction o as [|[k0 v0] o IH]; simpl; [reflexivity|].
  destruct (Str.eqb k0 k) eqn:E0; simpl; [discriminate|]. intros Hno.
  rewrite (IH Hno).
  destruct (Str.eqb k0 k') eqn:E1; [|reflexivity].
  apply eqb_eq in E1 as ->. rewrite str_eqb_sym, E0. reflexivity.
Qed.

(** Reading after writing. *)
Lemma get_set (k k' : jsstring) (v : jsval) (o : jsobj) :
  get k' (set k v o) = if Str.eqb k k' then v else get k' o.
Proof.
  unfold set. destruct (has k o) eqn:Hhas.
  - destruct (Str.eqb k k') eqn:E.
    + apply eqb_eq in E as <-. apply get_replace_eq, Hhas.
    + apply get_replace_ne. apply eqb_neq in E. congruence.
  - destruct (is_index k).
    + apply get_insert_index, Hhas.
    + apply get_app_absent, Hhas.
Qed.

Lemma get_present (k : jsstring) (o : jsobj) :
  get k o <> VUndefined -> has k o = true.
Proof.
  intros H. destruct (has k o) eqn:E; [reflexivity|].
  elim H. apply get_absent, E.
Qed.

Lemma is_json_get (k : jsstring) (o : jsobj) :
  is_json (VObj o) = true -> has k o = true -> is_json (get k o) = true.
Proof.
  induction o as [|[k' v'] o IH]; simpl; [discriminate|].
  intros H. apply andb_true_iff in H as [Hv Ho].
  destruct (Str.eqb k' k); simpl; auto.
Qed.

Lemma is_json_replace (k : jsstring) (v : jsval) (o : jsobj) :
  is_json (VObj o) = true -> is_json v = true ->
  is_json (VObj (replace k v o)) = true.
Proof.
  intros Ho Hv. induction o as [|[k' v'] o IH]; simpl in *; [reflexivity|].
  apply andb_true_iff in Ho as [Hv' Ho].
  destruct (Str.eqb k' k); simpl; rewrite ?Hv, ?Hv', ?Ho; auto.
Qed.

Lemma is_json_obj (o : jsobj) :
  is_json (VObj o) = forallb (fun kv => is_json (snd kv)) o.
Proof.
  induction o as [|[k v] o IH]; [reflexivity|].
  simpl in *. rewrite IH. reflexivity.
Qed.

Lemma is_json_insert_index (n : N) (k : jsstring) (v : jsval) (o : jsobj) :
  is_json (VObj o) = true -> is_json v = true ->
  is_json (VObj (insert_index n k v o)) = true.
Proof.
  rewrite !is_json_obj. intros Ho Hv.
  induction o as [|[k' v'] o IH]; simpl in *; [rewrite Hv; reflexivity|].
  apply andb_true_iff in Ho as [Hv' Ho].
  destruct (is_index k') as [n'|]; [destruct (n' <? n)|]; simpl;
    rewrite ?Hv, ?Hv', ?Ho, ?IH; auto.
Qed.

Lemma is_json_set (k : jsstring) (v : jsval) (o : jsobj) :
  is_json (VObj o) = true -> is_json v = true ->
  is_json (VObj (set k v o)) = true.
Proof.
  intros Ho Hv. unfold set. destruct (has k o).
  - apply is_json_replace; assumption.
  - destruct (is_index k).
    + apply is_json_insert_index; assumption.
    + rewrite is_json_obj in *. rewrite forallb_app, Ho. simpl.
      rewrite Hv. reflexivity.
Qed.

Lemma is_json_assign (src o : jsobj) :
  is_json (VObj o) = true -> is_json (VObj src) = true ->
  is_json (VObj (assign o src)) = true.
Proof.
  unfold assign. revert o.
  induction src as [|[k v] src IH]; intros o Ho Hs; simpl; [exact Ho|].
  rewrite is_json_obj in Hs. simpl in Hs.
  apply andb_true_iff in Hs as [Hv Hs].
  apply IH; [apply is_json_set; assumption|].
  rewrite is_json_obj. exact Hs.
Qed.

(** A round trip of a stored record with a new array in place of one of
    its properties. *)
Lemma json_replace (k : jsstring) (l : list jsval) (o : jsobj) :
  is_json (VObj o) = true ->
  json (VObj (replace k (VArr l) o)) = VObj (replace k (VArr (List.map json l)) o).
Proof.
  intros Ho. induction o as [|[k' v'] o IH]; [reflexivity|].
  simpl in Ho. apply andb_true_iff in Ho as [Hv' Ho].
  specialize (IH Ho). injection IH as IH.
  simpl replace. destruct (Str.eqb k' k).
  - pose proof (json_id (VObj o) Ho) as Hid. injection Hid as Hid.
    simpl. rewrite Hid. reflexivity.
  - pose proof (json_id v' Hv') as Hid'.
    simpl. simpl in IH. rewrite IH, Hid'.
    destruct v'; try reflexivity. discriminate.
Qed.

Lemma map_json_id (l : list jsval) :
  is_json (VArr l) = true -> List.map json l = l.
Proof. intros H. apply json_id in H. injection H as H. exact H. Qed.

(** ** The store *)

Lemma recorded_history_json w sid session h :
  recorded w sid session h -> is_json (VArr h) = true.
Proof.
  intros R. rewrite <- (rec_history _ _ _ _ R).
  apply is_json_get; [apply (rec_json _ _ _ _ R)|].
  apply get_present. rewrite (rec_history _ _ _ _ R). discriminate.
Qed.

Lemma loadSession_recorded w sid session h :
  recorded w sid session h ->
  loadSession (VStr sid) w = (Ret (VObj session), w).
Proof.
  intros R. unfold loadSession, try_catch, Run.bind, readFile. simpl.
  rewrite (rec_file _ _ _ _ R). reflexivity.
Qed.

Lemma addToHistory_recorded w sid session h entry :
  recorded w sid session h ->
  addToHistory (VStr sid) entry w = (Ret tt, appended w sid session h entry).
Proof.
  intros R.
  assert (Hhas : has (lit "history") session = true).
  { apply get_present. rewrite (rec_history _ _ _ _ R). discriminate. }
  unfold appended, pushed, addToHistory, Run.bind at 1.
  rewrite (loadSession_recorded _ _ _ _ R).
  cbn [truthy]. unfold history_of.
  cbn [prop lift Run.bind Run.ret Run.throw].
  rewrite (rec_history _ _ _ _ R).
  cbn [Run.ret Run.now].
  unfold saveSession, with_history, set. rewrite Hhas.
  cbn [prop lift]. unfold Run.bind, Run.now, Run.ret. cbv beta iota.
  rewrite get_replace_ne by discriminate.
  rewrite (rec_id _ _ _ _ R).
  cbn [toString]. unfold try_catch, writeFile.
  cbn [writable]. rewrite (rec_writable _ _ _ _ R).
  unfold JSON_stringify. rewrite (json_replace _ _ _ (rec_json _ _ _ _ R)).
  rewrite map_app, (map_json_id h (recorded_history_json _ _ _ _ R)).
  reflexivity.
Qed.

Lemma appended_recorded w sid session h entry :
  recorded w sid session h ->
  recorded (appended w sid session h entry) sid
    (pushed session h (json (VObj (stamp entry (dates w (ticks w))))))
    (h ++ [json (VObj (stamp entry (dates w (ticks w))))]).
Proof.
  intros R.
  assert (Hhas : has (lit "history") session = true).
  { apply get_present. rewrite (rec_history _ _ _ _ R). discriminate. }
  split; simpl.
  - apply lookup_insert_eq.
  - change (is_json (VObj (pushed session h
              (json (VObj (stamp entry (dates w (ticks w))))))) = true).
    apply is_json_replace; [apply (rec_json _ _ _ _ R)|].
    pose proof (recorded_history_json _ _ _ _ R) as Hh. simpl in Hh.
    change (forallb is_json
              (h ++ [json (VObj (stamp entry (dates w (ticks w))))]) = true).
    rewrite forallb_app, Hh. cbn [forallb andb].
    rewrite json_is_json. reflexivity.
  - unfold pushed. rewrite get_replace_ne by discriminate.
    apply (rec_id _ _ _ _ R).
  - unfold pushed. apply get_replace_eq, Hhas.
  - apply (rec_writable _ _ _ _ R).
Qed.

Lemma getHistory_recorded w sid session h :
  recorded w sid session h ->
  getHistory (VStr sid) w = (Ret (VArr h), w).
Proof.
  intros R. unfold getHistory, Run.bind.
  rewrite (loadSession_recorded _ _ _ _ R). simpl.
  rewrite (rec_history _ _ _ _ R). reflexivity.
Qed.

(** C5.  Round trip of the store: when the record of a session exists,
    appending [e] and reading the history back gives the prior history,
    unchanged, followed by one new last element: [{ ...e, timestamp }]
    as it comes back from the file, where the timestamp is the date
    taken at the append.  That element is [e] with the one field
    [timestamp] set: for an entry made of JSON values it is exactly
    [{ ...e, timestamp }], and every other field reads as in [e]. *)
Theorem append_then_read w sid session h entry :
  recorded w sid session h ->
  let t := dates w (ticks w) in
  let last := json (VObj (stamp entry t)) in
  exists w',
    addToHistory (VStr sid) entry w = (Ret tt, w')
    /\ getHistory (VStr sid) w' = (Ret (VArr (h ++ [last])), w')
    /\ ticks w' = S (ticks w)
    /\ (is_json (VObj entry) = true -> last = VObj (stamp entry t))
    /\ get (lit "timestamp") (stamp entry t) = VStr t
    /\ (forall k, k <> lit "timestamp" ->
                  get k (stamp entry t) = get k (assign [] entry)).
Proof.
  intros R t last.
  exists (appended w sid session h entry).
  split; [apply addToHistory_recorded, R|].
  split; [apply (getHistory_recorded _ _ _ _ (appended_recorded _ _ _ _ entry R))|].
  split; [reflexivity|].
  assert (Hget : forall k,
            get k (stamp entry t)
            = if Str.eqb (lit "timestamp") k then VStr t
              else get k (assign [] entry)).
  { intros k. unfold stamp. simpl. apply get_set. }
  split; [|split].
  - intros He. apply json_id. unfold stamp.
    apply is_json_assign; [apply is_json_assign; [reflexivity|exact He]|].
    reflexivity.
  - rewrite Hget. reflexivity.
  - intros k Hk. rewrite Hget.
    destruct (Str.eqb (lit "timestamp") k) eqn:E; [|reflexivity].
    apply eqb_eq in E. congruence.
Qed.

Lemma sample_recorded :
  recorded sample_world (lit "a1b2c3d4e5f60718") sample_session
    [VObj [(lit "type", VStr (lit "user"));
           (lit "content", VStr (lit "help"));
           (lit "timestamp", VStr (lit "2025-01-01T00:00:01.000Z"))]].
Proof.
  split; reflexivity.
Defined.

Lemma append_then_read_witness :
  exists w',
    addToHistory (VStr (lit "a1b2c3d4e5f60718"))
      [(lit "type", VStr (lit "user")); (lit "content", VStr (lit "status"))]
      sample_world = (Ret tt, w')
    /\ getHistory (VStr (lit "a1b2c3d4e5f60718")) w'
       = (Ret (VArr
            [VObj [(lit "type", VStr (lit "user"));
                   (lit "content", VStr (lit "help"));
                   (lit "timestamp", VStr (lit "2025-01-01T00:00:01.000Z"))];
             VObj [(lit "type", VStr (lit "user"));
                   (lit "content", VStr (lit "status"));
                   (lit "timestamp", VStr (lit "2025-01-01T00:00:02.000Z"))]]),
          w').
Proof.
  destruct (append_then_read sample_world _ _ _
              [(lit "type", VStr (lit "user"));
               (lit "content", VStr (lit "status"))] sample_recorded)
    as (w' & Ha & Hg & _).
  exists w'. split; [exact Ha|exact Hg].
Defined.

(** C6.  When the file of a session is missing, cannot be parsed, or
    holds a value that is not truthy, an append does nothing: it returns
    and leaves the world, and so the store, as it was. *)
Theorem append_missing (w : world) (sessionId : jsval) (entry : jsobj) :
  files w !! toString sessionId = None
  \/ files w !! toString sessionId = Some Corrupt
  \/ (exists v, files w !! toString sessionId = Some (Json v)
                /\ truthy v = false) ->
  addToHistory sessionId entry w = (Ret tt, w).
Proof.
  intros H. unfold addToHistory, loadSession, try_catch, Run.bind, readFile.
  destruct H as [-> | [-> | (v & -> & Hv)]]; simpl; try reflexivity.
  rewrite Hv. reflexivity.
Qed.

(** No file at all, and a file that is no JSON. *)
Lemma append_missing_witness :
  addToHistory (VStr (lit "0000")) [(lit "type", VStr (lit "user"))]
    idle_world
  = (Ret tt, idle_world)
  /\ addToHistory (VStr (lit "0000")) [(lit "type", VStr (lit "user"))]
       torn_world
     = (Ret tt, torn_world).
Proof.
  split.
  - apply (append_missing idle_world). left. apply lookup_empty.
  - apply (append_missing torn_world). right; left. apply lookup_singleton_eq.
Defined.

End Store.

(* ================================================================== *)
(** * What a computation leaves alone *)
(* ================================================================== *)

Section Keeps.

Variable R : world -> world -> Prop.
Hypothesis R_refl : forall w, R w w.
Hypothesis R_trans : forall a b c, R a b -> R b c -> R a c.

Lemma keeps_ret {A} (a : A) : keeps R (ret a).
Proof. intros w. apply R_refl. Qed.

Lemma keeps_throw {A} (e : exn) : keeps R (@throw A e).
Proof. intros w. apply R_refl. Qed.

Lemma keeps_read {A} (f : world -> A) : keeps R (read f).
Proof. intros w. apply R_refl. Qed.

Lemma keeps_lift {A} (o : option A) : keeps R (lift o).
Proof. destruct o; [apply keeps_ret|apply keeps_throw]. Qed.

Lemma keeps_of_outcome {A} (o : outcome A) : keeps R (of_outcome o).
Proof. intros w. apply R_refl. Qed.

Lemma keeps_bind {A B} (c : M A) (f : A -> M B) :
  keeps R c -> (forall a, keeps R (f a)) -> keeps R (Run.bind c f).
Proof.
  intros Hc Hf w. unfold Run.bind. specialize (Hc w).
  destruct (c w) as [[a|e] w1]; simpl in *; [|exact Hc].
  eapply R_trans; [exact Hc|apply Hf].
Qed.

Lemma keeps_try {A} (c : M A) (h : exn -> M A) :
  keeps R c -> (forall e, keeps R (h e)) -> keeps R (try_catch c h).
Proof.
  intros Hc Hh w. unfold try_catch. specialize (Hc w).
  destruct (c w) as [[a|e] w1]; simpl in *; [exact Hc|].
  eapply R_trans; [exact Hc|apply Hh].
Qed.

Lemma keeps_for_each {A} (f : A -> M unit) (l : list A) :
  (forall x, In x l -> keeps R (f x)) -> keeps R (for_each f l).
Proof.
  induction l as [|x l IH]; intros Hf; simpl; [apply keeps_ret|].
  apply keeps_bind; [apply Hf; left; reflexivity|].
  intros _. apply IH. intros y Hy. apply Hf. right; exact Hy.
Qed.

Lemma keeps_readFile (name : jsstring) : keeps R (readFile name).
Proof. intros w. unfold readFile. destruct (files w !! name); apply R_refl. Qed.

End Keeps.

(** Breaks a computation down to its primitive effects. *)
Ltac keep_structure :=
  repeat first
    [ match goal with |- forall _, _ => intro end
    | apply keeps_ret; assumption
    | apply keeps_throw; assumption
    | apply keeps_read; assumption
    | apply keeps_lift; assumption
    | apply keeps_of_outcome; assumption
    | apply keeps_readFile; assumption
    | apply keeps_bind; [assumption| |]
    | apply keeps_try; [assumption| |]
    | apply keeps_for_each; [assumption|assumption|]
    | match goal with
      | |- keeps _ (if ?b then _ else _) => destruct b
      | |- keeps _ (match ?x with _ => _ end) => destruct x
      end ].

(* ================================================================== *)
(** * Properties of the transport client *)
(* ================================================================== *)

Section Client.

Import BrainClient.

Lemma same_client_refl w : same_client w w.
Proof. split; reflexivity. Qed.

Lemma same_client_trans a b c :
  same_client a b -> same_client b c -> same_client a c.
Proof. intros [? ?] [? ?]. split; congruence. Qed.

Lemma keeps_client_say (e : event) : keeps same_client (say e).
Proof. intros w. split; reflexivity. Qed.

Ltac keep_client :=
  pose proof same_client_refl as Hrefl;
  pose proof same_client_trans as Htrans;
  repeat first [ progress keep_structure | apply keeps_client_say ].

Lemma handler_in_table table (type : jsval) h :
  handler_in table type = Some h ->
  exists label, In (label, h) table /\ type = VStr label.
Proof.
  induction table as [|[label h'] table IH]; simpl; [discriminate|].
  destruct (is_str type label) eqn:E.
  - intros [= <-]. exists label. split; [left; reflexivity|].
    destruct type; try discriminate. simpl in E.
    apply eqb_eq in E as ->. reflexivity.
  - intros H. destruct (IH H) as (l & Hin & Hl). eauto.
Qed.

(** The inbound path only prints, emits and runs the listeners. *)
Section Inbound.

Variable R : world -> world -> Prop.
Hypothesis R_refl : forall w, R w w.
Hypothesis R_trans : forall a b c, R a b -> R b c -> R a c.
Hypothesis R_say : forall e, keeps R (say e).

Lemma keeps_handlers :
  Forall (fun lh => forall data, keeps R (snd lh data)) dispatch_table.
Proof.
  unfold dispatch_table.
  repeat (apply Forall_cons; split;
          [intros data; cbn [snd];
           unfold handleServerConnected, handleServerDisconnected,
             handleToolsList, handleServersList, handleQueryResponse,
             handleThinking, handleStatus, handleError;
           repeat first [ progress keep_structure | apply R_say ]|]).
  constructor.
Qed.

Lemma keeps_handleMessage ls message :
  (forall l, In l ls -> keeps R (l message)) ->
  keeps R (handleMessage ls message).
Proof.
  intros Hls.
  assert (Hemit : keeps R (emit ls message)).
  { unfold emit. apply keeps_bind; [exact R_trans|apply R_say|].
    intros _. apply keeps_for_each; [exact R_refl|exact R_trans|exact Hls]. }
  assert (Hbody : forall type data,
    keeps R
      (_ <- match handler_of type with
            | Some h => h data
            | None => say (Out "Unknown message type:" [type])
            end ;; emit ls message)).
  { intros type data.
    apply keeps_bind; [exact R_trans| |intros _; exact Hemit].
    destruct (handler_of type) as [h|] eqn:E; [|apply R_say].
    apply handler_in_table in E as (label & Hin & _).
    exact (proj1 (List.Forall_forall _ _) keeps_handlers _ Hin data). }
  unfold handleMessage.
  destruct message; try apply Hbody; apply keeps_throw, R_refl.
Qed.

Lemma keeps_on_message ls data :
  (forall l message, In l ls -> data = Json message -> keeps R (l message)) ->
  keeps R (on_message ls data).
Proof.
  intros Hls. unfold on_message.
  apply keeps_try; [exact R_trans| |intros _; apply R_say].
  destruct data as [|message]; simpl JSON_parse.
  - intros w. apply R_refl.
  - intros w. unfold Run.bind, of_outcome.
    apply keeps_handleMessage. intros l Hl. apply (Hls l message Hl eq_refl).
Qed.

End Inbound.

Lemma keeps_client_sendCommand command params :
  keeps same_client (sendCommand command params).
Proof. unfold sendCommand. keep_client. Qed.

(** While the client is connected it has a socket. *)
Lemma reachable_socket (w : world) :
  reachable w -> connected w = true -> ws w = true.
Proof.
  induction 1 as [w [Hws Hc]|w w' Hreach IH Hstep]; [congruence|].
  destruct Hstep as [w|w Hws|w Hws|w Hws|w ls data Hws Hls|w command params|w];
    simpl; try reflexivity; try discriminate; try (intros _; exact Hws).
  - destruct (keeps_on_message same_client same_client_refl
                same_client_trans keeps_client_say ls data
                (fun l m Hin _ w0 => Hls l m w0 Hin) w) as [-> ->].
    exact IH.
  - destruct (keeps_client_sendCommand command params w) as [-> ->].
    exact IH.
  - unfold disconnect, Run.bind, read. simpl.
    destruct (ws w) eqn:E; simpl; [discriminate|].
    rewrite E. exact IH.
Qed.

(** C3.  [sendCommand] fails with the error [Not connected to Brain
    server] whenever the client is not connected, and then nothing at
    all has happened: the world, with its trace of effects, is the one
    before the call.  When the client is connected it writes the
    serialized object [{ command, ...params }] to the socket once and
    returns; nothing else happens, and no reply is awaited. *)
Theorem sendCommand_gate :
  (forall w command params,
      connected w = false ->
      sendCommand command params w = (Throw not_connected, w))
  /\ (forall w command params,
        reachable w -> connected w = true ->
        sendCommand command params w
        = (Ret tt,
           after w [Send (JSON_stringify
                            (VObj (assign [(lit "command", VStr command)]
                                     params)))])).
Proof.
  split; intros w command params.
  - intros Hc. unfold sendCommand, Run.bind, read. rewrite Hc. reflexivity.
  - intros Hr Hc. pose proof (reachable_socket w Hr Hc) as Hws.
    unfold sendCommand, Run.bind, read. rewrite Hc. cbn [negb].
    cbv beta iota. rewrite Hws. reflexivity.
Qed.

Lemma open_world_reachable : reachable open_world.
Proof.
  unfold open_world.
  apply (reach_step (snd (connect idle_world))).
  - apply (reach_step idle_world).
    + apply reach_fresh. split; reflexivity.
    + apply step_connect.
  - apply step_open. reflexivity.
Defined.

Lemma sendCommand_gate_witness :
  (connected idle_world = false
   /\ sendCommand (lit "query") [(lit "query", VStr (lit "hi"))] idle_world
      = (Throw not_connected, idle_world))
  /\ (connected open_world = true
      /\ sendCommand (lit "query") [(lit "query", VStr (lit "hi"))] open_world
         = (Ret tt,
            after open_world
              [Send (Json (VObj [(lit "command", VStr (lit "query"));
                                 (lit "query", VStr (lit "hi"))]))])).
Proof.
  split.
  - split; [reflexivity|].
    apply (proj1 sendCommand_gate). reflexivity.
  - split; [reflexivity|].
    apply (proj2 sendCommand_gate open_world (lit "query")
             [(lit "query", VStr (lit "hi"))] open_world_reachable).
    reflexivity.
Defined.

Lemma handler_in_none table (type : jsval) :
  (forall label, In label (List.map fst table) -> type <> VStr label) ->
  handler_in table type = None.
Proof.
  induction table as [|[label h] table IH]; intros H; simpl; [reflexivity|].
  destruct (is_str type label) eqn:E.
  - destruct type; try discriminate. simpl in E. apply eqb_eq in E as ->.
    elim (H label); [left|]; reflexivity.
  - apply IH. intros l Hl. apply H. right; exact Hl.
Qed.

Lemma emit_alone (message : jsval) (w : world) :
  emit [] message w = (Ret tt, after w [Emit (lit "message") message]).
Proof. reflexivity. Qed.

(** A frame no label fits is logged and emitted. *)
Lemma handleMessage_unhandled (ls : list (jsval -> M unit)) (o : jsobj)
    (w : world) :
  handler_of (get (lit "type") o) = None ->
  handleMessage ls (VObj o) w
  = emit ls (VObj o)
      (after w [Out "Unknown message type:" [get (lit "type") o]]).
Proof. intros Hnone. unfold handleMessage. rewrite Hnone. reflexivity. Qed.

(** A frame is emitted when its handler has returned. *)
Lemma handleMessage_handled (ls : list (jsval -> M unit)) (o : jsobj)
    (w w1 : world) h :
  handler_of (get (lit "type") o) = Some h ->
  h (without (lit "type") o) w = (Ret tt, w1) ->
  handleMessage ls (VObj o) w = emit ls (VObj o) w1.
Proof.
  intros Hh Hrun. unfold handleMessage. rewrite Hh.
  unfold Run.bind. rewrite Hrun. reflexivity.
Qed.

Lemma handler_of_label (label : jsstring) :
  In label labels -> exists h, handler_of (VStr label) = Some h.
Proof.
  unfold labels, dispatch_table. simpl List.map. intros H.
  repeat destruct H as [<-|H]; try (eexists; reflexivity). destruct H.
Qed.

(** C4, amended.  A frame whose [type] is missing or is none of the
    eight labels of the [switch] reaches no handler: the dispatcher logs
    one line, [Unknown message type:] with the type, and then re-emits
    the frame, unchanged, on the [message] channel.  A frame with one of
    the labels has a handler, and is re-emitted, unchanged, once that
    handler has returned.  With no listener on the channel the
    re-emission is the one effect [Emit]. *)
Theorem handleMessage_dispatch (ls : list (jsval -> M unit)) (o : jsobj)
    (w : world) :
  let message := VObj o in
  let type := get (lit "type") o in
  ((has (lit "type") o = false
    \/ (forall label, In label labels -> type <> VStr label)) ->
   handler_of type = None
   /\ handleMessage ls message w
      = emit ls message (after w [Out "Unknown message type:" [type]]))
  /\ (forall label, In label labels -> type = VStr label ->
                    exists h, handler_of type = Some h)
  /\ (forall h w1,
        handler_of type = Some h ->
        h (without (lit "type") o) w = (Ret tt, w1) ->
        In h (List.map snd dispatch_table)
        /\ handleMessage ls message w = emit ls message w1)
  /\ emit [] message w = (Ret tt, after w [Emit (lit "message") message])
  /\ length dispatch_table = 8%nat.
Proof.
  intros message type. split; [|split; [|split; [|split]]].
  - intros H.
    assert (Hnone : handler_of type = None).
    { apply handler_in_none. destruct H as [H|H]; [|exact H].
      intros label _. unfold type. rewrite (get_absent _ _ H). discriminate. }
    split; [exact Hnone|]. apply handleMessage_unhandled, Hnone.
  - intros label Hin ->. apply handler_of_label, Hin.
  - intros h w1 Hh Hrun. split.
    + apply handler_in_table in Hh as (label & Hin & _).
      apply in_map_iff. exists (label, h). split; [reflexivity|exact Hin].
    + apply handleMessage_handled with (h := h); assumption.
  - reflexivity.
  - reflexivity.
Qed.

(** A frame with no [type], and a [thinking] notice. *)
Lemma handleMessage_dispatch_witness :
  handleMessage [] (VObj [(lit "seq", VNum (Fin 1))]) idle_world
  = (Ret tt,
     after idle_world
       [Out "Unknown message type:" [VUndefined];
        Emit (lit "message") (VObj [(lit "seq", VNum (Fin 1))])])
  /\ handleMessage []
       (VObj [(lit "type", VStr (lit "thinking"));
              (lit "message", VStr (lit "..."))]) idle_world
     = (Ret tt,
        after idle_world
          [Out "thinking" [VStr (lit "...")];
           Emit (lit "message")
             (VObj [(lit "type", VStr (lit "thinking"));
                    (lit "message", VStr (lit "..."))])]).
Proof.
  split.
  - destruct (handleMessage_dispatch [] [(lit "seq", VNum (Fin 1))] idle_world)
      as (H & _ & _ & _ & _).
    destruct (H (or_introl eq_refl)) as [_ ->]. reflexivity.
  - destruct (handleMessage_dispatch []
                [(lit "type", VStr (lit "thinking"));
                 (lit "message", VStr (lit "..."))] idle_world)
      as (_ & _ & H & _ & _).
    destruct (H handleThinking _ eq_refl eq_refl) as [_ ->]. reflexivity.
Defined.

(** C4 as it was stated fails twice.  A frame with no [type] is not
    dropped silently: the trace holds a console line before the
    re-emission.  And not every frame is re-emitted: the handler of a
    [server_connected] frame that carries no [server] throws, and the
    dispatcher is left before it emits. *)
Lemma handleMessage_not_silent_nor_total :
  trace (snd (handleMessage [] (VObj []) idle_world))
    = [Out "Unknown message type:" [VUndefined];
       Emit (lit "message") (VObj [])]
  /\ trace (snd (handleMessage [] (VObj []) idle_world))
     <> [Emit (lit "message") (VObj [])]
  /\ handleMessage []
       (VObj [(lit "type", VStr (lit "server_connected"))]) idle_world
     = (Throw TypeError, idle_world)
  /\ ~ In (Emit (lit "message")
             (VObj [(lit "type", VStr (lit "server_connected"))]))
          (trace (snd (handleMessage []
                         (VObj [(lit "type", VStr (lit "server_connected"))])
                         idle_world))).
Proof.
  split; [reflexivity|]. split; [discriminate|].
  split; [reflexivity|]. intros [].
Qed.

End Client.

(* ================================================================== *)
(** * Properties of the REPL orchestrator *)
(* ================================================================== *)

Section Repl.

Import CommandParser SessionManager BrainClient BrainREPL.

Lemma quiet_refl w : quiet w w.
Proof.
  repeat split. exists []. rewrite app_nil_r. reflexivity.
Qed.

Lemma quiet_trans a b c : quiet a b -> quiet b c -> quiet a c.
Proof.
  intros (F1 & W1 & D1 & T1 & S1 & e1 & E1) (F2 & W2 & D2 & T2 & S2 & e2 & E2).
  repeat split; try congruence.
  exists (e1 ++ e2). rewrite E2, E1, app_assoc. reflexivity.
Qed.

Lemma quiet_say (e : event) : keeps quiet (say e).
Proof. intros w. repeat split. exists [e]. reflexivity. Qed.

Lemma quiet_set_connected (b : bool) : keeps quiet (set_connected b).
Proof.
  intros w. repeat split. exists []. simpl. rewrite app_nil_r. reflexivity.
Qed.

Lemma quiet_set_isRunning (b : bool) : keeps quiet (set_isRunning b).
Proof.
  intros w. repeat split. exists []. simpl. rewrite app_nil_r. reflexivity.
Qed.

Ltac keep_quiet :=
  pose proof quiet_refl as Hrefl;
  pose proof quiet_trans as Htrans;
  repeat first
    [ progress keep_structure
    | apply quiet_say
    | apply quiet_set_connected
    | apply quiet_set_isRunning ].

Lemma quiet_sendCommand command params :
  keeps quiet (sendCommand command params).
Proof. unfold sendCommand. keep_quiet. Qed.

Lemma quiet_sendQuery query : keeps quiet (sendQuery query).
Proof. unfold sendQuery. keep_quiet; try apply quiet_sendCommand. Qed.

Lemma quiet_connectServer serverId config :
  keeps quiet (connectServer serverId config).
Proof. unfold connectServer. keep_quiet; try apply quiet_sendCommand. Qed.

Lemma quiet_listServers : keeps quiet listServers.
Proof. unfold listServers. keep_quiet; try apply quiet_sendCommand. Qed.

Lemma quiet_listTools serverId : keeps quiet (listTools serverId).
Proof. unfold listTools. keep_quiet; try apply quiet_sendCommand. Qed.

Lemma quiet_showStatus : keeps quiet showStatus.
Proof. unfold showStatus. keep_quiet; try apply quiet_sendCommand. Qed.

Lemma quiet_disconnect : keeps quiet disconnect.
Proof. unfold disconnect. keep_quiet. Qed.

Lemma quiet_getHistory sessionId : keeps quiet (getHistory sessionId).
Proof. unfold getHistory, loadSession. keep_quiet. Qed.

Lemma quiet_handleExit : keeps quiet handleExit.
Proof.
  unfold handleExit. keep_quiet;
    try first [apply quiet_getHistory | apply quiet_disconnect].
Qed.

Lemma quiet_showHistory : keeps quiet showHistory.
Proof. unfold showHistory. keep_quiet; try apply quiet_getHistory. Qed.

Lemma quiet_handleFileOperation operation params :
  keeps quiet (handleFileOperation operation params).
Proof. unfold handleFileOperation. keep_quiet; try apply quiet_sendQuery. Qed.

Lemma quiet_handleGitOperation operation params :
  keeps quiet (handleGitOperation operation params).
Proof. unfold handleGitOperation. keep_quiet; try apply quiet_sendQuery. Qed.

Lemma quiet_handleCodebaseOperation operation params :
  keeps quiet (handleCodebaseOperation operation params).
Proof. unfold handleCodebaseOperation. keep_quiet; try apply quiet_sendQuery. Qed.

Lemma quiet_handleConnectServer serverId config :
  keeps quiet (handleConnectServer serverId config).
Proof. unfold handleConnectServer. keep_quiet; try apply quiet_connectServer. Qed.

Lemma quiet_handleListTools serverId :
  keeps quiet (handleListTools serverId).
Proof. unfold handleListTools. keep_quiet; try apply quiet_listTools. Qed.

Lemma quiet_handleDevelopmentQuery input :
  keeps quiet (handleDevelopmentQuery input).
Proof. unfold handleDevelopmentQuery. apply quiet_sendQuery. Qed.

(** The [switch] forwards, and only the two query branches go through
    [handleQuery]. *)
Lemma dispatch_cases (command : jsobj) (input : jsstring) :
  keeps quiet (dispatch command input)
  \/ exists q, dispatch command input = handleQuery q.
Proof.
  unfold dispatch. cbv zeta.
  repeat lazymatch goal with
  | |- keeps _ (if ?c then _ else _) \/ _ => destruct c
  | |- keeps _ (handleFileOperation _ _) \/ _ =>
      left; apply quiet_handleFileOperation
  | |- keeps _ (handleGitOperation _ _) \/ _ =>
      left; apply quiet_handleGitOperation
  | |- keeps _ (handleCodebaseOperation _ _) \/ _ =>
      left; apply quiet_handleCodebaseOperation
  | |- keeps _ (handleConnectServer _ _) \/ _ =>
      left; apply quiet_handleConnectServer
  | |- keeps _ listServers \/ _ => left; apply quiet_listServers
  | |- keeps _ (handleListTools _) \/ _ => left; apply quiet_handleListTools
  | |- keeps _ (handleDevelopmentQuery _) \/ _ =>
      left; apply quiet_handleDevelopmentQuery
  | |- keeps _ (handleQuery ?q) \/ _ => right; exists q; reflexivity
  end.
Qed.

Lemma quiet_recorded w w' sid s h :
  quiet w w' -> recorded w sid s h -> recorded w' sid s h.
Proof.
  intros (F & W & _) [Hf Hj Hi Hh Hw].
  split; auto; congruence.
Qed.

Lemma quiet_grows (c : M unit) : keeps quiet c -> grows c.
Proof.
  intros Hc w sid s h R Hsid. specialize (Hc w).
  pose proof (quiet_recorded _ _ _ _ _ Hc R) as R'.
  destruct Hc as (F & W & D & T & S & evs & E).
  exists s, [], evs. rewrite app_nil_r. auto.
Qed.

Lemma stamped_query_type (q : jsval) (t : jsstring) :
  is_query_entry (json (VObj (stamp (query_entry q) t))).
Proof. destruct q; reflexivity. Qed.

Lemma handleQuery_recorded (q : jsval) w sid s h :
  recorded w sid s h -> currentSessionId w = VStr sid ->
  handleQuery q w = sendQuery q (appended w sid s h (query_entry q)).
Proof.
  intros R Hsid. unfold handleQuery, Run.bind at 1, read. rewrite Hsid.
  unfold Run.bind at 1.
  rewrite (addToHistory_recorded _ _ _ _ (query_entry q) R). reflexivity.
Qed.

Lemma handleQuery_grows (q : jsval) : grows (handleQuery q).
Proof.
  intros w sid s h R Hsid.
  rewrite (handleQuery_recorded q w sid s h R Hsid).
  pose proof (appended_recorded _ _ _ _ (query_entry q) R) as R1.
  pose proof (quiet_sendQuery q (appended w sid s h (query_entry q))) as Q.
  pose proof (quiet_recorded _ _ _ _ _ Q R1) as R2.
  destruct Q as (F & W & D & T & S & evs & E).
  eexists _, [_], (_ :: evs).
  split; [exact R2|].
  split; [constructor; [apply stamped_query_type|constructor]|].
  split; [simpl; lia|].
  rewrite E. simpl. rewrite <- app_assoc. reflexivity.
Qed.

Lemma dispatch_grows command input : grows (dispatch command input).
Proof.
  destruct (dispatch_cases command input) as [H|[q ->]].
  - apply quiet_grows, H.
  - apply handleQuery_grows.
Qed.

(** What follows the first append in [processInput]. *)
Lemma after_append_grows (input : jsstring) :
  grows
    (let lower := toLowerCase input in
     if Str.eqb lower (lit "exit") || Str.eqb lower (lit "quit")
     then handleExit
     else if Str.eqb lower (lit "help") then showHelp
     else if Str.eqb lower (lit "status") then showStatus
     else if Str.eqb lower (lit "clear") then say Clear
     else if Str.eqb lower (lit "history") then showHistory
     else if startsWith lower (lit "sessions") then showSessions
     else command <- of_outcome (parse input) ;; dispatch command input).
Proof.
  cbv zeta.
  repeat lazymatch goal with
  | |- grows (if ?c then _ else _) => destruct c
  | |- grows handleExit => apply quiet_grows, quiet_handleExit
  | |- grows showHelp => apply quiet_grows, quiet_say
  | |- grows showStatus => apply quiet_grows, quiet_showStatus
  | |- grows (say _) => apply quiet_grows, quiet_say
  | |- grows showHistory => apply quiet_grows, quiet_showHistory
  | |- grows showSessions => apply quiet_grows, quiet_say
  end.
  intros w sid s h R Hsid. unfold Run.bind, of_outcome.
  destruct (parse input) as [command|e].
  - exact (dispatch_grows command input w sid s h R Hsid).
  - exists s, [], []. rewrite !app_nil_r. simpl. auto.
Qed.

Lemma processInput_recorded (w : world) sid s h (line : jsstring) :
  recorded w sid s h -> currentSessionId w = VStr sid ->
  processInput line w
  = (let lower := toLowerCase line in
     if Str.eqb lower (lit "exit") || Str.eqb lower (lit "quit")
     then handleExit
     else if Str.eqb lower (lit "help") then showHelp
     else if Str.eqb lower (lit "status") then showStatus
     else if Str.eqb lower (lit "clear") then say Clear
     else if Str.eqb lower (lit "history") then showHistory
     else if startsWith lower (lit "sessions") then showSessions
     else command <- of_outcome (parse line) ;; dispatch command line)
      (appended w sid s h (user_entry line)).
Proof.
  intros R Hsid. unfold processInput, Run.bind at 1, read. rewrite Hsid.
  unfold Run.bind at 1.
  rewrite (addToHistory_recorded _ _ _ _ (user_entry line) R). reflexivity.
Qed.

Lemma processInput_first (w : world) sid s h (line : jsstring) :
  recorded w sid s h -> currentSessionId w = VStr sid ->
  let user := stored_user line (dates w (ticks w)) in
  exists s' tail evs,
    recorded (snd (processInput line w)) sid s' (h ++ user :: tail)
    /\ Forall is_query_entry tail /\ (length tail <= 1)%nat
    /\ trace (snd (processInput line w))
       = trace w ++ Write sid (Json (VObj (pushed s h user))) :: evs.
Proof.
  intros R Hsid user.
  rewrite (processInput_recorded w sid s h line R Hsid).
  pose proof (appended_recorded _ _ _ _ (user_entry line) R) as R1.
  change (json (VObj (stamp (user_entry line) (dates w (ticks w)))))
    with user in R1.
  destruct (after_append_grows line _ _ _ _ R1 Hsid)
    as (s' & tail & evs & R2 & Hq & Hlen & Htr).
  exists s', tail, evs. rewrite <- app_assoc in R2.
  split; [exact R2|]. split; [exact Hq|]. split; [exact Hlen|].
  rewrite Htr. simpl. rewrite <- app_assoc. reflexivity.
Qed.

Lemma quiet_repl_handleMessage (message : jsval) :
  (forall o, message = VObj o ->
             get (lit "type") o <> VStr (lit "query_response")) ->
  keeps quiet (BrainREPL.handleMessage message).
Proof.
  intros Hno. unfold BrainREPL.handleMessage.
  assert (Hnot : forall type, prop (lit "type") message = Some type ->
                              is_str type (lit "query_response") = false).
  { intros type Hp. destruct (is_str type (lit "query_response")) eqn:E;
      [|reflexivity].
    destruct type; try discriminate. simpl in E. apply eqb_eq in E as ->.
    destruct message; try discriminate;
      try (vm_compute in Hp; discriminate).
    simpl in Hp. injection Hp as Hp. elim (Hno o eq_refl Hp). }
  destruct (prop (lit "type") message) as [type|] eqn:Hp; simpl.
  - intros w. unfold Run.bind, ret. rewrite (Hnot type eq_refl).
    apply quiet_refl.
  - intros w. apply quiet_refl.
Qed.

Lemma emit_one (l : jsval -> M unit) (message : jsval) (w : world) :
  emit [l] message w
  = match l message (after w [Emit (lit "message") message]) with
    | (Ret _, w') => (Ret tt, w')
    | (Throw e, w') => (Throw e, w')
    end.
Proof.
  unfold emit, Run.bind, say. cbn [for_each]. unfold Run.bind, ret.
  fold (after w [Emit (lit "message") message]).
  destruct (l message _) as [[[]|e] w']; reflexivity.
Qed.

Lemma repl_handleMessage_response (o : jsobj) (w : world) sid :
  currentSessionId w = VStr sid ->
  get (lit "type") o = VStr (lit "query_response") ->
  BrainREPL.handleMessage (VObj o) w
  = addToHistory (VStr sid) (response_entry (get (lit "response") o)) w.
Proof.
  intros Hsid Htype.
  unfold BrainREPL.handleMessage, Run.bind at 1. cbn [prop lift ret].
  rewrite Htype.
  change (is_str (VStr (lit "query_response")) (lit "query_response"))
    with true. cbv beta iota.
  unfold Run.bind at 1, read. rewrite Hsid.
  unfold Run.bind at 1. reflexivity.
Qed.

Lemma get_without (k r : jsstring) (o : jsobj) :
  r <> k -> get k (without r o) = get k o.
Proof.
  intros Hne. induction o as [|[x v] o IH]; simpl; [reflexivity|].
  destruct (Str.eqb x r) eqn:E1.
  - apply eqb_eq in E1 as ->.
    destruct (Str.eqb r k) eqn:E2; [apply eqb_eq in E2; contradiction|].
    exact IH.
  - simpl. rewrite IH. reflexivity.
Qed.

Lemma handleQueryResponse_shown (data : jsobj) (w : world) :
  convertible (get (lit "response") data) = true ->
  handleQueryResponse data w
  = (Ret tt, after w [Out "Brain Response:" [get (lit "response") data]]).
Proof.
  intros Hc. unfold handleQueryResponse, Run.bind, of_outcome, as_string.
  rewrite Hc. reflexivity.
Qed.

Lemma handleQueryResponse_unshown (data : jsobj) (w : world) :
  convertible (get (lit "response") data) = false ->
  handleQueryResponse data w = (Throw TypeError, w).
Proof.
  intros Hc. unfold handleQueryResponse, Run.bind, of_outcome, as_string.
  rewrite Hc. reflexivity.
Qed.

(** A reply that has no string: its handler throws before the frame is
    re-emitted, and the listener of the socket logs the error. *)
Lemma on_frame_unshown w (o : jsobj) :
  get (lit "type") o = VStr (lit "query_response") ->
  convertible (get (lit "response") o) = false ->
  on_frame (Json (VObj o)) w
  = (Ret tt, after w [ErrOut "Failed to parse message:" []]).
Proof.
  intros Htype Hc.
  unfold on_frame, on_message, try_catch, Run.bind at 1, of_outcome.
  simpl JSON_parse. cbv beta iota.
  unfold BrainClient.handleMessage. rewrite Htype.
  change (handler_of (VStr (lit "query_response")))
    with (Some handleQueryResponse).
  unfold Run.bind at 1.
  rewrite handleQueryResponse_unshown
    by (rewrite get_without by discriminate; exact Hc).
  reflexivity.
Qed.

Lemma on_frame_response w sid s h (o : jsobj) :
  recorded w sid s h -> currentSessionId w = VStr sid ->
  get (lit "type") o = VStr (lit "query_response") ->
  convertible (get (lit "response") o) = true ->
  on_frame (Json (VObj o)) w
  = (Ret tt,
     appended
       (after
          (after w [Out "Brain Response:"
                      [get (lit "response") (without (lit "type") o)]])
          [Emit (lit "message") (VObj o)])
       sid s h (response_entry (get (lit "response") o))).
Proof.
  intros R Hsid Htype Hc.
  assert (R1 : forall w', files w' = files w -> writable w' = writable w ->
                          recorded w' sid s h)
    by (intros w' Hf Hw; destruct R; split; congruence).
  unfold on_frame, on_message, try_catch, Run.bind at 1, of_outcome.
  simpl JSON_parse. cbv beta iota.
  rewrite (handleMessage_handled [BrainREPL.handleMessage] o w
             (after w [Out "Brain Response:"
                         [get (lit "response") (without (lit "type") o)]])
             handleQueryResponse)
    by (try rewrite Htype; try reflexivity;
        apply handleQueryResponse_shown;
        rewrite get_without by discriminate; exact Hc).
  rewrite emit_one.
  match goal with
  | |- context [BrainREPL.handleMessage _ ?w1] =>
      rewrite (repl_handleMessage_response o w1 sid Hsid Htype);
      rewrite (addToHistory_recorded w1 sid s h _ (R1 w1 eq_refl eq_refl))
  end.
  reflexivity.
Qed.

(** C7.  Every non-blank line is pushed on the history of the active
    session as an entry of type [user] before anything else is done
    with it: the write of the record with that entry is the first
    effect of the turn, ahead of every built-in command, of the
    classification and of the dispatch; what the turn pushes after it
    is at most one entry, of type [query].  A blank line does nothing.
    An inbound frame changes no file unless its [type] is
    [query_response].  Such a frame pushes one entry of type
    [response], holding the [response] of the frame, once its handler
    has shown the response; a response that has no string makes the
    handler throw before the frame reaches the listener of the REPL,
    and then no file changes either. *)
Theorem history_in_arrival_order :
  (forall w sid s h input,
      recorded w sid s h -> currentSessionId w = VStr sid ->
      trim input <> [] ->
      let user := stored_user (trim input) (dates w (ticks w)) in
      let w' := snd (on_line input w) in
      exists s' tail evs,
        recorded w' sid s' (h ++ user :: tail)
        /\ Forall is_query_entry tail /\ (length tail <= 1)%nat
        /\ trace w' = trace w ++ Write sid (Json (VObj (pushed s h user))) :: evs)
  /\ (forall w input, trim input = [] -> on_line input w = (Ret tt, w))
  /\ (forall w data,
        (forall o, data = Json (VObj o) ->
                   get (lit "type") o <> VStr (lit "query_response")) ->
        files (snd (on_frame data w)) = files w)
  /\ (forall w sid s h o,
        recorded w sid s h -> currentSessionId w = VStr sid ->
        get (lit "type") o = VStr (lit "query_response") ->
        let response := get (lit "response") o in
        let entry := stored_response response (dates w (ticks w)) in
        let w' := snd (on_frame (Json (VObj o)) w) in
        prop (lit "type") entry = Some (VStr (lit "response"))
        /\ (convertible response = true ->
            recorded w' sid (pushed s h entry) (h ++ [entry]))
        /\ (convertible response = false -> files w' = files w)).
Proof.
  split; [|split; [|split]].
  - intros w sid s h input R Hsid Hline user w'.
    unfold w', on_line. destruct (trim input) as [|c line] eqn:E;
      [congruence|].
    destruct (processInput_first w sid s h (c :: line) R Hsid)
      as (s' & tail & evs & R2 & Hq & Hlen & Htr).
    unfold try_catch.
    destruct (processInput (c :: line) w) as [[[]|e] w1]; simpl in *.
    + exists s', tail, evs. auto.
    + exists s', tail, (evs ++ [ErrOut "Error:" []]).
      split; [destruct R2; split; assumption|].
      split; [exact Hq|]. split; [exact Hlen|].
      rewrite Htr. rewrite <- app_assoc. reflexivity.
  - intros w input E. unfold on_line. rewrite E. reflexivity.
  - intros w data Hno. unfold on_frame.
    apply (keeps_on_message quiet quiet_refl quiet_trans quiet_say).
    intros l message [<-|[]] ->. apply quiet_repl_handleMessage.
    intros o ->. apply Hno. reflexivity.
  - intros w sid s h o R Hsid Htype response entry w'.
    split; [unfold entry, stored_response;
            destruct response; reflexivity|].
    split; intros Hc; unfold w'.
    + rewrite (on_frame_response w sid s h o R Hsid Htype Hc).
      apply appended_recorded. destruct R; split; assumption.
    + rewrite (on_frame_unshown w o Htype Hc). reflexivity.
Qed.

(** The line [ status ] typed in the sample session, and three frames
    that arrive in it: a [thinking] frame, a reply with a text and a
    reply whose response cannot be shown. *)
Lemma history_in_arrival_order_witness :
  trim (lit " status ") <> []
  /\ (exists s' tail evs,
        recorded (snd (on_line (lit " status ") sample_world))
          (lit "a1b2c3d4e5f60718") s'
          ([VObj [(lit "type", VStr (lit "user"));
                  (lit "content", VStr (lit "help"));
                  (lit "timestamp", VStr (lit "2025-01-01T00:00:01.000Z"))]]
           ++ stored_user (lit "status") (lit "2025-01-01T00:00:02.000Z")
           :: tail)
        /\ Forall is_query_entry tail /\ (length tail <= 1)%nat
        /\ trace (snd (on_line (lit " status ") sample_world))
           = trace sample_world
             ++ Write (lit "a1b2c3d4e5f60718")
                  (Json (VObj (pushed sample_session
                     [VObj [(lit "type", VStr (lit "user"));
                            (lit "content", VStr (lit "help"));
                            (lit "timestamp",
                             VStr (lit "2025-01-01T00:00:01.000Z"))]]
                     (stored_user (lit "status")
                        (lit "2025-01-01T00:00:02.000Z")))))
                :: evs)
  /\ files (snd (on_frame
                   (Json (VObj [(lit "type", VStr (lit "thinking"))]))
                   sample_world))
     = files sample_world
  /\ (let entry :=
        VObj [(lit "type", VStr (lit "response"));
              (lit "content", VStr (lit "ok"));
              (lit "timestamp", VStr (lit "2025-01-01T00:00:02.000Z"))] in
      let h :=
        [VObj [(lit "type", VStr (lit "user"));
               (lit "content", VStr (lit "help"));
               (lit "timestamp", VStr (lit "2025-01-01T00:00:01.000Z"))]] in
      recorded (snd (on_frame (Json (VObj text_reply)) sample_world))
        (lit "a1b2c3d4e5f60718") (pushed sample_session h entry)
        (h ++ [entry]))
  /\ files (snd (on_frame (Json (VObj odd_reply)) sample_world))
     = files sample_world.
Proof.
  assert (Hline : trim (lit " status ") <> []) by discriminate.
  split; [exact Hline|]. split; [|split; [|split]].
  - exact (proj1 history_in_arrival_order sample_world _ _ _
             (lit " status ") sample_recorded eq_refl Hline).
  - apply (proj1 (proj2 (proj2 history_in_arrival_order))).
    intros o [= <-]. discriminate.
  - exact (proj1 (proj2 (proj2 (proj2 (proj2 history_in_arrival_order))
                           sample_world _ _ _ text_reply
                           sample_recorded eq_refl eq_refl))
             eq_refl).
  - exact (proj2 (proj2 (proj2 (proj2 (proj2 history_in_arrival_order))
                           sample_world _ _ _ odd_reply
                           sample_recorded eq_refl eq_refl))
             eq_refl).
Defined.

End Repl.

(* ================================================================== *)
(** * More of the classifier: white space and case *)
(* ================================================================== *)

Section Padding.

Import CommandParser SessionManager BrainClient BrainREPL Utils.

Lemma trimStart_app_spaces (a s : jsstring) :
  forallb isWhiteSpace a = true -> trimStart (a ++ s) = trimStart s.
Proof.
  induction a as [|c a IH]; simpl; [reflexivity|].
  intros H. apply andb_prop in H as [Hc Ha]. rewrite Hc. auto.
Qed.

Lemma trimEnd_app_spaces (s b : jsstring) :
  forallb isWhiteSpace b = true -> trimEnd (s ++ b) = trimEnd s.
Proof.
  intros H. unfold trimEnd. rewrite rev_app_distr.
  rewrite trimStart_app_spaces; [reflexivity|].
  rewrite forallb_forall in *. intros x Hx. apply H.
  apply in_rev. exact Hx.
Qed.

Lemma trim_padding (a s b : jsstring) :
  forallb isWhiteSpace a = true -> forallb isWhiteSpace b = true ->
  trim (a ++ s ++ b) = trim s.
Proof.
  intros Ha Hb. unfold trim. rewrite (trimStart_app_spaces a _ Ha).
  induction s as [|c s IH]; simpl.
  - rewrite (trimStart_spaces b Hb). reflexivity.
  - destruct (isWhiteSpace c); [exact IH|].
    change (c :: s ++ b) with ((c :: s) ++ b).
    apply trimEnd_app_spaces. exact Hb.
Qed.

Lemma trimStart_fixed (s : jsstring) : trimStart (trimStart s) = trimStart s.
Proof.
  induction s as [|c s IH]; simpl; [reflexivity|].
  destruct (isWhiteSpace c) eqn:E; [exact IH|]. simpl. rewrite E. reflexivity.
Qed.

Lemma trimStart_shape (s : jsstring) :
  trimStart s = []
  \/ exists c t, trimStart s = c :: t /\ isWhiteSpace c = false.
Proof.
  induction s as [|c s IH]; [left; reflexivity|].
  simpl. destruct (isWhiteSpace c) eqn:E; [exact IH|].
  right. exists c, s. split; [reflexivity|exact E].
Qed.

Lemma trimStart_app_last (l : jsstring) (c : N) :
  isWhiteSpace c = false -> exists l', trimStart (l ++ [c]) = l' ++ [c].
Proof.
  intros Hc. induction l as [|x l IH]; simpl.
  - rewrite Hc. exists []. reflexivity.
  - destruct (isWhiteSpace x); [exact IH|]. exists (x :: l). reflexivity.
Qed.

Lemma trimEnd_trimEnd (s : jsstring) : trimEnd (trimEnd s) = trimEnd s.
Proof.
  unfold trimEnd. rewrite rev_involutive, trimStart_fixed. reflexivity.
Qed.

(** [trim] is idempotent. *)
Lemma trim_trim (s : jsstring) : trim (trim s) = trim s.
Proof.
  unfold trim at 1.
  assert (H : trimStart (trim s) = trim s).
  { unfold trim. destruct (trimStart_shape s) as [->|(c & t & -> & Hc)];
      [reflexivity|].
    unfold trimEnd. cbn [rev].
    destruct (trimStart_app_last (rev t) c Hc) as [l' ->].
    rewrite rev_app_distr. cbn [rev app]. apply trimStart_head. exact Hc. }
  rewrite H. unfold trim. apply trimEnd_trimEnd.
Qed.

(** X1.  White space around the input does not count: [parse] gives
    the same result for an input, for its trimmed form, and for the
    input with any white space put before and after it. *)
Theorem parse_ignores_padding (input : jsstring) :
  parse (trim input) = parse input
  /\ forall a b,
       forallb isWhiteSpace a = true -> forallb isWhiteSpace b = true ->
       parse (a ++ input ++ b) = parse input.
Proof.
  split.
  - unfold parse. rewrite trim_trim. reflexivity.
  - intros a b Ha Hb. unfold parse. rewrite (trim_padding a input b Ha Hb).
    reflexivity.
Qed.

End Padding.

Section PaddingExamples.

Import CommandParser SessionManager BrainClient BrainREPL Utils.

(** Blanks around [git status]. *)
Lemma parse_ignores_padding_witness :
  parse (lit "  " ++ lit "git status" ++ lit " ") = parse (lit "git status").
Proof.
  apply (proj2 (parse_ignores_padding (lit "git status"))); reflexivity.
Defined.

End PaddingExamples.

Section Case.

Import CommandParser SessionManager BrainClient BrainREPL Utils.

(** Two characters with the same upper case are equal, or letters. *)
Lemma upper_cases (x y : N) :
  upper x = upper y -> x = y \/ (is_letter x = true /\ is_letter y = true).
Proof.
  unfold upper, is_letter.
  destruct ((97 <=? x) && (x <=? 122)) eqn:Ex;
    destruct ((97 <=? y) && (y <=? 122)) eqn:Ey; intros H.
  - right. split; reflexivity.
  - right. split; [reflexivity|].
    apply andb_prop in Ex as [E1 E2].
    apply N.leb_le in E1. apply N.leb_le in E2.
    replace ((65 <=? y) && (y <=? 90)) with true; [apply orb_true_r|].
    symmetry. apply andb_true_intro. split; apply N.leb_le; lia.
  - right. split; [|reflexivity].
    apply andb_prop in Ey as [E1 E2].
    apply N.leb_le in E1. apply N.leb_le in E2.
    replace ((65 <=? x) && (x <=? 90)) with true; [apply orb_true_r|].
    symmetry. apply andb_true_intro. split; apply N.leb_le; lia.
  - left. exact H.
Qed.

Ltac letter_bounds H :=
  unfold is_letter in H;
  repeat match type of H with
  | (_ || _) = true => apply orb_prop in H as [H|H]
  | (_ && _) = true => let H' := fresh H in apply andb_prop in H as [H H']
  | (_ <=? _) = true => apply N.leb_le in H
  end.

Lemma letter_tests (x : N) :
  is_letter x = true ->
  isLineTerminator x = false /\ isWhiteSpace x = false
  /\ isWordChar x = true /\ isDigit x = false.
Proof.
  intros H. unfold is_letter in H.
  unfold isLineTerminator, isWhiteSpace, isWordChar, isDigit.
  apply orb_prop in H as [H|H]; apply andb_prop in H as [H1 H2];
    apply N.leb_le in H1; apply N.leb_le in H2;
    repeat split;
    repeat match goal with
    | |- context [?a <=? ?b] =>
        first [ replace (a <=? b) with true by (symmetry; apply N.leb_le; lia)
              | replace (a <=? b) with false by (symmetry; apply N.leb_gt; lia) ]
    | |- context [?a =? ?b] =>
        replace (a =? b) with false by (symmetry; apply N.eqb_neq; lia)
    end; reflexivity.
Qed.

Lemma upper_upper (x : N) : upper (upper x) = upper x.
Proof.
  unfold upper.
  destruct ((97 <=? x) && (x <=? 122)) eqn:E; [|rewrite E; reflexivity].
  apply andb_prop in E as [E1 E2].
  apply N.leb_le in E1. apply N.leb_le in E2.
  replace (97 <=? x - 32) with false by (symmetry; apply N.leb_gt; lia).
  reflexivity.
Qed.

Lemma cls_match_case (ic : bool) (c : cls) (x y : N) :
  ic || cls_caseless c = true -> upper x = upper y ->
  cls_match ic c x = cls_match ic c y.
Proof.
  intros Hc H.
  destruct (upper_cases x y H) as [->|[Lx Ly]]; [reflexivity|].
  destruct (letter_tests x Lx) as (A1 & A2 & A3 & A4).
  destruct (letter_tests y Ly) as (B1 & B2 & B3 & B4).
  destruct c as [z| | | | | |zs]; simpl;
    rewrite ?A1, ?A2, ?A3, ?A4, ?B1, ?B2, ?B3, ?B4; try reflexivity.
  - destruct ic; [rewrite H; reflexivity|].
    simpl in Hc. apply negb_true_iff in Hc.
    replace (x =? z) with false; [replace (y =? z) with false; [reflexivity|]|];
      symmetry; apply N.eqb_neq; intros ->; congruence.
  - destruct ic; [rewrite H; reflexivity|].
    simpl in Hc. induction zs as [|z zs IH]; simpl; [reflexivity|].
    simpl in Hc. apply andb_prop in Hc as [Hz Hzs].
    apply negb_true_iff in Hz. rewrite (IH Hzs).
    replace (x =? z) with false; [replace (y =? z) with false; [reflexivity|]|];
      symmetry; apply N.eqb_neq; intros ->; congruence.
Qed.

Lemma star_case (ic g : bool) (c : cls) (k k' : cont) :
  ic || cls_caseless c = true -> alike k k' ->
  alike (star ic g c k) (star ic g c k').
Proof.
  intros Hc Hk pos t. revert pos.
  induction t as [|x t IH]; intros pos t' cs cs' Ht;
    destruct t' as [|y t']; try discriminate Ht.
  - simpl. apply Hk. exact Ht.
  - injection Ht as Hxy Ht. simpl.
    rewrite (cls_match_case ic c x y Hc Hxy).
    assert (Hh : hit (k pos (x :: t) cs) = hit (k' pos (y :: t') cs')).
    { apply Hk. unfold same_letters. simpl. congruence. }
    specialize (IH (S pos) t' cs cs' Ht).
    destruct (cls_match ic c y); [|exact Hh].
    destruct g.
    + destruct (star ic true c k (S pos) t cs),
               (star ic true c k' (S pos) t' cs'); simpl in *;
        try discriminate; try reflexivity; exact Hh.
    + destruct (k pos (x :: t) cs), (k' pos (y :: t') cs'); simpl in *;
        try discriminate; try reflexivity; exact IH.
Qed.

(** The matcher succeeds on an input and on its case variants alike. *)
Lemma m_case (ic : bool) (r : regex) :
  forall pos t t' cs cs' k k',
    ic || caseless r = true -> same_letters t t' -> alike k k' ->
    hit (m ic r pos t cs k) = hit (m ic r pos t' cs' k').
Proof.
  induction r as [|c| | |r1 IH1 r2 IH2|r1 IH1 r2 IH2|r1 IH1|g c|i r1 IH1];
    intros pos t t' cs cs' k k' Hc Ht Hk; simpl.
  - apply Hk. exact Ht.
  - destruct t as [|x t], t' as [|y t']; try discriminate Ht; [reflexivity|].
    injection Ht as Hxy Ht.
    rewrite (cls_match_case ic c x y Hc Hxy).
    destruct (cls_match ic c y); [|reflexivity]. apply Hk. exact Ht.
  - destruct (Nat.eqb pos 0); [|reflexivity]. apply Hk. exact Ht.
  - destruct t as [|x t], t' as [|y t']; try discriminate Ht; [|reflexivity].
    apply Hk. exact Ht.
  - assert (H1 : ic || caseless r1 = true /\ ic || caseless r2 = true).
    { destruct ic; [split; reflexivity|]. simpl in *.
      apply andb_prop in Hc. exact Hc. }
    destruct H1 as [H1 H2].
    apply IH1; [exact H1|exact Ht|].
    intros p u u' c c' Hu. apply IH2; assumption.
  - assert (H1 : ic || caseless r1 = true /\ ic || caseless r2 = true).
    { destruct ic; [split; reflexivity|]. simpl in *.
      apply andb_prop in Hc. exact Hc. }
    destruct H1 as [H1 H2].
    specialize (IH1 pos t t' cs cs' k k' H1 Ht Hk).
    specialize (IH2 pos t t' cs cs' k k' H2 Ht Hk).
    destruct (m ic r1 pos t cs k), (m ic r1 pos t' cs' k'); simpl in *;
      try discriminate; try reflexivity; exact IH2.
  - assert (Hg : alike
               (fun pos' s' cs' => if Nat.eqb pos' pos then None else k pos' s' cs')
               (fun pos' s' cs' => if Nat.eqb pos' pos then None else k' pos' s' cs')).
    { intros p u u' c c' Hu. destruct (Nat.eqb p pos); [reflexivity|].
      apply Hk. exact Hu. }
    specialize (IH1 pos t t' cs cs' _ _ Hc Ht Hg).
    pose proof (Hk pos t t' cs cs' Ht) as H0.
    match goal with
    | |- hit (match ?a with _ => _ end) = hit (match ?b with _ => _ end) =>
        destruct a, b
    end; simpl in *; try discriminate; try reflexivity; exact H0.
  - apply star_case; assumption.
  - apply IH1; [exact Hc|exact Ht|].
    intros p u u' c c' Hu. apply Hk. exact Hu.
Qed.

Lemma same_letters_tail (x y : N) (t t' : jsstring) :
  same_letters (x :: t) (y :: t') -> same_letters t t'.
Proof. unfold same_letters. simpl. congruence. Qed.

Lemma alike_finish : alike finish finish.
Proof. intros pos t t' cs cs' _. reflexivity. Qed.

Lemma exec_from_case (ic : bool) (r : regex) (n : nat) (whole whole' : jsstring) :
  ic || caseless r = true ->
  forall t t' pos,
    same_letters t t' ->
    hit (exec_from ic r n whole pos t) = hit (exec_from ic r n whole' pos t').
Proof.
  intros Hc t. induction t as [|x t IH]; intros t' pos Ht;
    destruct t' as [|y t']; try discriminate Ht.
  - rewrite (exec_from_eq ic r n whole pos []),
            (exec_from_eq ic r n whole' pos []).
    assert (H := m_case ic r pos [] [] (replicate (S n) None)
                   (replicate (S n) None) finish finish Hc Ht alike_finish).
    unfold finish in H.
    match goal with
    | |- hit (match ?a with _ => _ end) = hit (match ?b with _ => _ end) =>
        destruct a as [[? ?]|], b as [[? ?]|]
    end; simpl in *; try reflexivity; try discriminate H.
  - rewrite (exec_from_eq ic r n whole pos (x :: t)),
            (exec_from_eq ic r n whole' pos (y :: t')).
    assert (H := m_case ic r pos (x :: t) (y :: t') (replicate (S n) None)
                   (replicate (S n) None) finish finish Hc Ht alike_finish).
    unfold finish in H.
    specialize (IH t' (S pos) (same_letters_tail _ _ _ _ Ht)).
    match goal with
    | |- hit (match ?a with _ => _ end) = hit (match ?b with _ => _ end) =>
        destruct a as [[? ?]|], b as [[? ?]|]
    end; simpl in *; try reflexivity; try exact IH; discriminate H.
Qed.

Lemma matches_case (r : rule) (t t' : jsstring) :
  ignoreCase r || caseless (pattern r) = true ->
  same_letters t t' ->
  hit (matches r t) = hit (matches r t').
Proof. intros Hc Ht. apply exec_from_case; assumption. Qed.

Lemma patterns_caseless :
  Forall (fun r => ignoreCase r || caseless (pattern r) = true) patterns.
Proof. repeat (apply Forall_cons; split; [reflexivity|]). constructor. Qed.

Lemma upper_space (x : N) : isWhiteSpace (upper x) = isWhiteSpace x.
Proof.
  destruct (is_letter x) eqn:L.
  - assert (Lu : is_letter (upper x) = true).
    { destruct (upper_cases (upper x) x (upper_upper x)) as [->|[H _]];
        assumption. }
    destruct (letter_tests x L) as (_ & -> & _).
    destruct (letter_tests _ Lu) as (_ & -> & _). reflexivity.
  - unfold upper. unfold is_letter in L. apply orb_false_elim in L as [-> _].
    reflexivity.
Qed.

Lemma same_letters_space (x y : N) :
  upper x = upper y -> isWhiteSpace x = isWhiteSpace y.
Proof. intros H. rewrite <- (upper_space x), H. apply upper_space. Qed.

Lemma trimStart_case (t t' : jsstring) :
  same_letters t t' -> same_letters (trimStart t) (trimStart t').
Proof.
  revert t'. induction t as [|x t IH]; intros [|y t'] H; try discriminate H;
    [exact H|].
  simpl. injection H as Hxy Ht. rewrite (same_letters_space x y Hxy).
  destruct (isWhiteSpace y); [apply IH; exact Ht|].
  unfold same_letters. simpl. congruence.
Qed.

Lemma same_letters_rev (t t' : jsstring) :
  same_letters t t' -> same_letters (rev t) (rev t').
Proof. unfold same_letters. rewrite !map_rev. congruence. Qed.

Lemma trim_case (t t' : jsstring) :
  same_letters t t' -> same_letters (trim t) (trim t').
Proof.
  intros H. unfold trim, trimEnd.
  apply same_letters_rev, trimStart_case, same_letters_rev, trimStart_case, H.
Qed.

Lemma first_match_case (rules : list rule) (t t' : jsstring) :
  Forall (fun r => ignoreCase r || caseless (pattern r) = true) rules ->
  Forall (fun r => forall s mr, matches r s = Some mr ->
                   exists command, build r mr = Ret command) rules ->
  Forall (fun r => forall mr command,
            build r mr = Ret command -> kind command = VStr (type r)) rules ->
  same_letters t t' ->
  exists c c',
    first_match rules t = Ret c /\ first_match rules t' = Ret c'
    /\ kind c = kind c'.
Proof.
  intros H1 H2 H3 Ht.
  induction rules as [|r rules IH]; simpl.
  - eexists _, _. split; [reflexivity|]. split; reflexivity.
  - apply Forall_cons in H1 as [C1 H1]. apply Forall_cons in H2 as [C2 H2].
    apply Forall_cons in H3 as [C3 H3].
    pose proof (matches_case r t t' C1 Ht) as Hm.
    destruct (matches r t) as [mr|] eqn:E, (matches r t') as [mr'|] eqn:E';
      simpl in Hm; try discriminate Hm.
    + destruct (C2 _ _ E) as [c Hc]. destruct (C2 _ _ E') as [c' Hc'].
      exists c, c'. split; [exact Hc|]. split; [exact Hc'|].
      rewrite (C3 _ _ Hc), (C3 _ _ Hc'). reflexivity.
    + apply IH; assumption.
Qed.

(** X2.  The classification does not depend on the case of the ASCII
    letters: two inputs that differ in case only are both classified,
    and with the same kind.  (Every rule but the last has the [i] flag,
    and the last one matches a question mark.) *)
Theorem parse_ignores_case (input input' : jsstring) :
  same_letters input input' ->
  exists command command',
    parse input = Ret command /\ parse input' = Ret command'
    /\ kind command = kind command'.
Proof.
  intros H. apply first_match_case.
  - exact patterns_caseless.
  - exact build_returns.
  - exact build_kind.
  - apply trim_case. exact H.
Qed.

End Case.

Section CaseExamples.

Import CommandParser SessionManager BrainClient BrainREPL Utils.

(** Capitals in [git status]. *)
Lemma parse_ignores_case_witness :
  exists command command',
    parse (lit "GIT Status") = Ret command
    /\ parse (lit "git status") = Ret command'
    /\ kind command = kind command'.
Proof. apply parse_ignores_case. reflexivity. Defined.

End CaseExamples.

(* ================================================================== *)
(** * Rules that take everything *)
(* ================================================================== *)

Section Shadow.

Import CommandParser SessionManager BrainClient BrainREPL Utils.

(** A repetition succeeds as soon as it can stop somewhere with
    success. *)
Lemma star_hit (ic g : bool) (c : cls) (k : cont) (xs : jsstring) :
  forall s' pos cs,
    forallb (cls_match ic c) xs = true ->
    hit (k (pos + length xs)%nat s' cs) = true ->
    hit (star ic g c k pos (xs ++ s') cs) = true.
Proof.
  induction xs as [|x xs IH]; intros s' pos cs Hx Hk.
  - simpl in *. rewrite Nat.add_0_r in Hk.
    destruct s' as [|y s']; simpl; [exact Hk|].
    destruct (cls_match ic c y); [|exact Hk].
    destruct g.
    + destruct (star ic true c k (S pos) s' cs); [reflexivity|exact Hk].
    + destruct (k pos (y :: s') cs); [reflexivity|discriminate Hk].
  - simpl in Hx. apply andb_prop in Hx as [Hx Hxs].
    simpl. rewrite Hx.
    specialize (IH s' (S pos) cs Hxs).
    replace (S pos + length xs)%nat with (pos + length (x :: xs))%nat in IH
      by (simpl; lia).
    specialize (IH Hk).
    destruct g.
    + destruct (star ic true c k (S pos) (xs ++ s') cs);
        [reflexivity|discriminate IH].
    + destruct (k pos (x :: xs ++ s') cs); [reflexivity|exact IH].
Qed.

Lemma hit_seq ic r1 r2 pos s cs k :
  hit (m ic r1 pos s cs (fun p t c => m ic r2 p t c k)) = true ->
  hit (m ic (RSeq r1 r2) pos s cs k) = true.
Proof. intros H. exact H. Qed.

Lemma hit_char ic c x pos s cs k :
  cls_match ic c x = true -> hit (k (S pos) s cs) = true ->
  hit (m ic (RChar c) pos (x :: s) cs k) = true.
Proof. intros Hx H. simpl. rewrite Hx. exact H. Qed.

Lemma hit_star ic g c xs s' pos cs k :
  forallb (cls_match ic c) xs = true ->
  hit (k (pos + length xs)%nat s' cs) = true ->
  hit (m ic (RStar g c) pos (xs ++ s') cs k) = true.
Proof. apply star_hit. Qed.

Lemma hit_opt ic r pos s cs k :
  hit (k pos s cs) = true -> hit (m ic (ROpt r) pos s cs k) = true.
Proof.
  intros H. simpl.
  match goal with |- hit (match ?a with _ => _ end) = _ => destruct a end;
    [reflexivity|exact H].
Qed.

Lemma hit_group ic i r pos s cs k :
  hit (m ic r pos s cs
         (fun pos' s' cs' => k pos' s' (<[i := Some (take (pos' - pos) s)]> cs')))
  = true ->
  hit (m ic (RGroup i r) pos s cs k) = true.
Proof. intros H. exact H. Qed.

Lemma hit_eol ic pos cs k :
  hit (k pos [] cs) = true -> hit (m ic REol pos [] cs k) = true.
Proof. intros H. exact H. Qed.

Lemma hit_empty ic pos s cs k :
  hit (k pos s cs) = true -> hit (m ic REmpty pos s cs k) = true.
Proof. intros H. exact H. Qed.

(** A keyword matches itself. *)
Lemma m_str (w : string) :
  forall pos s cs k,
    m true (str w) pos (lit w ++ s) cs k = k (pos + String.length w)%nat s cs.
Proof.
  induction w as [|a w IH]; intros pos s cs k.
  - simpl. rewrite Nat.add_0_r. reflexivity.
  - change (str (String a w)) with (RSeq (chr a) (str w)).
    change (lit (String a w) ++ s) with (N_of_ascii a :: (lit w ++ s)).
    simpl m. rewrite N.eqb_refl. rewrite IH. f_equal. simpl. lia.
Qed.

Lemma hit_alt ic (r0 : regex) (rs : list regex) (r : regex) pos s cs k :
  In r (r0 :: rs) -> hit (m ic r pos s cs k) = true ->
  hit (m ic (alt r0 rs) pos s cs k) = true.
Proof.
  revert r0. induction rs as [|r1 rs IH]; intros r0 Hin H.
  - destruct Hin as [->|[]]. exact H.
  - simpl. destruct Hin as [->|Hin].
      destruct (m ic r pos s cs k); [reflexivity|discriminate H].
    + specialize (IH r1 Hin H).
      destruct (m ic r0 pos s cs k); [reflexivity|exact IH].
Qed.

Lemma hit_star_all ic c s pos cs k :
  forallb (cls_match ic c) s = true ->
  hit (k (pos + length s)%nat [] cs) = true ->
  hit (m ic (RStar true c) pos s cs k) = true.
Proof.
  intros Hs Hk. rewrite <- (app_nil_r s) at 1. apply hit_star; assumption.
Qed.

Lemma matches_bol_hit (r : rule) (t : jsstring) (r' : regex) :
  pattern r = RSeq RBol r' ->
  hit (m (ignoreCase r) r' 0 t (replicate (S (ngroups r)) None) finish) = true ->
  exists mr, matches r t = Some mr.
Proof.
  intros Hp H.
  destruct (m (ignoreCase r) r' 0 t (replicate (S (ngroups r)) None) finish)
    as [[e cs]|] eqn:E; [|discriminate H].
  eexists. eapply matches_bol_some; eassumption.
Qed.

(** The first and the fourth rule, on the lines they take. *)
Lemma read_rule_hit (w : string) (c : N) (ws y : jsstring) :
  In w ["read"; "show"; "cat"; "view"]%string ->
  isWhiteSpace c = true -> forallb isWhiteSpace ws = true ->
  y <> [] -> one_line y = true ->
  hit (m true
        (cat [alt (str "read") [str "show"; str "cat"; str "view"]; sp;
              opt [str "file"; sp]; RGroup 1 rest; REol])
        0 (lit w ++ c :: ws ++ y) (replicate 2 None) finish) = true.
Proof.
  intros Hw Hc Hws Hy Hl.
  cbn [cat fold_right]. apply hit_seq.
  apply (hit_alt _ _ _ (str w)).
  { simpl in Hw. simpl.
    destruct Hw as [<-|[<-|[<-|[<-|[]]]]]; tauto. }
  rewrite m_str. cbv beta.
  apply hit_seq. unfold sp, plus. apply hit_seq.
  apply hit_char; [exact Hc|]. apply hit_star; [exact Hws|]. cbv beta.
  apply hit_seq. unfold opt. apply hit_opt.
  apply hit_seq, hit_group. unfold rest, plus. apply hit_seq.
  destruct y as [|y0 y']; [contradiction|].
  simpl in Hl. apply andb_prop in Hl as [Hl0 Hl'].
  apply hit_char; [exact Hl0|].
  apply hit_star_all; [exact Hl'|]. cbv beta.
  apply hit_seq, hit_eol, hit_empty. reflexivity.
Qed.

Lemma list_rule_hit (w : string) (ws y : jsstring) :
  In w ["list"; "ls"; "dir"]%string ->
  forallb isWhiteSpace ws = true -> one_line y = true ->
  hit (m true
        (cat [alt (str "list") [str "ls"; str "dir"]; many CSpace;
              RGroup 1 (many CDot); REol])
        0 (lit w ++ ws ++ y) (replicate 2 None) finish) = true.
Proof.
  intros Hw Hws Hl.
  cbn [cat fold_right]. apply hit_seq.
  apply (hit_alt _ _ _ (str w)).
  { simpl in Hw. simpl.
    destruct Hw as [<-|[<-|[<-|[]]]]; tauto. }
  rewrite m_str. cbv beta.
  apply hit_seq. unfold many. apply hit_star; [exact Hws|]. cbv beta.
  apply hit_seq, hit_group.
  apply hit_star_all; [exact Hl|]. cbv beta.
  apply hit_seq, hit_eol, hit_empty. reflexivity.
Qed.

Lemma In_patterns_build (r : rule) (t : jsstring) (mr : matchres) :
  In r patterns -> matches r t = Some mr ->
  exists command, build r mr = Ret command /\ kind command = VStr (type r).
Proof.
  intros Hin Hm.
  destruct (proj1 (List.Forall_forall _ _) build_returns r Hin t mr Hm)
    as [command Hc].
  exists command. split; [exact Hc|].
  exact (proj1 (List.Forall_forall _ _) build_kind r Hin mr command Hc).
Qed.

Lemma first_match_read (w : string) (ws y : jsstring) :
  In w ["read"; "show"; "cat"; "view"]%string ->
  ws <> [] -> forallb isWhiteSpace ws = true ->
  y <> [] -> one_line y = true ->
  exists command,
    first_match patterns (lit w ++ ws ++ y) = Ret command
    /\ kind command = VStr (lit "read_file").
Proof.
  intros Hw Hne Hws Hy Hl.
  destruct ws as [|c ws]; [contradiction|].
  simpl in Hws. apply andb_prop in Hws as [Hc Hws].
  unfold patterns.
  match goal with
  | |- context [first_match (?r :: ?rs) ?t] =>
      destruct (matches_bol_hit r t _ eq_refl
                  (read_rule_hit w c ws y Hw Hc Hws Hy Hl)) as [mr Hm];
      rewrite (first_match_hit r rs t mr Hm);
      apply (In_patterns_build r t mr); [left; reflexivity|exact Hm]
  end.
Qed.

Lemma first_match_list (w : string) (ws y : jsstring) :
  In w ["list"; "ls"; "dir"]%string ->
  forallb isWhiteSpace ws = true -> one_line y = true ->
  exists command,
    first_match patterns (lit w ++ ws ++ y) = Ret command
    /\ kind command = VStr (lit "list_directory").
Proof.
  intros Hw Hws Hl.
  unfold patterns.
  assert (Hskip : forall r rs,
            (exists r', pattern r = RSeq RBol r'
                        /\ m (ignoreCase r) r' 0 (lit w ++ ws ++ y)
                             (replicate (S (ngroups r)) None) finish = None) ->
            first_match (r :: rs) (lit w ++ ws ++ y)
            = first_match rs (lit w ++ ws ++ y)).
  { intros r rs (r' & Hp & Hn). apply first_match_skip.
    eapply matches_bol_none; eassumption. }
  do 3 (rewrite Hskip;
        [|eexists; split; [reflexivity|];
          simpl in Hw; destruct Hw as [<-|[<-|[<-|[]]]];
          vm_compute; reflexivity]).
  match goal with
  | |- context [first_match (?r :: ?rs) ?t] =>
      destruct (matches_bol_hit r t _ eq_refl
                  (list_rule_hit w ws y Hw Hws Hl)) as [mr Hm];
      rewrite (first_match_hit r rs t mr Hm);
      apply (In_patterns_build r t mr);
        [right; right; right; left; reflexivity|exact Hm]
  end.
Qed.

Lemma kind_by_case (t t' : jsstring) (ty : jsstring) :
  same_letters t t' ->
  (exists c', first_match patterns t' = Ret c' /\ kind c' = VStr ty) ->
  exists c, first_match patterns t = Ret c /\ kind c = VStr ty.
Proof.
  intros Ht (c' & Hc' & Hk).
  destruct (first_match_case patterns t t' patterns_caseless build_returns
              build_kind Ht) as (c & c2 & Hc & Hc2 & Hkk).
  exists c. split; [exact Hc|]. rewrite Hkk.
  rewrite Hc' in Hc2. injection Hc2 as <-. exact Hk.
Qed.

(** X3.  The first rule takes every line made of [read], [show], [cat]
    or [view] (in any case), white space, and something more on the same
    line: whatever that is, the kind is [read_file].  So [show status],
    [show diff], [show log], [show structure], [show servers] and
    [show tools x] name a file to read, and none of them is the git,
    structure or server command of a later rule.  A [show] that follows
    another word is out of the reach of the first rule: [git show
    status] is left to the status rule. *)
Theorem read_verbs_shadow (input : jsstring) (w : string) (ws y : jsstring) :
  In w ["read"; "show"; "cat"; "view"]%string ->
  same_letters (trim input) (lit w ++ ws ++ y) ->
  ws <> [] -> forallb isWhiteSpace ws = true ->
  y <> [] -> one_line y = true ->
  exists command,
    parse input = Ret command /\ kind command = VStr (lit "read_file").
Proof.
  intros Hw Ht Hne Hws Hy Hl. unfold parse.
  apply (kind_by_case _ _ _ Ht).
  apply first_match_read; assumption.
Qed.

(** X4.  The fourth rule takes every line that starts with [list],
    [ls] or [dir] (in any case) and goes on, after white space or none,
    on the same line: the kind is [list_directory].  So [list servers]
    and [list tools from x] are directory listings, and so is any word
    that starts with [ls] or [dir]. *)
Theorem list_verbs_shadow (input : jsstring) (w : string) (ws y : jsstring) :
  In w ["list"; "ls"; "dir"]%string ->
  same_letters (trim input) (lit w ++ ws ++ y) ->
  forallb isWhiteSpace ws = true -> one_line y = true ->
  exists command,
    parse input = Ret command /\ kind command = VStr (lit "list_directory").
Proof.
  intros Hw Ht Hws Hl. unfold parse.
  apply (kind_by_case _ _ _ Ht).
  apply first_match_list; assumption.
Qed.

End Shadow.

Section ShadowExamples.

Import CommandParser SessionManager BrainClient BrainREPL Utils.

(** The [show] phrasings of the later rules, typed as they are written
    there: each of them names a file. *)
Lemma read_verbs_shadow_witness :
  (exists command,
     parse (lit "show status") = Ret command
     /\ kind command = VStr (lit "read_file"))
  /\ (exists command,
     parse (lit "show diff") = Ret command
     /\ kind command = VStr (lit "read_file"))
  /\ (exists command,
     parse (lit "show log") = Ret command
     /\ kind command = VStr (lit "read_file"))
  /\ (exists command,
     parse (lit "show structure") = Ret command
     /\ kind command = VStr (lit "read_file"))
  /\ (exists command,
     parse (lit "show servers") = Ret command
     /\ kind command = VStr (lit "read_file"))
  /\ (exists command,
     parse (lit "show tools x") = Ret command
     /\ kind command = VStr (lit "read_file")).
Proof.
  repeat split.
  - apply (read_verbs_shadow (lit "show status") "show"%string (lit " ")
             (lit "status"));
      [simpl; tauto|reflexivity|discriminate|reflexivity
      |discriminate|reflexivity].
  - apply (read_verbs_shadow (lit "show diff") "show"%string (lit " ")
             (lit "diff"));
      [simpl; tauto|reflexivity|discriminate|reflexivity
      |discriminate|reflexivity].
  - apply (read_verbs_shadow (lit "show log") "show"%string (lit " ")
             (lit "log"));
      [simpl; tauto|reflexivity|discriminate|reflexivity
      |discriminate|reflexivity].
  - apply (read_verbs_shadow (lit "show structure") "show"%string (lit " ")
             (lit "structure"));
      [simpl; tauto|reflexivity|discriminate|reflexivity
      |discriminate|reflexivity].
  - apply (read_verbs_shadow (lit "show servers") "show"%string (lit " ")
             (lit "servers"));
      [simpl; tauto|reflexivity|discriminate|reflexivity
      |discriminate|reflexivity].
  - apply (read_verbs_shadow (lit "show tools x") "show"%string (lit " ")
             (lit "tools x"));
      [simpl; tauto|reflexivity|discriminate|reflexivity
      |discriminate|reflexivity].
Defined.

(** A [show] behind another word: the line is a git command. *)
Example git_show_status :
  exists command,
    parse (lit "git show status") = Ret command
    /\ kind command = VStr (lit "git_status").
Proof. eexists. split; vm_compute; reflexivity. Qed.

(** [List servers] names a directory. *)
Lemma list_verbs_shadow_witness :
  exists command,
    parse (lit "List servers") = Ret command
    /\ kind command = VStr (lit "list_directory").
Proof.
  apply (list_verbs_shadow (lit "List servers") "list"%string (lit " ") (lit "servers"));
    [simpl; tauto|reflexivity|reflexivity|reflexivity].
Defined.

End ShadowExamples.

(* ================================================================== *)
(** * Keywords, categories and questions *)
(* ================================================================== *)

Section Keywords.

Import CommandParser SessionManager BrainClient BrainREPL Utils.

(** [startsWith] and [includes] look for a prefix and for a substring. *)
Lemma startsWith_spec (s p : jsstring) :
  startsWith s p = true <-> exists b, s = p ++ b.
Proof.
  revert s. induction p as [|y p IH]; intros [|x s]; simpl.
  - split; [intros _; exists []; reflexivity|reflexivity].
  - split; [intros _; exists (x :: s); reflexivity|reflexivity].
  - split; [discriminate|]. intros [b H]. discriminate H.
  - rewrite andb_true_iff, N.eqb_eq, IH. split.
    + intros [-> [b ->]]. exists b. reflexivity.
    + intros [b H]. injection H as -> ->. split; [reflexivity|].
      exists b. reflexivity.
Qed.

Lemma includes_spec (s p : jsstring) :
  includes s p = true <-> exists a b, s = a ++ p ++ b.
Proof.
  induction s as [|x s IH].
  - change (includes [] p) with (startsWith [] p || false).
    rewrite orb_false_r, startsWith_spec. split.
    + intros [b H]. exists [], b. exact H.
    + intros (a & b & H). destruct a as [|? a]; [exists b; exact H|].
      discriminate H.
  - change (includes (x :: s) p) with (startsWith (x :: s) p || includes s p).
    rewrite orb_true_iff, startsWith_spec, IH. split.
    + intros [[b H]|(a & b & H)].
      * exists [], b. exact H.
      * exists (x :: a), b. rewrite H. reflexivity.
    + intros (a & b & H). destruct a as [|c a].
      * left. exists b. exact H.
      * right. injection H as -> ->. exists a, b. reflexivity.
Qed.

(** X5.  [isDevelopmentCommand] is a search for substrings: it is true
    exactly when one of the eighteen keywords occurs somewhere in the
    lower-cased input, inside a word or not. *)
Theorem isDevelopmentCommand_spec (input : jsstring) :
  isDevelopmentCommand input = true
  <-> exists keyword a b,
        In keyword devKeywords /\ toLowerCase input = a ++ keyword ++ b.
Proof.
  unfold isDevelopmentCommand. rewrite existsb_exists. split.
  - intros (k & Hin & H). apply includes_spec in H as (a & b & H).
    exists k, a, b. split; assumption.
  - intros (k & a & b & Hin & H). exists k. split; [exact Hin|].
    apply includes_spec. exists a, b. exact H.
Qed.

Lemma category_in_spec (cats : list (jsstring * list jsstring)) (ty : jsstring) :
  (category_in cats ty = lit "unknown"
   /\ forall c types, In (c, types) cats -> ~ In ty types)
  \/ exists c types, In (c, types) cats /\ In ty types
                     /\ category_in cats ty = c.
Proof.
  induction cats as [|[c types] cats IH]; simpl.
  - left. split; [reflexivity|]. intros ? ? [].
  - destruct (existsb (Str.eqb ty) types) eqn:E.
    + right. exists c, types. split; [left; reflexivity|].
      split; [|reflexivity].
      apply existsb_exists in E as (k & Hin & Hk).
      apply eqb_eq in Hk. subst k. exact Hin.
    + destruct IH as [[H1 H2]|(c' & types' & H1 & H2 & H3)].
      * left. split; [exact H1|]. intros c0 types0 [Heq|Hin].
        -- injection Heq as <- <-. intros Hty.
           assert (existsb (Str.eqb ty) types = true); [|congruence].
           apply existsb_exists. exists ty. split; [exact Hty|apply eqb_refl].
        -- apply (H2 _ _ Hin).
      * right. exists c', types'. split; [right; exact H1|].
        split; assumption.
Qed.

End Keywords.

Section KeywordsExamples.

Import CommandParser SessionManager BrainClient BrainREPL Utils.

(** The [add] of an address. *)
Lemma isDevelopmentCommand_spec_witness :
  exists keyword a b,
    In keyword devKeywords
    /\ toLowerCase (lit "My Address") = a ++ keyword ++ b.
Proof. apply (proj1 (isDevelopmentCommand_spec (lit "My Address"))). reflexivity. Defined.

End KeywordsExamples.

Section Known.

Import CommandParser SessionManager BrainClient BrainREPL Utils.

Lemma categories_known :
  Forall (fun ct => fst ct <> lit "unknown"
                    /\ Forall (fun ty => In ty kinds /\ ty <> lit "unknown")
                         (snd ct)) categories.
Proof.
  repeat (apply Forall_cons; split;
          [split; [discriminate|];
           repeat (apply Forall_cons; split;
                   [split; [vm_compute; tauto|discriminate]|]);
           constructor|]).
  constructor.
Qed.

Lemma kinds_categorised :
  Forall (fun ty => ty = lit "unknown"
                    \/ exists c types, In (c, types) categories /\ In ty types)
    kinds.
Proof.
  assert (Hcat : forall ty i ct,
            categories !! i = Some ct -> In ty (snd ct) ->
            ty = lit "unknown"
            \/ exists c types, In (c, types) categories /\ In ty types).
  { intros ty i [c types] Hi Hty. right. exists c, types.
    split; [apply (lookup_In _ i); exact Hi|exact Hty]. }
  repeat (apply Forall_cons; split;
          [first [ left; reflexivity
                 | apply (Hcat _ 0%nat _ eq_refl); vm_compute; tauto
                 | apply (Hcat _ 1%nat _ eq_refl); vm_compute; tauto
                 | apply (Hcat _ 2%nat _ eq_refl); vm_compute; tauto
                 | apply (Hcat _ 3%nat _ eq_refl); vm_compute; tauto
                 | apply (Hcat _ 4%nat _ eq_refl); vm_compute; tauto ]|]).
  constructor.
Qed.

(** X6.  [getCommandCategory] answers [unknown] for the type [unknown]
    and for every type that is not a kind of the rule table, and for
    those only. *)
Theorem getCommandCategory_unknown (ty : jsstring) :
  getCommandCategory ty = lit "unknown"
  <-> (ty = lit "unknown" \/ ~ In ty kinds).
Proof.
  unfold getCommandCategory.
  destruct (category_in_spec categories ty)
    as [[H1 H2]|(c & types & H1 & H2 & H3)].
  - split; [intros _|intros _; exact H1].
    destruct (List.in_dec (List.list_eq_dec N.eq_dec) ty kinds) as [Hin|Hout];
      [|right; exact Hout].
    destruct (proj1 (List.Forall_forall _ _) kinds_categorised ty Hin)
      as [Hu|(c & types & Hc & Hty)]; [left; exact Hu|].
    destruct (H2 c types Hc Hty).
  - pose proof (proj1 (List.Forall_forall _ _) categories_known _ H1)
      as [Hc Htypes]. simpl in Hc, Htypes.
    pose proof (proj1 (List.Forall_forall _ _) Htypes _ H2) as [Hk Hu].
    rewrite H3. split; [intros E; destruct (Hc E)|].
    intros [E|E]; [destruct (Hu E)|destruct (E Hk)].
Qed.

(** A pattern that matches at the end of the input is found by the
    search. *)
Lemma exec_from_suffix_hit ic r n whole (pre s : jsstring) :
  forall pos,
    hit (m ic r (pos + length pre)%nat s (replicate (S n) None) finish) = true ->
    hit (exec_from ic r n whole pos (pre ++ s)) = true.
Proof.
  induction pre as [|x pre IH]; intros pos H.
  - change (length (@nil N)) with 0%nat in H. rewrite Nat.add_0_r in H.
    change ([] ++ s) with s. rewrite exec_from_eq.
    change finish with (fun (pos' : nat) (_ : jsstring) (cs : caps) =>
                          Some (pos', cs)) in H.
    destruct (m ic r pos s (replicate (S n) None)
                (fun pos' _ cs => Some (pos', cs))) as [[e cs]|];
      [reflexivity|discriminate H].
  - change ((x :: pre) ++ s) with (x :: (pre ++ s)).
    rewrite exec_from_eq.
    destruct (m ic r pos (x :: pre ++ s) (replicate (S n) None)
                (fun pos' _ cs => Some (pos', cs))) as [[e cs]|];
      [reflexivity|].
    apply IH. replace (S pos + length pre)%nat with (pos + length (x :: pre))%nat
      by (simpl; lia). exact H.
Qed.

Lemma exec_from_input ic r n whole :
  forall s pos mr, exec_from ic r n whole pos s = Some mr -> input mr = whole.
Proof.
  induction s as [|x s IH]; intros pos mr; rewrite exec_from_eq;
    destruct (m ic r pos _ (replicate (S n) None)
                (fun pos' _ cs => Some (pos', cs))) as [[e cs]|];
    intros H; try (injection H as <-; reflexivity); try discriminate H.
  exact (IH _ _ H).
Qed.

Lemma rules_known : Forall (fun r => type r <> lit "unknown") patterns.
Proof. repeat (apply Forall_cons; split; [discriminate|]). constructor. Qed.

Lemma first_match_app_none (l1 l2 : list rule) (t : jsstring) :
  (forall r, In r l1 -> matches r t = None) ->
  first_match (l1 ++ l2) t = first_match l2 t.
Proof.
  induction l1 as [|r l1 IH]; intros H; [reflexivity|].
  simpl. rewrite (H r (or_introl eq_refl)). apply IH.
  intros r' Hr'. apply H. right. exact Hr'.
Qed.

Lemma matched_known (t : jsstring) (r : rule) :
  In r patterns -> hit (matches r t) = true ->
  exists command ty,
    first_match patterns t = Ret command /\ kind command = VStr ty
    /\ ty <> lit "unknown".
Proof.
  intros Hin Hm.
  destruct (first_match_first patterns t)
    as [(i & r' & mr & Hi & Hmr & _ & Hf)|[Hnone _]].
  - apply lookup_In in Hi.
    destruct (In_patterns_build r' t mr Hi Hmr) as (command & Hb & Hk).
    exists command, (type r'). split; [rewrite Hf; exact Hb|].
    split; [exact Hk|].
    exact (proj1 (List.Forall_forall _ _) rules_known r' Hi).
  - rewrite (Hnone r Hin) in Hm. discriminate Hm.
Qed.

Lemma question_rule_hit (y : jsstring) :
  hit (matches question_rule (y ++ [63])) = true.
Proof.
  unfold matches, exec. apply exec_from_suffix_hit. reflexivity.
Qed.

Lemma patterns_last : patterns = removelast patterns ++ [question_rule].
Proof. reflexivity. Qed.

Lemma question_word_rule_hit (w : string) (ws y : jsstring) :
  In w question_words -> ws <> [] -> forallb isWhiteSpace ws = true ->
  hit (matches question_word_rule (lit w ++ ws ++ y)) = true.
Proof.
  intros Hw Hne Hws.
  destruct ws as [|c ws]; [contradiction|].
  simpl in Hws. apply andb_prop in Hws as [Hc Hws].
  assert (H : hit (m true
                     (cat [alt (str "what")
                             [str "how"; str "why"; str "when"; str "where";
                              str "who"; str "can"; str "could"; str "would";
                              str "should"; str "is"; str "are"; str "do";
                              str "does"; str "did"; str "will"; str "explain";
                              str "tell"; str "describe"]; sp])
                     0 (lit w ++ (c :: ws) ++ y) (replicate 1 None) finish)
                = true).
  { cbn [cat fold_right]. apply hit_seq.
    apply (hit_alt _ _ _ (str w)).
    { unfold question_words in Hw. simpl in Hw. simpl.
      repeat (destruct Hw as [<-|Hw]; [tauto|]). destruct Hw. }
    rewrite m_str. cbv beta.
    apply hit_seq. unfold sp, plus. apply hit_seq.
    apply hit_char; [exact Hc|]. apply hit_star; [exact Hws|]. cbv beta.
    apply hit_empty. reflexivity. }
  destruct (matches_bol_hit question_word_rule _ _ eq_refl H) as [mr ->].
  reflexivity.
Qed.

Lemma known_by_case (t t' : jsstring) :
  same_letters t t' ->
  (exists c' ty, first_match patterns t' = Ret c' /\ kind c' = VStr ty
                 /\ ty <> lit "unknown") ->
  exists c ty, first_match patterns t = Ret c /\ kind c = VStr ty
               /\ ty <> lit "unknown".
Proof.
  intros Ht (c' & ty & Hc' & Hk & Hu).
  destruct (first_match_case patterns t t' patterns_caseless build_returns
              build_kind Ht) as (c & c2 & Hc & Hc2 & Hkk).
  exists c, ty. split; [exact Hc|]. rewrite Hkk.
  rewrite Hc' in Hc2. injection Hc2 as <-. split; assumption.
Qed.

(** X7.  A question is never [unknown].  An input that ends, once
    trimmed, with a question mark is classified by some rule; when no
    rule but the last one matches, it is a [query] that carries the
    whole trimmed input.  So is an input that starts with a question
    word (in any case) followed by white space. *)
Theorem questions_are_known (input : jsstring) :
  (forall y, trim input = y ++ [63] ->
     (exists command ty,
         parse input = Ret command /\ kind command = VStr ty
         /\ ty <> lit "unknown")
     /\ ((forall r, In r (removelast patterns) ->
                    matches r (trim input) = None) ->
         parse input = Ret [(lit "type", VStr (lit "query"));
                            (lit "query", VStr (trim input))]))
  /\ (forall w ws y,
        In w question_words ->
        same_letters (trim input) (lit w ++ ws ++ y) ->
        ws <> [] -> forallb isWhiteSpace ws = true ->
        exists command ty,
          parse input = Ret command /\ kind command = VStr ty
          /\ ty <> lit "unknown").
Proof.
  split.
  - intros y Ht. split.
    + unfold parse. rewrite Ht.
      apply (matched_known _ question_rule); [|apply question_rule_hit].
      rewrite patterns_last. apply in_or_app. right. left. reflexivity.
    + intros Hnone. unfold parse. rewrite patterns_last.
      rewrite (first_match_app_none _ _ _ Hnone).
      pose proof (question_rule_hit y) as Hh. rewrite <- Ht in Hh.
      destruct (matches question_rule (trim input)) as [mr|] eqn:E;
        [|discriminate Hh].
      rewrite (first_match_hit _ _ _ _ E).
      unfold matches, exec in E. apply exec_from_input in E.
      unfold build. simpl. rewrite E. reflexivity.
  - intros w ws y Hw Ht Hne Hws. unfold parse.
    apply (known_by_case _ _ Ht).
    apply (matched_known _ question_word_rule).
    + apply (lookup_In _ 32%nat). reflexivity.
    + apply question_word_rule_hit; assumption.
Qed.

Lemma suggestCommand_among (input s : jsstring) :
  In s (suggestCommand input) ->
  In s [lit "read file.txt"; lit "edit src/app.js"; lit "list .";
        lit "git status"; lit "git diff";
        lit "commit " ++ [34] ++ lit "message" ++ [34];
        lit "analyze project"; lit "show structure"; lit "explain codebase";
        lit "connect server_name config_path";
        lit "list servers"; lit "list tools from server_name"].
Proof.
  unfold suggestCommand.
  repeat match goal with
  | |- context [if ?b then _ else _] => destruct b
  end;
  intros H; repeat (apply in_app_or in H as [H|H]);
  repeat (destruct H as [<-|H]; [simpl; tauto|]); destruct H.
Qed.

(** X8.  Every line [suggestCommand] proposes is a line [parse]
    classifies, with one of nine kinds; none of them is [unknown], and
    none is [get_project_structure], [list_servers] or [list_tools]:
    the lines proposed for these are read as a file to show and as
    directories to list. *)
Theorem suggestions_are_classified (input s : jsstring) :
  In s (suggestCommand input) ->
  exists command ty,
    parse s = Ret command /\ kind command = VStr ty
    /\ In ty suggested_kinds.
Proof.
  intros H. apply suggestCommand_among in H.
  revert s H. apply List.Forall_forall.
  repeat (apply Forall_cons; split;
          [eexists _, _; split; [vm_compute; reflexivity|];
           split; [reflexivity|vm_compute; tauto]|]).
  constructor.
Qed.

End Known.

Section KnownExamples.

Import CommandParser SessionManager BrainClient BrainREPL Utils.

(** A type the table does not know. *)
Lemma getCommandCategory_unknown_witness :
  getCommandCategory (lit "restart") = lit "unknown".
Proof.
  apply (proj2 (getCommandCategory_unknown (lit "restart"))). right.
  vm_compute. intuition discriminate.
Defined.

(** A question mark, and a question word. *)
Lemma questions_are_known_witness :
  (exists command ty,
      parse (lit "status?") = Ret command /\ kind command = VStr ty
      /\ ty <> lit "unknown")
  /\ (exists command ty,
        parse (lit "What now") = Ret command /\ kind command = VStr ty
        /\ ty <> lit "unknown").
Proof.
  split.
  - apply (proj1 (questions_are_known (lit "status?")) (lit "status")).
    reflexivity.
  - apply (proj2 (questions_are_known (lit "What now")) "what"%string (lit " ")
             (lit "now"));
      [simpl; tauto|reflexivity|discriminate|reflexivity].
Defined.

(** What is proposed for a project layout. *)
Lemma suggestions_are_classified_witness :
  In (lit "show structure") (suggestCommand (lit "project layout"))
  /\ exists command ty,
       parse (lit "show structure") = Ret command /\ kind command = VStr ty
       /\ In ty suggested_kinds.
Proof.
  assert (H : In (lit "show structure") (suggestCommand (lit "project layout"))).
  { right. left. reflexivity. }
  split; [exact H|].
  apply (suggestions_are_classified (lit "project layout")). exact H.
Defined.

End KnownExamples.

Section Trimmed.

Import CommandParser SessionManager BrainClient BrainREPL Utils.

Lemma matches_input (r : rule) (t : jsstring) (mr : matchres) :
  matches r t = Some mr -> input mr = t.
Proof. unfold matches, exec. apply exec_from_input. Qed.

Lemma or_dot_trim (s : jsstring) (p : jsstring) :
  or_dot (VStr (trim s)) = VStr p -> trim p = p.
Proof.
  unfold or_dot. destruct (truthy (VStr (trim s))); intros [= <-];
    [apply trim_trim|reflexivity].
Qed.

Lemma build_trimmed :
  Forall (fun r => forall t mr command,
            matches r t = Some mr -> build r mr = Ret command ->
            forall k p, In k trimmed_fields -> get k command = VStr p ->
                        trim p = p \/ p = t) patterns.
Proof.
  repeat (apply Forall_cons; split;
    [intros t mr command Hm Hb k p Hk Hg;
     pose proof (matches_input _ _ _ Hm) as Hi;
     unfold build in Hb; cbn [extract mk] in Hb;
     unfold filePath_trim, path_trim, pattern_directory, filePath_opt,
       limit_of, files_of, message_of, symbol_filePath, symbol_of,
       serverId_config, serverId_of, query_trim, query_input,
       CommandParser.bind, grp_trim, grp_trim_opt, grp in Hb;
     repeat match type of Hb with
     | context [group ?i mr] => destruct (group i mr)
     end;
     try discriminate Hb;
     injection Hb as <-;
     unfold trimmed_fields in Hk; simpl in Hk;
     repeat (destruct Hk as [<-|Hk];
             [first [ discriminate Hg
                    | left; injection Hg as <-; apply trim_trim
                    | left; apply (or_dot_trim _ _ Hg)
                    | right; injection Hg as <-; exact Hi
                    | idtac ]|]);
     try destruct Hk|]).
  constructor.
Qed.

(** X9.  The paths and the queries of a command are trimmed: whenever
    [parse] returns a command whose [filePath], [path], [config] or
    [query] is a string, that string has no white space at either
    end. *)
Theorem parse_fields_trimmed (input : jsstring) (command : jsobj)
    (k p : jsstring) :
  parse input = Ret command ->
  In k trimmed_fields -> get k command = VStr p ->
  trim p = p.
Proof.
  intros Hp Hk Hg.
  destruct (parse_cases input)
    as [(i & r & mr & c & Hi & Hm & _ & Hb & _ & Hc)|[_ Hu]].
  - rewrite Hp in Hc. injection Hc as <-.
    apply lookup_In in Hi.
    destruct (proj1 (List.Forall_forall _ _) build_trimmed r Hi _ _ _ Hm Hb
                k p Hk Hg) as [H| ->]; [exact H|apply trim_trim].
  - rewrite Hp in Hu. injection Hu as ->.
    unfold trimmed_fields in Hk. simpl in Hk.
    repeat (destruct Hk as [<-|Hk]; [discriminate Hg|]). destruct Hk.
Qed.

End Trimmed.

Section TrimmedExamples.

Import CommandParser SessionManager BrainClient BrainREPL Utils.

(** A file name between blanks. *)
Lemma parse_fields_trimmed_witness :
  parse (lit "read   notes.txt  ")
  = Ret [(lit "type", VStr (lit "read_file"));
         (lit "filePath", VStr (lit "notes.txt"))]
  /\ trim (lit "notes.txt") = lit "notes.txt".
Proof.
  assert (H : parse (lit "read   notes.txt  ")
              = Ret [(lit "type", VStr (lit "read_file"));
                     (lit "filePath", VStr (lit "notes.txt"))])
    by (vm_compute; reflexivity).
  split; [exact H|].
  apply (parse_fields_trimmed _ _ (lit "filePath") _ H);
    [simpl; tauto|reflexivity].
Defined.

End TrimmedExamples.

(* ================================================================== *)
(** * More of the session store *)
(* ================================================================== *)

Section Sessions.

Import CommandParser SessionManager BrainClient BrainREPL Utils.

Lemma hexDigit_hex (d : N) : d < 16 -> is_hex (hexDigit d) = true.
Proof.
  intros H. unfold hexDigit, is_hex, isDigit. destruct (d <? 10) eqn:E.
  - apply N.ltb_lt in E. apply orb_true_intro. left.
    apply andb_true_intro. split; apply N.leb_le; lia.
  - apply N.ltb_ge in E. apply orb_true_intro. right.
    apply andb_true_intro. split; apply N.leb_le; lia.
Qed.

Lemma toHex_hex (bytes : list N) : forallb is_hex (toHex bytes) = true.
Proof.
  induction bytes as [|b bytes IH]; [reflexivity|].
  unfold toHex. simpl. fold (toHex bytes). rewrite IH.
  rewrite !hexDigit_hex; [reflexivity| |]; apply N.mod_lt; discriminate.
Qed.

Lemma toHex_length (bytes : list N) :
  length (toHex bytes) = (2 * length bytes)%nat.
Proof.
  induction bytes as [|b bytes IH]; [reflexivity|].
  unfold toHex. simpl. fold (toHex bytes). rewrite IH. lia.
Qed.

Lemma createSession_eq (bytes : list N) (w : world) :
  writable w = true ->
  let id := generateSessionId bytes in
  let doc := Json (VObj (new_session id (dates w (ticks w)))) in
  createSession bytes w
  = (Ret (VStr id),
     {| files := <[id := doc]> (files w); writable := writable w;
        dates := dates w; ticks := S (ticks w); ws := ws w;
        connected := connected w; isRunning := isRunning w;
        currentSessionId := currentSessionId w;
        trace := trace w ++ [Write id doc] |}).
Proof.
  intros Hw. unfold createSession, saveSession, Run.bind, now, try_catch,
    writeFile, lift, ret. simpl. rewrite Hw. reflexivity.
Qed.

Lemma new_session_recorded (w : world) (id created : jsstring) :
  files w !! id = Some (Json (VObj (new_session id created))) ->
  writable w = true ->
  recorded w id (new_session id created) [].
Proof. intros Hf Hw. split; [exact Hf|reflexivity|reflexivity|reflexivity|exact Hw]. Qed.

Lemma loadSession_absent (w : world) (sid : jsval) :
  files w !! toString sid = None -> loadSession sid w = (Ret VNull, w).
Proof.
  intros H. unfold loadSession, try_catch, Run.bind, readFile.
  rewrite H. reflexivity.
Qed.

Lemma addToHistory_absent (w : world) (sid : jsval) (entry : jsobj) :
  files w !! toString sid = None -> addToHistory sid entry w = (Ret tt, w).
Proof.
  intros H. unfold addToHistory, Run.bind.
  rewrite (loadSession_absent _ _ H). reflexivity.
Qed.

Lemma getHistory_absent (w : world) (sid : jsval) :
  files w !! toString sid = None -> getHistory sid w = (Ret (VArr []), w).
Proof.
  intros H. unfold getHistory, Run.bind.
  rewrite (loadSession_absent _ _ H). reflexivity.
Qed.

(** X10.  [createSession] on a store that can be written returns the
    id drawn, sixteen hexadecimal digits for eight bytes, and leaves
    under that id a well-formed record with an empty history, which
    [getHistory] reads back; no other file of the store changes. *)
Theorem createSession_recorded (bytes : list N) (w : world) :
  writable w = true ->
  let id := generateSessionId bytes in
  exists w',
    createSession bytes w = (Ret (VStr id), w')
    /\ recorded w' id (new_session id (dates w (ticks w))) []
    /\ getHistory (VStr id) w' = (Ret (VArr []), w')
    /\ (forall other, other <> id -> files w' !! other = files w !! other)
    /\ length id = (2 * length bytes)%nat
    /\ forallb is_hex id = true.
Proof.
  intros Hw id. eexists. split; [apply createSession_eq; exact Hw|].
  assert (R : recorded
                {| files := <[id := Json (VObj (new_session id (dates w (ticks w))))]> (files w);
                   writable := writable w;
                   dates := dates w; ticks := S (ticks w); ws := ws w;
                   connected := connected w; isRunning := isRunning w;
                   currentSessionId := currentSessionId w;
                   trace := trace w ++ [Write id (Json (VObj (new_session id (dates w (ticks w)))))] |}
                id (new_session id (dates w (ticks w))) []).
  { apply new_session_recorded; [apply lookup_insert_eq|exact Hw]. }
  split; [exact R|]. split; [apply (getHistory_recorded _ _ _ _ R)|].
  split; [|split; [apply toHex_length|apply toHex_hex]].
  intros other Ho. simpl. apply lookup_insert_ne.
  intros E. apply Ho. symmetry. exact E.
Qed.

(** X11.  [createSession] never fails.  On a store that cannot be
    written it still returns the id, after a warning; no file is made,
    and unless a file of that id was there already every later append
    under the id is dropped and the history reads as empty. *)
Theorem createSession_unwritable (bytes : list N) (w : world) :
  writable w = false ->
  let id := generateSessionId bytes in
  exists w',
    createSession bytes w = (Ret (VStr id), w')
    /\ files w' = files w
    /\ trace w' = trace w ++ [ErrOut "Failed to save session:" []]
    /\ (files w !! id = None ->
        forall entry,
          addToHistory (VStr id) entry w' = (Ret tt, w')
          /\ getHistory (VStr id) w' = (Ret (VArr []), w')).
Proof.
  intros Hw id. eexists. split.
  { unfold createSession, saveSession, Run.bind, now, try_catch,
      writeFile, lift, ret, say. simpl. rewrite Hw. reflexivity. }
  split; [reflexivity|]. split; [reflexivity|].
  intros Hn entry. split.
  - apply addToHistory_absent. exact Hn.
  - apply getHistory_absent. exact Hn.
Qed.

Lemma deleteSession_eq (w : world) (sid : jsstring) (t : text) :
  files w !! sid = Some t -> writable w = true ->
  deleteSession (VStr sid) w
  = (Ret true,
     {| files := delete sid (files w); writable := writable w;
        dates := dates w; ticks := ticks w; ws := ws w;
        connected := connected w; isRunning := isRunning w;
        currentSessionId := currentSessionId w; trace := trace w |}).
Proof.
  intros Hf Hw. unfold deleteSession, try_catch, Run.bind, unlink. simpl.
  rewrite Hf, Hw. reflexivity.
Qed.

Lemma deleteSession_absent (w : world) (sid : jsval) :
  files w !! toString sid = None -> deleteSession sid w = (Ret false, w).
Proof.
  intros Hf. unfold deleteSession, try_catch, Run.bind, unlink.
  rewrite Hf. reflexivity.
Qed.

(** X12.  [deleteSession] answers [true] when the file was there and
    could be removed, and then the session is gone: it loads as [null],
    its history reads as empty, an append to it does nothing and a
    second removal answers [false]; the other files stay.  It answers
    [false], and does nothing, when there is no such file. *)
Theorem deleteSession_forgets (w : world) (sid : jsstring) :
  (forall t,
      files w !! sid = Some t -> writable w = true ->
      exists w',
        deleteSession (VStr sid) w = (Ret true, w')
        /\ files w' = delete sid (files w)
        /\ trace w' = trace w
        /\ loadSession (VStr sid) w' = (Ret VNull, w')
        /\ getHistory (VStr sid) w' = (Ret (VArr []), w')
        /\ (forall entry, addToHistory (VStr sid) entry w' = (Ret tt, w'))
        /\ deleteSession (VStr sid) w' = (Ret false, w')
        /\ (forall other, other <> sid ->
                          files w' !! other = files w !! other))
  /\ (files w !! sid = None -> deleteSession (VStr sid) w = (Ret false, w)).
Proof.
  split.
  - intros t Hf Hw. eexists. split; [apply (deleteSession_eq w sid t Hf Hw)|].
    split; [reflexivity|]. split; [reflexivity|].
    assert (Hn : forall w0, files w0 = delete sid (files w) ->
                            files w0 !! toString (VStr sid) = None).
    { intros w0 ->. apply lookup_delete_eq. }
    split; [apply loadSession_absent, Hn; reflexivity|].
    split; [apply getHistory_absent, Hn; reflexivity|].
    split; [intros entry; apply addToHistory_absent, Hn; reflexivity|].
    split; [apply deleteSession_absent, Hn; reflexivity|].
    intros other Ho. simpl. apply lookup_delete_ne.
    intros E. apply Ho. symmetry. exact E.
  - intros Hf. apply deleteSession_absent. exact Hf.
Qed.

End Sessions.

Section SessionsExamples.

Import CommandParser SessionManager BrainClient BrainREPL Utils.

(** The first session of an empty store. *)
Lemma createSession_recorded_witness :
  exists w',
    createSession [1; 35; 69; 103; 137; 171; 205; 239] idle_world
    = (Ret (VStr (lit "0123456789abcdef")), w')
    /\ recorded w' (lit "0123456789abcdef")
         (new_session (lit "0123456789abcdef") []) []
    /\ getHistory (VStr (lit "0123456789abcdef")) w' = (Ret (VArr []), w').
Proof.
  destruct (createSession_recorded [1; 35; 69; 103; 137; 171; 205; 239]
              idle_world eq_refl) as (w' & H1 & H2 & H3 & _).
  exists w'. split; [exact H1|]. split; [exact H2|exact H3].
Defined.

(** A session that could not be saved. *)
Lemma createSession_unwritable_witness :
  exists w',
    createSession [1; 35; 69; 103; 137; 171; 205; 239] locked_world
    = (Ret (VStr (lit "0123456789abcdef")), w')
    /\ files w' = files locked_world
    /\ getHistory (VStr (lit "0123456789abcdef")) w' = (Ret (VArr []), w').
Proof.
  destruct (createSession_unwritable [1; 35; 69; 103; 137; 171; 205; 239]
              locked_world eq_refl) as (w' & H1 & H2 & _ & H4).
  exists w'. split; [exact H1|]. split; [exact H2|].
  apply (H4 eq_refl []).
Defined.

(** The one file of a store, removed. *)
Lemma deleteSession_forgets_witness :
  exists w',
    deleteSession (VStr (lit "0000")) torn_world = (Ret true, w')
    /\ files w' = delete (lit "0000") (files torn_world)
    /\ deleteSession (VStr (lit "0000")) w' = (Ret false, w').
Proof.
  destruct (proj1 (deleteSession_forgets torn_world (lit "0000")) Corrupt
              eq_refl eq_refl) as (w' & H1 & H2 & _ & _ & _ & _ & H7 & _).
  exists w'. split; [exact H1|]. split; [exact H2|exact H7].
Defined.

End SessionsExamples.

Section Appends.

Import CommandParser SessionManager BrainClient BrainREPL Utils.




End Appends.

Section AppendsExamples.

Import CommandParser SessionManager BrainClient BrainREPL Utils.



End AppendsExamples.

Section Listing.

Import CommandParser SessionManager BrainClient BrainREPL Utils.

(** The sort is a permutation, in descending order. *)
Lemma insert_desc_In {A} (key : A -> Z) (x y : A) (l : list A) :
  In y (insert_desc key x l) <-> y = x \/ In y l.
Proof.
  induction l as [|z l IH]; simpl.
  - split; [intros [<-|[]]; left; reflexivity|intros [->|[]]; left; reflexivity].
  - destruct (key z <=? key x)%Z; simpl.
    + split; [intros [<-|H]; [left; reflexivity|right; exact H]
             |intros [->|H]; [left; reflexivity|right; exact H]].
    + rewrite IH. split.
      * intros [<-|[->|H]]; [right; left|left|right; right]; auto.
      * intros [->|[<-|H]]; [right; left|left|right; right]; auto.
Qed.

Lemma sort_desc_In {A} (key : A -> Z) (y : A) (l : list A) :
  In y (sort_desc key l) <-> In y l.
Proof.
  induction l as [|x l IH]; simpl; [reflexivity|].
  rewrite insert_desc_In, IH. split; intros [H|H]; auto.
Qed.

Lemma insert_desc_length {A} (key : A -> Z) (x : A) (l : list A) :
  length (insert_desc key x l) = S (length l).
Proof.
  induction l as [|z l IH]; simpl; [reflexivity|].
  destruct (key z <=? key x)%Z; simpl; [reflexivity|]. rewrite IH. reflexivity.
Qed.

Lemma sort_desc_length {A} (key : A -> Z) (l : list A) :
  length (sort_desc key l) = length l.
Proof.
  induction l as [|x l IH]; simpl; [reflexivity|].
  rewrite insert_desc_length, IH. reflexivity.
Qed.

Lemma descending_cons {A} (key : A -> Z) (a : A) (l : list A) :
  descending key (a :: l) = true
  <-> (forall b, head l = Some b -> (key b <= key a)%Z)
      /\ descending key l = true.
Proof.
  destruct l as [|b l]; simpl.
  - split; [intros _; split; [discriminate|reflexivity]|reflexivity].
  - rewrite andb_true_iff, Z.leb_le. split.
    + intros [H1 H2]. split; [intros ? [= <-]; exact H1|exact H2].
    + intros [H1 H2]. split; [apply H1; reflexivity|exact H2].
Qed.

Lemma insert_desc_descending {A} (key : A -> Z) (x : A) (l : list A) :
  descending key l = true -> descending key (insert_desc key x l) = true.
Proof.
  induction l as [|z l IH]; intros H; [reflexivity|].
  cbn [insert_desc]. destruct (key z <=? key x)%Z eqn:E.
  - apply descending_cons. split; [|exact H].
    intros b [= <-]. apply Z.leb_le. exact E.
  - apply descending_cons in H as [H1 H2].
    apply descending_cons. split; [|apply IH; exact H2].
    intros b Hb. destruct l as [|y l]; cbn [insert_desc] in Hb.
    + injection Hb as <-. apply Z.leb_gt in E. lia.
    + destruct (key y <=? key x)%Z; injection Hb as <-.
      * apply Z.leb_gt in E. lia.
      * apply H1. reflexivity.
Qed.

Lemma sort_desc_descending {A} (key : A -> Z) (l : list A) :
  descending key (sort_desc key l) = true.
Proof.
  induction l as [|x l IH]; [reflexivity|].
  apply insert_desc_descending. exact IH.
Qed.

Lemma descending_head {A} (key : A -> Z) (a : A) (l : list A) :
  descending key (a :: l) = true ->
  forall b, In b (a :: l) -> (key b <= key a)%Z.
Proof.
  revert a. induction l as [|c l IH]; intros a H b [<-|Hb]; try lia.
  - destruct Hb.
  - apply descending_cons in H as [H1 H2].
    specialize (H1 c eq_refl). specialize (IH c H2 b Hb). lia.
Qed.

Lemma descending_take {A} (key : A -> Z) (n : nat) (l : list A) :
  descending key l = true -> descending key (take n l) = true.
Proof.
  revert n. induction l as [|a l IH]; intros [|n] H; try reflexivity.
  cbn [take]. apply descending_cons in H as [H1 H2].
  apply descending_cons. split; [|apply IH; exact H2].
  intros b Hb. apply H1. destruct l as [|c l]; [destruct n; discriminate|].
  destruct n; [discriminate|]. exact Hb.
Qed.

Lemma descending_map {A B} (f : A -> B) (key : B -> Z) (l : list A) :
  descending key (List.map f l) = descending (fun a => key (f a)) l.
Proof.
  induction l as [|a l IH]; [reflexivity|].
  destruct l as [|b l]; [reflexivity|].
  change (descending key (f a :: List.map f (b :: l))
          = ((key (f b) <=? key (f a))%Z
             && descending (fun a => key (f a)) (b :: l))).
  rewrite <- IH. reflexivity.
Qed.

Lemma startsWith_app (p b : jsstring) : startsWith (p ++ b) p = true.
Proof. apply startsWith_spec. exists b. reflexivity. Qed.

Lemma endsWith_json (sid : jsstring) :
  endsWith (file_of sid) (lit ".json") = true.
Proof.
  unfold endsWith, file_of. rewrite rev_app_distr. apply startsWith_app.
Qed.

(** No occurrence of [.json] starts inside the id and ends inside the
    extension. *)
Lemma no_straddle (x : jsstring) :
  x <> [] -> startsWith (x ++ lit ".json") (lit ".json") = true ->
  startsWith x (lit ".json") = true.
Proof.
  intros Hx.
  destruct x as [|a [|b [|c [|d [|e x]]]]]; [contradiction| | | | |];
    change (lit ".json") with [46; 106; 115; 111; 110]; cbn [app startsWith];
    repeat match goal with
    | |- context [?u =? ?v] =>
        lazymatch u with
        | N.pos _ => fail
        | _ => destruct (N.eqb_spec u v); [subst|cbn [andb]; intros; discriminate]
        end
    end; cbn; try discriminate.
  destruct x; intros; reflexivity.
Qed.

Lemma remove_first_file (sid : jsstring) :
  includes sid (lit ".json") = false ->
  remove_first (lit ".json") (file_of sid) = sid.
Proof.
  unfold file_of. induction sid as [|c sid IH]; intros H; [reflexivity|].
  change (includes (c :: sid) (lit ".json"))
    with (startsWith (c :: sid) (lit ".json") || includes sid (lit ".json")) in H.
  apply orb_false_elim in H as [H1 H2].
  change ((c :: sid) ++ lit ".json") with (c :: (sid ++ lit ".json")).
  cbn [remove_first].
  destruct (startsWith (c :: sid ++ lit ".json") (lit ".json")) eqn:E.
  - apply (no_straddle (c :: sid)) in E; [congruence|discriminate].
  - rewrite (IH H2). reflexivity.
Qed.

End Listing.

Section Latest.

Import CommandParser SessionManager BrainClient BrainREPL Utils.

Variable mtime : jsstring -> Z.

Lemma loadSession_stored (w : world) (sid : jsstring) :
  loadSession (VStr sid) w = (Ret (stored w sid), w).
Proof.
  unfold loadSession, stored, try_catch, Run.bind, readFile. simpl.
  destruct (files w !! sid) as [[|v]|]; reflexivity.
Qed.

Lemma filter_all {A} (f : A -> bool) (l : list A) :
  forallb f l = true -> List.filter f l = l.
Proof.
  induction l as [|x l IH]; simpl; [reflexivity|].
  intros H. apply andb_prop in H as [-> H]. rewrite (IH H). reflexivity.
Qed.

Lemma names_json (w : world) :
  List.filter (fun file => endsWith file (lit ".json")) (names_of w)
  = names_of w.
Proof.
  apply filter_all. apply forallb_forall. intros file H.
  apply in_map_iff in H as (kv & <- & _). apply endsWith_json.
Qed.

Lemma In_names (w : world) (file : jsstring) :
  In file (names_of w)
  <-> exists sid t, files w !! sid = Some t /\ file = file_of sid.
Proof.
  unfold names_of. rewrite in_map_iff. split.
  - intros ([sid t] & <- & H). exists sid, t. split; [|reflexivity].
    apply elem_of_map_to_list, list_elem_of_In. exact H.
  - intros (sid & t & H & ->). exists (sid, t). split; [reflexivity|].
    apply list_elem_of_In, elem_of_map_to_list. exact H.
Qed.

Lemma getLastSession_eq (w : world) :
  getLastSession mtime w
  = (Ret (match sort_desc (fun f => snd f)
                  (List.map
                     (fun file =>
                        ((file, remove_first (lit ".json") file), mtime file))
                     (names_of w)) with
          | ((_, sessionId), _) :: _ => VStr sessionId
          | [] => VNull
          end), w).
Proof.
  unfold getLastSession, try_catch, Run.bind, readdir, read, ret.
  change (List.map (fun kv => fst kv ++ lit ".json") (map_to_list (files w)))
    with (names_of w).
  rewrite names_json. reflexivity.
Qed.

Lemma getLastSession_empty (w : world) :
  files w = ∅ -> getLastSession mtime w = (Ret VNull, w).
Proof.
  intros He. rewrite getLastSession_eq. unfold names_of.
  rewrite He, map_to_list_empty. reflexivity.
Qed.

Lemma getLastSession_max (w : world) :
  files w <> ∅ -> plain_names w ->
  exists sid t,
    getLastSession mtime w = (Ret (VStr sid), w)
    /\ files w !! sid = Some t
    /\ forall other t',
         files w !! other = Some t' ->
         (mtime (file_of other) <= mtime (file_of sid))%Z.
Proof.
  intros Hne Hplain. rewrite getLastSession_eq.
  set (rows := List.map
                 (fun file =>
                    ((file, remove_first (lit ".json") file), mtime file))
                 (names_of w)).
  pose proof (sort_desc_descending (fun f : jsstring * jsstring * Z => snd f)
                rows) as Hd.
  assert (Hin : forall x, In x (sort_desc (fun f => snd f) rows)
                          <-> exists sid t, files w !! sid = Some t
                                /\ x = ((file_of sid, sid), mtime (file_of sid))).
  { intros x. rewrite sort_desc_In. unfold rows. rewrite in_map_iff. split.
    - intros (file & <- & H). apply In_names in H as (sid & t & H & ->).
      exists sid, t. split; [exact H|].
      rewrite (remove_first_file sid (Hplain _ _ H)). reflexivity.
    - intros (sid & t & H & ->). exists (file_of sid). split.
      + rewrite (remove_first_file sid (Hplain _ _ H)). reflexivity.
      + apply In_names. exists sid, t. split; [exact H|reflexivity]. }
  destruct (sort_desc (fun f => snd f) rows) as [|[[file id] mt] l] eqn:E.
  - exfalso. apply Hne. apply map_empty. intros sid.
    destruct (files w !! sid) as [t|] eqn:Es; [|reflexivity].
    destruct (proj2 (Hin ((file_of sid, sid), mtime (file_of sid)))).
    exists sid, t. split; [exact Es|reflexivity].
  - destruct (proj1 (Hin (file, id, mt)) (or_introl eq_refl))
      as (sid & t & Hs & Heq).
    injection Heq as -> -> ->. exists sid, t.
    split; [reflexivity|]. split; [exact Hs|].
    intros other t' Ho.
    apply (descending_head _ _ _ Hd
             ((file_of other, other), mtime (file_of other))).
    apply Hin. exists other, t'. split; [exact Ho|reflexivity].
Qed.

(** X15.  [getLastSession] answers [null] for an empty directory.
    Otherwise, when no session id holds [.json] itself, it answers the
    id of a file of the directory, and no file was modified later than
    that one. *)
Theorem getLastSession_latest (w : world) :
  (files w = ∅ -> getLastSession mtime w = (Ret VNull, w))
  /\ (files w <> ∅ -> plain_names w ->
      exists sid t,
        getLastSession mtime w = (Ret (VStr sid), w)
        /\ files w !! sid = Some t
        /\ forall other t',
             files w !! other = Some t' ->
             (mtime (file_of other) <= mtime (file_of sid))%Z).
Proof.
  split; [apply getLastSession_empty|apply getLastSession_max].
Qed.

End Latest.

Section LatestExamples.

Import CommandParser SessionManager BrainClient BrainREPL Utils.

(** The sample store has one file, and its name is plain. *)
Lemma sample_plain : plain_names sample_world.
Proof.
  intros sid t H. unfold sample_world in H. cbn [files] in H.
  apply lookup_singleton_Some in H as [<- _]. reflexivity.
Qed.

Lemma sample_only (sid : jsstring) (t : text) :
  files sample_world !! sid = Some t -> sid = lit "a1b2c3d4e5f60718".
Proof.
  intros H. unfold sample_world in H. cbn [files] in H.
  apply lookup_singleton_Some in H as [<- _]. reflexivity.
Qed.

(** The one session of the sample store. *)
Lemma getLastSession_latest_witness :
  exists sid t,
    getLastSession (fun _ => 0%Z) sample_world = (Ret (VStr sid), sample_world)
    /\ files sample_world !! sid = Some t.
Proof.
  destruct (proj2 (getLastSession_latest (fun _ => 0%Z) sample_world))
    as (sid & t & H1 & H2 & _).
  - intros E.
    assert (H : files sample_world !! lit "a1b2c3d4e5f60718" = None)
      by (rewrite E; apply lookup_empty).
    discriminate H.
  - exact sample_plain.
  - exists sid, t. split; assumption.
Defined.

End LatestExamples.

Section Rows.

Import CommandParser SessionManager BrainClient BrainREPL Utils.

Variable mtime : jsstring -> Z.

Lemma session_row_eq (w : world) (file : jsstring) :
  session_row mtime file w = (Ret (row_of mtime w file), w).
Proof.
  unfold session_row, Run.bind. rewrite loadSession_stored. reflexivity.
Qed.

Lemma map_M_rows (w : world) (l : list jsstring) :
  map_M (session_row mtime) l w = (Ret (List.map (row_of mtime w) l), w).
Proof.
  induction l as [|file l IH]; [reflexivity|].
  cbn [map_M]. unfold Run.bind at 1. rewrite session_row_eq.
  unfold Run.bind at 1. rewrite IH. reflexivity.
Qed.

Lemma listSessions_eq (limit : Z) (w : world) :
  listSessions mtime limit w
  = (Ret (List.map fst
            (slice_to limit
               (sort_desc snd (List.map (row_of mtime w) (names_of w))))),
     w).
Proof.
  unfold listSessions, try_catch. unfold Run.bind at 1.
  unfold readdir, read.
  change (List.map (fun kv => fst kv ++ lit ".json") (map_to_list (files w)))
    with (names_of w).
  rewrite names_json. unfold Run.bind. rewrite map_M_rows. reflexivity.
Qed.

Lemma take_In {A} (n : nat) (l : list A) (x : A) :
  In x (take n l) -> In x l.
Proof.
  revert n. induction l as [|a l IH]; intros [|n] H; try destruct H.
  - left. assumption.
  - right. apply (IH n). assumption.
Qed.

Lemma slice_to_In {A} (limit : Z) (l : list A) (x : A) :
  In x (slice_to limit l) -> In x l.
Proof.
  unfold slice_to. destruct (limit <? 0)%Z; apply take_In.
Qed.

Lemma slice_to_length {A} (limit : Z) (l : list A) :
  (length (slice_to limit l) <= length l)%nat
  /\ ((0 <= limit)%Z -> (length (slice_to limit l) <= Z.to_nat limit)%nat).
Proof.
  unfold slice_to. destruct (limit <? 0)%Z eqn:E; rewrite length_take.
  - apply Z.ltb_lt in E. split; lia.
  - split; lia.
Qed.

Lemma slice_to_all {A} (limit : Z) (l : list A) :
  (Z.of_nat (length l) <= limit)%Z -> slice_to limit l = l.
Proof.
  intros H. unfold slice_to.
  destruct (limit <? 0)%Z eqn:E; [apply Z.ltb_lt in E; lia|].
  apply take_ge. lia.
Qed.

Lemma slice_to_descending {A} (key : A -> Z) (limit : Z) (l : list A) :
  descending key l = true -> descending key (slice_to limit l) = true.
Proof.
  intros H. unfold slice_to. destruct (limit <? 0)%Z;
    apply descending_take; exact H.
Qed.

Lemma descending_ext {A} (key key' : A -> Z) (l : list A) :
  (forall a, In a l -> key a = key' a) ->
  descending key l = descending key' l.
Proof.
  induction l as [|a l IH]; intros H; [reflexivity|].
  destruct l as [|b l]; [reflexivity|].
  change (((key b <=? key a)%Z && descending key (b :: l))
          = ((key' b <=? key' a)%Z && descending key' (b :: l))).
  rewrite (H a), (H b), IH; [reflexivity| | |]; simpl; auto.
  intros c Hc. apply H. right. exact Hc.
Qed.

(** X16.  [listSessions] never fails and changes nothing.  It returns
    at most [limit] rows, and no more than there are files; the rows
    come latest modification first; every row is the row of a file of
    the directory; and when the limit leaves room for every file, the
    row of a well-formed record carries its id, its creation date and
    the length of its history. *)
Theorem listSessions_rows (limit : Z) (w : world) :
  exists rows,
    listSessions mtime limit w = (Ret rows, w)
    /\ (length rows <= size (files w))%nat
    /\ ((0 <= limit)%Z -> (length rows <= Z.to_nat limit)%nat)
    /\ descending modified_of rows = true
    /\ (forall row, In row rows ->
          exists sid t,
            files w !! sid = Some t
            /\ row = fst (row_of mtime w (file_of sid)))
    /\ (forall sid session h,
          files w !! sid = Some (Json (VObj session)) ->
          get (lit "history") session = VArr h ->
          includes sid (lit ".json") = false ->
          (Z.of_nat (size (files w)) <= limit)%Z ->
          In [(lit "id", VStr sid);
              (lit "created", get (lit "created") session);
              (lit "modified", VNum (Fin (mtime (file_of sid))));
              (lit "historyCount", VNum (Fin (Z.of_nat (length h))))]
             rows).
Proof.
  eexists. split; [apply listSessions_eq|].
  set (all := List.map (row_of mtime w) (names_of w)).
  assert (Hlen : length (sort_desc snd all) = size (files w)).
  { rewrite sort_desc_length. unfold all, names_of.
    rewrite !length_map. apply length_map_to_list. }
  split; [|split; [|split; [|split]]].
  - rewrite length_map, <- Hlen. apply slice_to_length.
  - intros Hl. rewrite length_map. apply slice_to_length. exact Hl.
  - rewrite descending_map.
    rewrite (descending_ext _ snd).
    + apply slice_to_descending, sort_desc_descending.
    + intros a Ha. apply slice_to_In, sort_desc_In in Ha.
      unfold all in Ha. apply in_map_iff in Ha as (file & <- & _).
      reflexivity.
  - intros row Hrow. apply in_map_iff in Hrow as (r & <- & Hr).
    apply slice_to_In, sort_desc_In in Hr. unfold all in Hr.
    apply in_map_iff in Hr as (file & <- & Hf).
    apply In_names in Hf as (sid & t & Hs & ->).
    exists sid, t. split; [exact Hs|reflexivity].
  - intros sid session h Hs Hh Hp Hl.
    rewrite slice_to_all by (rewrite Hlen; exact Hl).
    apply in_map_iff. exists (row_of mtime w (file_of sid)). split.
    + unfold row_of. rewrite (remove_first_file sid Hp).
      unfold stored. rewrite Hs. cbn [fst opt_prop prop]. rewrite Hh.
      unfold opt_prop. cbn [prop]. rewrite eqb_refl. unfold or_zero. cbn [truthy].
      destruct (Z.of_nat (length h) =? 0)%Z eqn:E; [|reflexivity].
      apply Z.eqb_eq in E. rewrite E. reflexivity.
    + apply sort_desc_In. unfold all. apply in_map_iff.
      exists (file_of sid). split; [reflexivity|].
      apply In_names. exists sid, (Json (VObj session)).
      split; [exact Hs|reflexivity].
Qed.

End Rows.

Section RowsExamples.

Import CommandParser SessionManager BrainClient BrainREPL Utils.

(** The row of the sample session. *)
Lemma listSessions_rows_witness :
  exists rows,
    listSessions (fun _ => 0%Z) 10 sample_world = (Ret rows, sample_world)
    /\ In [(lit "id", VStr (lit "a1b2c3d4e5f60718"));
           (lit "created", VStr (lit "2025-01-01T00:00:00.000Z"));
           (lit "modified", VNum (Fin 0));
           (lit "historyCount", VNum (Fin 1))] rows.
Proof.
  destruct (listSessions_rows (fun _ => 0%Z) 10 sample_world)
    as (rows & H1 & _ & _ & _ & _ & H6).
  exists rows. split; [exact H1|].
  apply (H6 (lit "a1b2c3d4e5f60718") sample_session _ eq_refl eq_refl eq_refl).
  vm_compute. discriminate.
Defined.

End RowsExamples.

(* ================================================================== *)
(** * The socket while a line or a frame is handled *)
(* ================================================================== *)

(** The head constant of a computation. *)
Ltac head_of t :=
  lazymatch t with
  | ?f _ => head_of f
  | _ => t
  end.

(** One step through the structure of a computation; [leaf] closes the
    effects. *)
Ltac walk_step leaf :=
  lazymatch goal with
  | |- forall _, _ => intro
  | |- keeps _ (Run.bind _ _) => apply keeps_bind; [assumption| |]
  | |- keeps _ (try_catch _ _) => apply keeps_try; [assumption| |]
  | |- keeps _ (ret _) => apply keeps_ret; assumption
  | |- keeps _ (throw _) => apply keeps_throw; assumption
  | |- keeps _ (read _) => apply keeps_read; assumption
  | |- keeps _ (lift _) => apply keeps_lift; assumption
  | |- keeps _ (of_outcome _) => apply keeps_of_outcome; assumption
  | |- keeps _ (readFile _) => apply keeps_readFile; assumption
  | |- keeps _ (for_each _ _) =>
      apply keeps_for_each; [assumption|assumption|]
  | |- keeps _ (if ?b then _ else _) => destruct b
  | |- keeps _ (match ?x with _ => _ end) => destruct x
  | |- keeps _ ?c => first [ leaf | let h := head_of c in unfold h ]
  end.

Ltac walk leaf := repeat walk_step leaf.

Section Offline.

Import CommandParser SessionManager BrainClient BrainREPL Utils.

Lemma only_refl P w : only P w w.
Proof. exists []. split; [symmetry; apply app_nil_r|reflexivity]. Qed.

Lemma only_trans P a b c : only P a b -> only P b c -> only P a c.
Proof.
  intros (e1 & H1 & F1) (e2 & H2 & F2). exists (e1 ++ e2).
  split; [rewrite H2, H1, app_assoc; reflexivity|].
  rewrite forallb_app, F1, F2. reflexivity.
Qed.

Lemma only_same P (w w' : world) : trace w' = trace w -> only P w w'.
Proof. intros H. exists []. split; [rewrite H; symmetry; apply app_nil_r|reflexivity]. Qed.

Lemma offline_refl w : offline w w.
Proof. intros H. split; [exact H|apply only_refl]. Qed.

Lemma offline_trans a b c : offline a b -> offline b c -> offline a c.
Proof.
  intros H1 H2 Ha. destruct (H1 Ha) as [Hb O1]. destruct (H2 Hb) as [Hc O2].
  split; [exact Hc|]. eapply only_trans; eassumption.
Qed.

Lemma offline_say (e : event) : going e = true -> keeps offline (say e).
Proof.
  intros He w Hc. split; [exact Hc|]. exists [e]. split; [reflexivity|].
  simpl. rewrite He. reflexivity.
Qed.

Lemma offline_now : keeps offline now.
Proof. intros w Hc. split; [exact Hc|apply only_same; reflexivity]. Qed.

Lemma offline_writeFile name t : keeps offline (writeFile name t).
Proof.
  intros w Hc. unfold writeFile. destruct (writable w); simpl.
  - split; [exact Hc|]. exists [Write name t]. split; reflexivity.
  - split; [exact Hc|apply only_refl].
Qed.

Lemma offline_set_connected : keeps offline (set_connected false).
Proof. intros w Hc. split; [reflexivity|apply only_same; reflexivity]. Qed.

Lemma offline_set_isRunning b : keeps offline (set_isRunning b).
Proof. intros w Hc. split; [exact Hc|apply only_same; reflexivity]. Qed.

Lemma offline_sendCommand command params :
  keeps offline (sendCommand command params).
Proof.
  intros w Hc. unfold sendCommand, Run.bind, read. rewrite Hc. simpl.
  split; [exact Hc|apply only_refl].
Qed.

Ltac offline_leaf :=
  idtac;
  lazymatch goal with
  | |- keeps _ (sendCommand _ _) => apply offline_sendCommand
  | |- keeps _ (say _) => apply offline_say; reflexivity
  | |- keeps _ now => apply offline_now
  | |- keeps _ (writeFile _ _) => apply offline_writeFile
  | |- keeps _ (set_connected false) => apply offline_set_connected
  | |- keeps _ (set_isRunning _) => apply offline_set_isRunning
  end.

(** A line other than [exit] and [quit]: no part of the turn sends
    while the client is not connected, and none ends the process. *)
Lemma offline_processInput (line : jsstring) :
  leaving line = false -> keeps offline (processInput line).
Proof.
  intros Hl. unfold leaving in Hl. cbv zeta in Hl.
  pose proof offline_refl as Hrefl. pose proof offline_trans as Htrans.
  unfold processInput.
  apply keeps_bind; [assumption|apply keeps_read; assumption|]. intros sid.
  apply keeps_bind; [assumption|walk offline_leaf|]. intros _.
  cbv zeta. rewrite Hl. cbv iota.
  walk offline_leaf.
Qed.

Lemma ending_bind {A B} (c : M A) (f : A -> M B) :
  keeps offline c -> (forall a, ending (f a)) -> ending (Run.bind c f).
Proof.
  intros Hk Hf w Hc. unfold Run.bind. specialize (Hk w Hc).
  destruct (c w) as [[a|e] w1]; cbn [fst snd] in *;
    destruct Hk as [Hc1 O1]; [|split; assumption].
  specialize (Hf a w1 Hc1).
  destruct (f a w1) as [[b|e] w2]; cbn [fst snd] in *;
    destruct Hf as [Hc2 H]; (split; [exact Hc2|]).
  - destruct O1 as (e1 & T1 & F1). destruct H as (e2 & T2 & F2).
    exists (e1 ++ e2). split.
    + rewrite T2, T1, <- !app_assoc. reflexivity.
    + rewrite forallb_app, F1, F2. reflexivity.
  - eapply only_trans; eassumption.
Qed.

Lemma ending_exit : ending (say (Exit 0)).
Proof.
  intros w Hc. split; [exact Hc|]. exists []. split; reflexivity.
Qed.

(** [handleExit] ends the process when it returns, and by its last
    statement. *)
Lemma ending_handleExit : ending handleExit.
Proof.
  pose proof offline_refl as Hrefl. pose proof offline_trans as Htrans.
  unfold handleExit.
  apply ending_bind; [apply keeps_read; assumption|intros sid].
  apply ending_bind; [walk offline_leaf|intros _].
  apply ending_bind; [walk offline_leaf|intros _].
  apply ending_bind; [walk offline_leaf|intros _].
  apply ending_bind; [walk offline_leaf|intros _].
  apply ending_exit.
Qed.

Lemma ending_processInput (line : jsstring) :
  leaving line = true -> ending (processInput line).
Proof.
  intros Hl. unfold leaving in Hl. cbv zeta in Hl.
  pose proof offline_refl as Hrefl. pose proof offline_trans as Htrans.
  unfold processInput.
  apply ending_bind; [apply keeps_read; assumption|intros sid].
  apply ending_bind; [walk offline_leaf|intros _].
  cbv zeta. rewrite Hl. cbv iota.
  apply ending_handleExit.
Qed.

Lemma going_unsent (evs : list event) :
  forallb going evs = true -> forallb (fun e => negb (is_send e)) evs = true.
Proof.
  induction evs as [|e evs IH]; [reflexivity|]. simpl.
  intros H. apply andb_prop in H as [He H]. apply andb_prop in He as [-> _].
  exact (IH H).
Qed.

End Offline.

Section OfflineTurn.

Import CommandParser SessionManager BrainClient BrainREPL Utils.

(** X17.  While the client is not connected, no line makes a turn of
    the main loop fail, connect the client or write to the socket: the
    effects of the turn hold no [Send].  A line other than [exit] and
    [quit] does not end the process either, so the turn comes back to
    the prompt.  On [exit] and [quit] the turn ends in one of two ways:
    the process ends with code 0, as the last effect of the turn, or
    [handleExit] has thrown and the report of the error by the loop is
    the last effect, with the process going on. *)
Theorem offline_turn (w : world) (input : jsstring) :
  connected w = false ->
  exists w' evs,
    on_line input w = (Ret tt, w')
    /\ connected w' = false
    /\ trace w' = trace w ++ evs
    /\ forallb (fun e => negb (is_send e)) evs = true
    /\ (leaving (trim input) = false -> forallb going evs = true)
    /\ (leaving (trim input) = true ->
        exists evs0,
          forallb going evs0 = true
          /\ (evs = evs0 ++ [Exit 0] \/ evs = evs0 ++ [ErrOut "Error:" []])).
Proof.
  intros Hc. unfold on_line. destruct (trim input) as [|c line].
  - exists w, []. split; [reflexivity|]. split; [exact Hc|].
    split; [symmetry; apply app_nil_r|]. split; [reflexivity|].
    split; [reflexivity|]. discriminate.
  - unfold try_catch. destruct (leaving (c :: line)) eqn:Hl.
    + pose proof (ending_processInput (c :: line) Hl w Hc) as [Hc' H].
      destruct (processInput (c :: line) w) as [[[]|e] w1];
        cbn [fst snd] in *.
      * destruct H as (evs0 & Ht & Hf).
        exists w1, (evs0 ++ [Exit 0]). split; [reflexivity|].
        split; [exact Hc'|]. split; [exact Ht|].
        split; [rewrite forallb_app, (going_unsent _ Hf); reflexivity|].
        split; [discriminate|]. intros _. exists evs0.
        split; [exact Hf|left; reflexivity].
      * destruct H as (evs & Ht & Hf).
        eexists _, (evs ++ [ErrOut "Error:" []]). split; [reflexivity|].
        split; [exact Hc'|]. simpl. rewrite Ht, app_assoc.
        split; [reflexivity|].
        assert (Hg : forallb going (evs ++ [ErrOut "Error:" []]) = true)
          by (rewrite forallb_app, Hf; reflexivity).
        split; [exact (going_unsent _ Hg)|].
        split; [discriminate|]. intros _. exists evs.
        split; [exact Hf|right; reflexivity].
    + pose proof (offline_processInput (c :: line) Hl w Hc)
        as [Hc' (evs & Ht & Hf)].
      destruct (processInput (c :: line) w) as [[[]|e] w1];
        cbn [fst snd] in *.
      * exists w1, evs. split; [reflexivity|]. split; [exact Hc'|].
        split; [exact Ht|]. split; [exact (going_unsent _ Hf)|].
        split; [intros _; exact Hf|discriminate].
      * eexists _, (evs ++ [ErrOut "Error:" []]). split; [reflexivity|].
        split; [exact Hc'|]. simpl. rewrite Ht, app_assoc.
        split; [reflexivity|].
        assert (Hg : forallb going (evs ++ [ErrOut "Error:" []]) = true)
          by (rewrite forallb_app, Hf; reflexivity).
        split; [exact (going_unsent _ Hg)|].
        split; [intros _; exact Hg|discriminate].
Qed.

End OfflineTurn.

Section InboundFrames.

Import CommandParser SessionManager BrainClient BrainREPL Utils.

Lemma inbound_refl w : inbound w w.
Proof. repeat split; apply only_refl. Qed.

Lemma inbound_trans a b c : inbound a b -> inbound b c -> inbound a c.
Proof.
  intros (A1 & A2 & A3 & A4 & A5) (B1 & B2 & B3 & B4 & B5).
  split; [congruence|]. split; [congruence|]. split; [congruence|].
  split; [congruence|]. eapply only_trans; eassumption.
Qed.

Lemma inbound_say (e : event) : silent e = true -> keeps inbound (say e).
Proof.
  intros He w. repeat split. exists [e]. split; [reflexivity|].
  simpl. rewrite He. reflexivity.
Qed.

Lemma inbound_now : keeps inbound now.
Proof. intros w. repeat split. apply only_same. reflexivity. Qed.

Lemma inbound_writeFile name t : keeps inbound (writeFile name t).
Proof.
  intros w. unfold writeFile. destruct (writable w); simpl.
  - repeat split. exists [Write name t]. split; reflexivity.
  - apply inbound_refl.
Qed.

Ltac inbound_leaf :=
  idtac;
  lazymatch goal with
  | |- keeps _ (say _) => apply inbound_say; reflexivity
  | |- keeps _ now => apply inbound_now
  | |- keeps _ (writeFile _ _) => apply inbound_writeFile
  end.

Lemma inbound_handlers :
  Forall (fun lh => forall data, keeps inbound (snd lh data)) dispatch_table.
Proof.
  pose proof inbound_refl as Hrefl. pose proof inbound_trans as Htrans.
  repeat (apply Forall_cons; split; [cbn [snd]; walk inbound_leaf|]).
  constructor.
Qed.

Lemma inbound_repl_handleMessage message :
  keeps inbound (BrainREPL.handleMessage message).
Proof.
  pose proof inbound_refl as Hrefl. pose proof inbound_trans as Htrans.
  walk inbound_leaf.
Qed.

Lemma inbound_handleMessage message :
  keeps inbound (BrainClient.handleMessage [BrainREPL.handleMessage] message).
Proof.
  pose proof inbound_refl as Hrefl. pose proof inbound_trans as Htrans.
  assert (Hh : forall type data,
            keeps inbound
              (match handler_of type with
               | Some h => h data
               | None => say (Out "Unknown message type:" [type])
               end)).
  { intros type data. destruct (handler_of type) as [h|] eqn:E.
    - apply handler_in_table in E as (label & Hin & _).
      exact (proj1 (List.Forall_forall _ _) inbound_handlers _ Hin data).
    - apply inbound_say. reflexivity. }
  assert (He : keeps inbound (emit [BrainREPL.handleMessage] message)).
  { unfold emit. apply keeps_bind; [assumption| |].
    - apply inbound_say. reflexivity.
    - intros _. cbn [for_each]. apply keeps_bind; [assumption| |].
      + apply inbound_repl_handleMessage.
      + intros _. apply keeps_ret. assumption. }
  unfold BrainClient.handleMessage.
  destruct message; try (apply keeps_throw; assumption);
    (apply keeps_bind; [assumption|apply Hh|intros _; exact He]).
Qed.

(** X18.  Whatever arrives on the socket, the listener returns: a text
    that is no JSON, a frame no handler accepts and a failing listener
    all end in one line on the error console.  Handling a frame never
    writes to the socket, never closes it and never ends the process,
    and it leaves the state of the client, the loop and the active
    session as they were. *)
Theorem inbound_frame_silent (data : text) (w : world) :
  exists w' evs,
    on_frame data w = (Ret tt, w')
    /\ ws w' = ws w /\ connected w' = connected w
    /\ isRunning w' = isRunning w
    /\ currentSessionId w' = currentSessionId w
    /\ trace w' = trace w ++ evs /\ forallb silent evs = true.
Proof.
  unfold on_frame, on_message, try_catch.
  assert (H : keeps inbound
                (message <- of_outcome (JSON_parse data) ;;
                 BrainClient.handleMessage [BrainREPL.handleMessage] message)).
  { apply keeps_bind; [exact inbound_trans| |].
    - apply keeps_of_outcome. exact inbound_refl.
    - intros message. apply inbound_handleMessage. }
  specialize (H w).
  destruct ((message <- of_outcome (JSON_parse data) ;;
             BrainClient.handleMessage [BrainREPL.handleMessage] message) w)
    as [[[]|e] w1]; simpl in H;
    destruct H as (H1 & H2 & H3 & H4 & evs & Ht & Hf).
  - exists w1, evs. repeat split; assumption.
  - eexists _, (evs ++ [ErrOut "Failed to parse message:" []]).
    split; [reflexivity|]. simpl. rewrite Ht, app_assoc.
    repeat split; try assumption. rewrite forallb_app, Hf. reflexivity.
Qed.

End InboundFrames.

Section InboundFramesExamples.

Import CommandParser SessionManager BrainClient BrainREPL Utils.

(** A git command and [exit], typed before any connection. *)
Lemma offline_turn_witness :
  (exists w' evs,
     on_line (lit "git status") idle_world = (Ret tt, w')
     /\ connected w' = false
     /\ trace w' = trace idle_world ++ evs
     /\ forallb (fun e => negb (is_send e)) evs = true
     /\ (leaving (trim (lit "git status")) = false ->
         forallb going evs = true)
     /\ (leaving (trim (lit "git status")) = true ->
         exists evs0,
           forallb going evs0 = true
           /\ (evs = evs0 ++ [Exit 0]
               \/ evs = evs0 ++ [ErrOut "Error:" []])))
  /\ (exists w' evs,
        on_line (lit "exit") idle_world = (Ret tt, w')
        /\ connected w' = false
        /\ trace w' = trace idle_world ++ evs
        /\ forallb (fun e => negb (is_send e)) evs = true
        /\ (leaving (trim (lit "exit")) = false ->
            forallb going evs = true)
        /\ (leaving (trim (lit "exit")) = true ->
            exists evs0,
              forallb going evs0 = true
              /\ (evs = evs0 ++ [Exit 0]
                  \/ evs = evs0 ++ [ErrOut "Error:" []]))).
Proof. split; apply offline_turn; reflexivity. Defined.

End InboundFramesExamples.

(* ================================================================== *)
(** * What a turn does with a line *)
(* ================================================================== *)

Section Turns.

Import CommandParser SessionManager BrainClient BrainREPL Utils.

Lemma after_after (w : world) (a b : list event) :
  after (after w a) b = after w (a ++ b).
Proof. unfold after. simpl. rewrite <- app_assoc. reflexivity. Qed.

Lemma sendCommand_connected (w : world) command params :
  connected w = true -> ws w = true ->
  sendCommand command params w
  = (Ret tt,
     after w [Send (JSON_stringify (VObj (message_of command params)))]).
Proof.
  intros Hc Hs. unfold sendCommand, Run.bind, read.
  rewrite Hc. cbn [negb]. rewrite Hs. reflexivity.
Qed.

Lemma sendCommand_refused (w : world) command params :
  connected w = false ->
  sendCommand command params w = (Throw not_connected, w).
Proof.
  intros Hc. unfold sendCommand, Run.bind, read. rewrite Hc. reflexivity.
Qed.

Lemma sendQuery_connected (w : world) (q : jsstring) :
  connected w = true -> ws w = true ->
  sendQuery (VStr q) w
  = (Ret tt, after w [Out "Query:" [VStr q]; Send (query_frame q)]).
Proof.
  intros Hc Hs. unfold sendQuery, Run.bind.
  change (say (Out "Query:" [VStr q]) w)
    with (Ret tt, after w [Out "Query:" [VStr q]]).
  cbv beta iota.
  rewrite (sendCommand_connected (after w [Out "Query:" [VStr q]]) _ _ Hc Hs).
  rewrite after_after. reflexivity.
Qed.

Lemma sendQuery_refused (w : world) (q : jsval) :
  connected w = false ->
  sendQuery q w = (Throw not_connected, after w [Out "Query:" [q]]).
Proof.
  intros Hc. unfold sendQuery, Run.bind.
  change (say (Out "Query:" [q]) w) with (Ret tt, after w [Out "Query:" [q]]).
  cbv beta iota.
  rewrite (sendCommand_refused (after w [Out "Query:" [q]]) _ _ Hc).
  reflexivity.
Qed.

Lemma not_builtin (line : jsstring) (w : world) :
  builtin line = false ->
  (let lower := toLowerCase line in
   if Str.eqb lower (lit "exit") || Str.eqb lower (lit "quit")
   then handleExit
   else if Str.eqb lower (lit "help") then showHelp
   else if Str.eqb lower (lit "status") then showStatus
   else if Str.eqb lower (lit "clear") then say Clear
   else if Str.eqb lower (lit "history") then showHistory
   else if startsWith lower (lit "sessions") then showSessions
   else command <- of_outcome (parse line) ;; dispatch command line) w
  = (command <- of_outcome (parse line) ;; dispatch command line) w.
Proof.
  unfold builtin. cbv zeta. intros H.
  repeat (apply orb_false_elim in H as [H ?]).
  repeat match goal with E : _ = false |- _ => rewrite E; clear E end.
  reflexivity.
Qed.

(** The last but one [case] of the [switch]. *)
Lemma dispatch_unknown (command : jsobj) (line : jsstring) :
  kind command = VStr (lit "unknown") ->
  dispatch command line
  = if isDevelopmentCommand line then handleDevelopmentQuery line
    else handleQuery (VStr line).
Proof.
  unfold kind, dispatch. cbv zeta. intros ->.
  repeat match goal with
  | |- context [is_str (VStr (lit "unknown")) (lit ?s)] =>
      let b := eval vm_compute in (is_str (VStr (lit "unknown")) (lit s)) in
      change (is_str (VStr (lit "unknown")) (lit s)) with b
  end.
  cbv iota. reflexivity.
Qed.

Lemma processInput_unknown (w : world) sid s h (line : jsstring) command :
  recorded w sid s h -> currentSessionId w = VStr sid ->
  builtin line = false -> parse line = Ret command ->
  kind command = VStr (lit "unknown") ->
  processInput line w
  = (if isDevelopmentCommand line then handleDevelopmentQuery line
     else handleQuery (VStr line)) (appended w sid s h (user_entry line)).
Proof.
  intros R Hsid Hb Hp Hk.
  rewrite (processInput_recorded w sid s h line R Hsid).
  rewrite (not_builtin line _ Hb).
  unfold Run.bind, of_outcome. rewrite Hp.
  rewrite (dispatch_unknown command line Hk). reflexivity.
Qed.

(** X19.  A line that is no built-in, that no rule matches and that
    holds no development keyword is stored twice, as an entry of type
    [user] and as an entry of type [query] with the same text; when the
    client is connected the turn is the two writes, the query box and
    one frame [query] with the line as it was typed. *)
Theorem unknown_line_asked (w : world) sid s h (line : jsstring) command :
  recorded w sid s h -> currentSessionId w = VStr sid ->
  builtin line = false -> parse line = Ret command ->
  kind command = VStr (lit "unknown") ->
  isDevelopmentCommand line = false ->
  let user := stored_user line (dates w (ticks w)) in
  let query := stored_query line (dates w (S (ticks w))) in
  let w' := snd (processInput line w) in
  (exists s', recorded w' sid s' (h ++ [user; query]))
  /\ (connected w = true -> ws w = true ->
      exists doc doc',
        processInput line w
        = (Ret tt, w')
        /\ trace w'
           = trace w ++ [Write sid doc; Write sid doc';
                         Out "Query:" [VStr line]; Send (query_frame line)]).
Proof.
  intros R Hsid Hb Hp Hk Hd user query w'.
  pose proof (processInput_unknown w sid s h line command R Hsid Hb Hp Hk) as E.
  rewrite Hd in E.
  pose proof (appended_recorded _ _ _ _ (user_entry line) R) as R1.
  change (json (VObj (stamp (user_entry line) (dates w (ticks w)))))
    with user in R1.
  set (w1 := appended w sid s h (user_entry line)) in *.
  assert (Hsid1 : currentSessionId w1 = VStr sid) by exact Hsid.
  rewrite (handleQuery_recorded _ _ _ _ _ R1 Hsid1) in E.
  pose proof (appended_recorded _ _ _ _ (query_entry (VStr line)) R1) as R2.
  change (json (VObj (stamp (query_entry (VStr line)) (dates w1 (ticks w1)))))
    with query in R2.
  set (w2 := appended w1 sid _ _ (query_entry (VStr line))) in *.
  split.
  - pose proof (quiet_sendQuery (VStr line) w2) as Q.
    unfold w'. rewrite E.
    eexists. rewrite <- app_assoc in R2.
    exact (quiet_recorded _ _ _ _ _ Q R2).
  - intros Hc Hs. unfold w'. rewrite E.
    rewrite (sendQuery_connected w2 line Hc Hs).
    eexists _, _. split; [reflexivity|].
    simpl. rewrite <- !app_assoc. reflexivity.
Qed.

(** X20.  A line that is no built-in, that no rule matches and that
    holds a development keyword is stored once, as the [user] entry, and
    no [query] entry follows.  What is sent is the line behind the words
    [As a development assistant, help with: ]; and when the client is
    not connected the error of [sendQuery] leaves [processInput]. *)
Theorem unknown_line_framed (w : world) sid s h (line : jsstring) command :
  recorded w sid s h -> currentSessionId w = VStr sid ->
  builtin line = false -> parse line = Ret command ->
  kind command = VStr (lit "unknown") ->
  isDevelopmentCommand line = true ->
  let user := stored_user line (dates w (ticks w)) in
  let w' := snd (processInput line w) in
  recorded w' sid (pushed s h user) (h ++ [user])
  /\ (connected w = true -> ws w = true ->
      processInput line w = (Ret tt, w')
      /\ trace w'
         = trace w ++ [Write sid (Json (VObj (pushed s h user)));
                       Out "Query:" [VStr (framed line)];
                       Send (query_frame (framed line))])
  /\ (connected w = false ->
      processInput line w = (Throw not_connected, w')
      /\ trace w'
         = trace w ++ [Write sid (Json (VObj (pushed s h user)));
                       Out "Query:" [VStr (framed line)]]).
Proof.
  intros R Hsid Hb Hp Hk Hd user w'.
  pose proof (processInput_unknown w sid s h line command R Hsid Hb Hp Hk) as E.
  rewrite Hd in E.
  pose proof (appended_recorded _ _ _ _ (user_entry line) R) as R1.
  change (json (VObj (stamp (user_entry line) (dates w (ticks w)))))
    with user in R1.
  set (w1 := appended w sid s h (user_entry line)) in *.
  unfold handleDevelopmentQuery in E. fold (framed line) in E.
  split; [|split].
  - unfold w'. rewrite E.
    exact (quiet_recorded _ _ _ _ _ (quiet_sendQuery _ w1) R1).
  - intros Hc Hs. unfold w'. rewrite E.
    rewrite (sendQuery_connected w1 (framed line) Hc Hs).
    split; [reflexivity|]. simpl. rewrite <- !app_assoc. reflexivity.
  - intros Hc. unfold w'. rewrite E.
    rewrite (sendQuery_refused w1 _ Hc).
    split; [reflexivity|]. simpl. rewrite <- !app_assoc. reflexivity.
Qed.

End Turns.

Section TurnsExamples.

Import CommandParser SessionManager BrainClient BrainREPL Utils.

(** A greeting. *)
Lemma unknown_line_asked_witness :
  exists s',
    recorded (snd (processInput (lit "hello there") sample_world))
      (lit "a1b2c3d4e5f60718") s'
      ([VObj [(lit "type", VStr (lit "user"));
              (lit "content", VStr (lit "help"));
              (lit "timestamp", VStr (lit "2025-01-01T00:00:01.000Z"))]]
       ++ [stored_user (lit "hello there") (lit "2025-01-01T00:00:02.000Z");
           stored_query (lit "hello there") (lit "2025-01-01T00:00:02.000Z")]).
Proof.
  apply (unknown_line_asked sample_world (lit "a1b2c3d4e5f60718")
           sample_session _ (lit "hello there") (unknown (lit "hello there"))
           sample_recorded eq_refl);
    [reflexivity|vm_compute; reflexivity|reflexivity|reflexivity].
Defined.

(** An address book holds [add]. *)
Lemma unknown_line_framed_witness :
  trace (snd (processInput (lit "my address book") sample_world))
  = trace sample_world
    ++ [Write (lit "a1b2c3d4e5f60718")
          (Json (VObj (pushed sample_session
             [VObj [(lit "type", VStr (lit "user"));
                    (lit "content", VStr (lit "help"));
                    (lit "timestamp", VStr (lit "2025-01-01T00:00:01.000Z"))]]
             (stored_user (lit "my address book")
                (lit "2025-01-01T00:00:02.000Z")))));
        Out "Query:" [VStr (framed (lit "my address book"))];
        Send (query_frame (framed (lit "my address book")))].
Proof.
  apply (unknown_line_framed sample_world (lit "a1b2c3d4e5f60718")
           sample_session _ (lit "my address book")
           (unknown (lit "my address book")) sample_recorded eq_refl);
    [reflexivity|vm_compute; reflexivity|reflexivity|reflexivity
    |reflexivity|reflexivity].
Defined.

End TurnsExamples.

Section Builtins.

Import CommandParser SessionManager BrainClient BrainREPL Utils.

Lemma bind_ret_eq {A B} (c : M A) (f : A -> M B) (w w' : world) (a : A) :
  c w = (Ret a, w') -> Run.bind c f w = f a w'.
Proof. intros H. unfold Run.bind. rewrite H. reflexivity. Qed.

Lemma disconnect_ret (w : world) : disconnect w = (Ret tt, snd (disconnect w)).
Proof. unfold disconnect, Run.bind, read. destruct (ws w); reflexivity. Qed.

Lemma handleExit_recorded (w : world) sid s h :
  recorded w sid s h -> currentSessionId w = VStr sid ->
  sid <> [] -> h <> [] ->
  handleExit w
  = say (Exit 0)
      (snd (set_isRunning false
         (snd (disconnect
            (after
               (after w [Out "Session saved"
                           [VStr sid; VNum (Fin (Z.of_nat (length h)))]])
               [Out "Goodbye!" []]))))).
Proof.
  intros R Hsid Hne Hh. unfold handleExit.
  erewrite bind_ret_eq; [|unfold read; rewrite Hsid; reflexivity].
  cbn [truthy]. destruct sid as [|c sid]; [contradiction|].
  erewrite bind_ret_eq; cycle 1.
  { erewrite bind_ret_eq; [|apply (getHistory_recorded _ _ _ _ R)].
    cbn [prop lift]. rewrite eqb_refl.
    erewrite bind_ret_eq; [|reflexivity].
    assert (Hp : positive (VNum (Fin (Z.of_nat (length h)))) = true).
    { destruct h; [contradiction|]. reflexivity. }
    rewrite Hp. reflexivity. }
  erewrite bind_ret_eq; [|reflexivity].
  erewrite bind_ret_eq; [|apply disconnect_ret].
  erewrite bind_ret_eq; [|reflexivity].
  reflexivity.
Qed.

Lemma is_builtin_exit (line : jsstring) (w : world) :
  toLowerCase line = lit "exit" \/ toLowerCase line = lit "quit" ->
  (let lower := toLowerCase line in
   if Str.eqb lower (lit "exit") || Str.eqb lower (lit "quit")
   then handleExit
   else if Str.eqb lower (lit "help") then showHelp
   else if Str.eqb lower (lit "status") then showStatus
   else if Str.eqb lower (lit "clear") then say Clear
   else if Str.eqb lower (lit "history") then showHistory
   else if startsWith lower (lit "sessions") then showSessions
   else command <- of_outcome (parse line) ;; dispatch command line) w
  = handleExit w.
Proof. cbv zeta. intros [->| ->]; reflexivity. Qed.

(** X21.  [exit] and [quit], in any case: the line is stored first, so
    the summary always counts it; then [Goodbye!], the socket is closed
    if there is one, the loop is stopped and the process exits with
    code 0. *)
Theorem exit_closes (w : world) sid s h (line : jsstring) :
  recorded w sid s h -> currentSessionId w = VStr sid -> sid <> [] ->
  toLowerCase line = lit "exit" \/ toLowerCase line = lit "quit" ->
  let user := stored_user line (dates w (ticks w)) in
  exists w',
    processInput line w = (Ret tt, w')
    /\ trace w'
       = trace w
         ++ [Write sid (Json (VObj (pushed s h user)));
             Out "Session saved"
               [VStr sid; VNum (Fin (Z.of_nat (S (length h))))];
             Out "Goodbye!" []]
         ++ (if ws w then [Close] else []) ++ [Exit 0]
    /\ isRunning w' = false
    /\ (ws w = true -> connected w' = false)
    /\ recorded w' sid (pushed s h user) (h ++ [user]).
Proof.
  intros R Hsid Hne Hl user.
  pose proof (appended_recorded _ _ _ _ (user_entry line) R) as R1.
  change (json (VObj (stamp (user_entry line) (dates w (ticks w)))))
    with user in R1.
  eexists. split.
  { rewrite (processInput_recorded w sid s h line R Hsid).
    rewrite (is_builtin_exit line _ Hl).
    rewrite (handleExit_recorded _ sid _ _ R1 Hsid Hne)
      by (destruct h; discriminate).
    reflexivity. }
  rewrite length_app, Nat.add_1_r.
  unfold disconnect, Run.bind, read. cbn [ws after appended].
  destruct (ws w); simpl.
  - split; [rewrite <- !app_assoc; reflexivity|].
    split; [reflexivity|]. split; [reflexivity|].
    destruct R1 as [F J I H W]. split; assumption.
  - split; [rewrite <- !app_assoc; reflexivity|].
    split; [reflexivity|]. split; [discriminate|].
    destruct R1 as [F J I H W]. split; assumption.
Qed.



Lemma is_builtin_status (line : jsstring) (w : world) :
  toLowerCase line = lit "status" ->
  (let lower := toLowerCase line in
   if Str.eqb lower (lit "exit") || Str.eqb lower (lit "quit")
   then handleExit
   else if Str.eqb lower (lit "help") then showHelp
   else if Str.eqb lower (lit "status") then showStatus
   else if Str.eqb lower (lit "clear") then say Clear
   else if Str.eqb lower (lit "history") then showHistory
   else if startsWith lower (lit "sessions") then showSessions
   else command <- of_outcome (parse line) ;; dispatch command line) w
  = showStatus w.
Proof. cbv zeta. intros ->. reflexivity. Qed.

Lemma say_after (e : event) (w : world) : say e w = (Ret tt, after w [e]).
Proof. reflexivity. Qed.

Lemma showStatus_connected (w : world) :
  connected w = true -> ws w = true ->
  showStatus w
  = (Ret tt,
     after w [Out "Getting system status..." []; Send servers_frame;
              Out "System status retrieved" []]).
Proof.
  intros Hc Hs. unfold showStatus.
  erewrite bind_ret_eq; [|apply say_after].
  erewrite bind_ret_eq; [|reflexivity].
  change (connected (after w [Out "Getting system status..." []]))
    with (connected w).
  rewrite Hc.
  erewrite bind_ret_eq;
    [|apply (sendCommand_connected
               (after w [Out "Getting system status..." []]) _ _ Hc Hs)].
  rewrite say_after, !after_after. reflexivity.
Qed.

Lemma showStatus_refused (w : world) :
  connected w = false ->
  showStatus w
  = (Ret tt,
     after w [Out "Getting system status..." [];
              ErrOut "Not connected to Brain server" []]).
Proof.
  intros Hc. unfold showStatus.
  erewrite bind_ret_eq; [|apply say_after].
  erewrite bind_ret_eq; [|reflexivity].
  change (connected (after w [Out "Getting system status..." []]))
    with (connected w).
  rewrite Hc. rewrite say_after, !after_after. reflexivity.
Qed.

(** X23.  The line [status], in any case, is a built-in: it is stored,
    and then the client is asked for its servers, with one frame
    [get_servers], or the console says that it is not connected.  The
    line is not classified, so the git status it names for [parse] is
    never asked for. *)
Theorem status_is_builtin (w : world) sid s h (line : jsstring) :
  recorded w sid s h -> currentSessionId w = VStr sid ->
  (connected w = true -> ws w = true) ->
  toLowerCase line = lit "status" ->
  let user := stored_user line (dates w (ticks w)) in
  let write := Write sid (Json (VObj (pushed s h user))) in
  exists w',
    processInput line w = (Ret tt, w')
    /\ (connected w = true ->
        trace w'
        = trace w ++ [write; Out "Getting system status..." [];
                      Send servers_frame; Out "System status retrieved" []])
    /\ (connected w = false ->
        trace w'
        = trace w ++ [write; Out "Getting system status..." [];
                      ErrOut "Not connected to Brain server" []]).
Proof.
  intros R Hsid Hinv Hl user write.
  rewrite (processInput_recorded w sid s h line R Hsid).
  rewrite (is_builtin_status line _ Hl).
  destruct (connected w) eqn:Hc.
  - rewrite (showStatus_connected (appended w sid s h (user_entry line))
               Hc (Hinv eq_refl)).
    eexists. split; [reflexivity|].
    split; [|discriminate]. intros _. simpl.
    rewrite <- !app_assoc. reflexivity.
  - rewrite (showStatus_refused (appended w sid s h (user_entry line)) Hc).
    eexists. split; [reflexivity|].
    split; [discriminate|]. intros _. simpl.
    rewrite <- !app_assoc. reflexivity.
Qed.

End Builtins.

Section BuiltinsExamples.

Import CommandParser SessionManager BrainClient BrainREPL Utils.

(** [Exit], with a capital. *)
Lemma exit_closes_witness :
  exists w',
    processInput (lit "Exit") sample_world = (Ret tt, w')
    /\ isRunning w' = false /\ connected w' = false.
Proof.
  destruct (exit_closes sample_world (lit "a1b2c3d4e5f60718") sample_session _
              (lit "Exit") sample_recorded eq_refl)
    as (w' & H1 & _ & H3 & H4 & _); [discriminate|left; reflexivity|].
  exists w'. split; [exact H1|]. split; [exact H3|apply H4; reflexivity].
Defined.


(** [Status] on an open connection. *)
Lemma status_is_builtin_witness :
  exists w',
    processInput (lit "Status") sample_world = (Ret tt, w')
    /\ trace w'
       = trace sample_world
         ++ [Write (lit "a1b2c3d4e5f60718")
               (Json (VObj (pushed sample_session
                  [VObj [(lit "type", VStr (lit "user"));
                         (lit "content", VStr (lit "help"));
                         (lit "timestamp",
                          VStr (lit "2025-01-01T00:00:01.000Z"))]]
                  (stored_user (lit "Status")
                     (lit "2025-01-01T00:00:02.000Z")))));
             Out "Getting system status..." [];
             Send servers_frame; Out "System status retrieved" []].
Proof.
  destruct (status_is_builtin sample_world (lit "a1b2c3d4e5f60718")
              sample_session _ (lit "Status") sample_recorded eq_refl
              (fun _ => eq_refl) eq_refl) as (w' & H1 & H2 & _).
  exists w'. split; [exact H1|apply H2; reflexivity].
Defined.

End BuiltinsExamples.

(* ================================================================== *)
(** * The frames and the end of a connection *)
(* ================================================================== *)

Section Wire.

Import CommandParser SessionManager BrainClient BrainREPL Utils.

(** In a spread the source wins. *)
Lemma get_assign (k : jsstring) (src : jsobj) :
  forall o,
    get k (assign o src)
    = if has k src then get k (assign [] src) else get k o.
Proof.
  unfold assign. induction src as [|[k1 v1] src IH]; intros o; [reflexivity|].
  cbn [fold_left fst snd]. rewrite IH, (IH (set k1 v1 [])).
  unfold has. cbn [existsb fst]. fold (has k src).
  destruct (has k src); [rewrite orb_true_r; reflexivity|].
  rewrite orb_false_r, !get_set.
  destruct (Str.eqb k1 k); reflexivity.
Qed.

(** X24.  The frame of [sendCommand] carries the command name under
    [command] unless the parameters have a [command] of their own, which
    then takes its place; every other property is the one of the
    parameters. *)
Theorem command_override (command : jsstring) (params : jsobj) :
  (has (lit "command") params = false ->
   get (lit "command") (message_of command params) = VStr command)
  /\ (has (lit "command") params = true ->
      get (lit "command") (message_of command params)
      = get (lit "command") (assign [] params))
  /\ (forall k, k <> lit "command" ->
        get k (message_of command params) = get k (assign [] params)).
Proof.
  unfold message_of. split; [|split].
  - intros H. rewrite get_assign, H. reflexivity.
  - intros H. rewrite get_assign, H. reflexivity.
  - intros k Hk. rewrite get_assign, (get_assign k params []).
    destruct (has k params); [reflexivity|].
    cbn [get]. apply eqb_neq in Hk. rewrite str_eqb_sym, Hk. reflexivity.
Qed.

Lemma disconnect_eq (w : world) :
  disconnect w
  = (Ret tt,
     if ws w then
       {| files := files w; writable := writable w; dates := dates w;
          ticks := ticks w; ws := ws w; connected := false;
          isRunning := isRunning w; currentSessionId := currentSessionId w;
          trace := trace w ++ [Close] |}
     else w).
Proof.
  unfold disconnect, Run.bind, read, say, set_connected.
  destruct (ws w) eqn:E; simpl; rewrite ?E; reflexivity.
Qed.

(** X25.  [disconnect] never throws.  It closes the socket if there is
    one, and afterwards the client is not connected: [sendCommand] and
    [sendQuery] fail with [Not connected to Brain server] and nothing is
    sent.  The socket is kept, so a second [disconnect] closes it
    again. *)
Theorem disconnect_refuses (w : world) :
  reachable w ->
  exists w',
    disconnect w = (Ret tt, w')
    /\ connected w' = false /\ ws w' = ws w
    /\ files w' = files w
    /\ trace w' = trace w ++ (if ws w then [Close] else [])
    /\ (forall command params,
          sendCommand command params w' = (Throw not_connected, w'))
    /\ (forall query,
          sendQuery query w'
          = (Throw not_connected, after w' [Out "Query:" [query]]))
    /\ trace (snd (disconnect w'))
       = trace w' ++ (if ws w then [Close] else []).
Proof.
  intros Hr. eexists. split; [apply disconnect_eq|].
  destruct (ws w) eqn:E.
  - split; [reflexivity|]. split; [reflexivity|]. split; [reflexivity|].
    split; [reflexivity|].
    split; [intros command params; apply sendCommand_refused; reflexivity|].
    split; [intros query; apply sendQuery_refused; reflexivity|].
    rewrite disconnect_eq. reflexivity.
  - assert (Hc : connected w = false).
    { destruct (connected w) eqn:C; [|reflexivity].
      rewrite (reachable_socket w Hr C) in E. discriminate E. }
    split; [exact Hc|]. split; [exact E|]. split; [reflexivity|].
    split; [symmetry; apply app_nil_r|].
    split; [intros command params; apply sendCommand_refused; exact Hc|].
    split; [intros query; apply sendQuery_refused; exact Hc|].
    rewrite disconnect_eq. cbn [snd]. rewrite E. symmetry. apply app_nil_r.
Qed.

End Wire.

Section WireExamples.

Import CommandParser SessionManager BrainClient BrainREPL Utils.

(** Parameters without and with a [command]. *)
Lemma command_override_witness :
  get (lit "command")
    (message_of (lit "query") [(lit "query", VStr (lit "hi"))])
  = VStr (lit "query")
  /\ get (lit "command")
       (message_of (lit "query") [(lit "command", VStr (lit "get_servers"))])
     = VStr (lit "get_servers").
Proof.
  split.
  - apply (proj1 (command_override (lit "query")
                    [(lit "query", VStr (lit "hi"))])). reflexivity.
  - apply (proj1 (proj2 (command_override (lit "query")
                    [(lit "command", VStr (lit "get_servers"))]))).
    reflexivity.
Defined.

(** An open client, disconnected. *)
Lemma disconnect_refuses_witness :
  exists w',
    disconnect open_world = (Ret tt, w')
    /\ connected w' = false
    /\ sendCommand (lit "query") [] w' = (Throw not_connected, w').
Proof.
  destruct (disconnect_refuses open_world open_world_reachable)
    as (w' & H1 & H2 & _ & _ & _ & H6 & _).
  exists w'. split; [exact H1|]. split; [exact H2|apply H6].
Defined.

End WireExamples.

(* ================================================================== *)
(** * The start of the REPL *)
(* ================================================================== *)

Section Starting.

Import CommandParser SessionManager BrainClient BrainREPL Utils.

Variable mtime : jsstring -> Z.

(** X26.  Started with no session to continue, the REPL creates one:
    once the connection is made the loop runs, the active session is the
    id drawn, and its record is well formed with an empty history, so
    the appends of the turns that follow find it. *)
Theorem start_fresh (continueSession : bool) (sessionId : jsval)
    (bytes : list N) (w : world) :
  continueSession = false -> truthy sessionId = false -> writable w = true ->
  let id := generateSessionId bytes in
  let session := new_session id (dates w (ticks w)) in
  exists w',
    start_resolved mtime continueSession sessionId bytes w = (Ret tt, w')
    /\ isRunning w' = true
    /\ currentSessionId w' = VStr id
    /\ recorded w' id session []
    /\ trace w'
       = trace w ++ [Write id (Json (VObj session));
                     Out "Connected to Brain server" []; Out "" []].
Proof.
  intros -> Hs Hw id session. eexists. split.
  { unfold start_resolved, try_catch. rewrite Hs. cbn [orb].
    erewrite bind_ret_eq; [|reflexivity].
    erewrite bind_ret_eq; cycle 1.
    { erewrite bind_ret_eq; [|apply createSession_eq; exact Hw].
      reflexivity. }
    erewrite bind_ret_eq; [|reflexivity].
    reflexivity. }
  simpl. split; [reflexivity|]. split; [reflexivity|].
  split; [|rewrite <- !app_assoc; reflexivity].
  split; simpl; try reflexivity; [apply lookup_insert_eq|exact Hw].
Qed.

Lemma on_line_quiet (input : jsstring) (w : world) :
  quiet w (snd (processInput (trim input) w)) ->
  quiet w (snd (on_line input w)).
Proof.
  intros H. unfold on_line. destruct (trim input) as [|c line] eqn:E.
  - apply quiet_refl.
  - unfold try_catch.
    destruct (processInput (c :: line) w) as [[[]|e] w1]; [exact H|].
    eapply quiet_trans; [exact H|]. apply quiet_say.
Qed.

Lemma handleQuery_absent (q : jsval) (w : world) (sid : jsstring) :
  currentSessionId w = VStr sid -> files w !! sid = None ->
  handleQuery q w = sendQuery q w.
Proof.
  intros Hsid Hf. unfold handleQuery.
  erewrite bind_ret_eq; [|unfold read; rewrite Hsid; reflexivity].
  erewrite bind_ret_eq; [|apply addToHistory_absent; exact Hf].
  reflexivity.
Qed.

(** With no file for the active session, a turn leaves the store
    alone. *)
Lemma processInput_absent (line : jsstring) (w : world) (sid : jsstring) :
  currentSessionId w = VStr sid -> files w !! sid = None ->
  quiet w (snd (processInput line w)).
Proof.
  intros Hsid Hf. unfold processInput.
  erewrite bind_ret_eq; [|unfold read; rewrite Hsid; reflexivity].
  erewrite bind_ret_eq; [|apply addToHistory_absent; exact Hf].
  cbv zeta.
  repeat lazymatch goal with
  | |- quiet _ (snd ((if ?c then _ else _) _)) => destruct c
  | |- quiet _ (snd (handleExit _)) => apply quiet_handleExit
  | |- quiet _ (snd (showHelp _)) => apply quiet_say
  | |- quiet _ (snd (showStatus _)) => apply quiet_showStatus
  | |- quiet _ (snd (say _ _)) => apply quiet_say
  | |- quiet _ (snd (showHistory _)) => apply quiet_showHistory
  | |- quiet _ (snd (showSessions _)) => apply quiet_say
  end.
  unfold Run.bind, of_outcome.
  destruct (parse line) as [command|e]; [|apply quiet_refl].
  destruct (dispatch_cases command line) as [H|[q ->]]; [apply H|].
  rewrite (handleQuery_absent q w sid Hsid Hf). apply quiet_sendQuery.
Qed.

(** X27.  Started with the id of a session that has no file, the REPL
    takes that id as the active session and creates nothing: no warning
    is shown, and no line typed afterwards changes any file. *)
Theorem start_resume_missing (continueSession : bool) (bytes : list N)
    (sid : jsstring) (w : world) :
  sid <> [] -> files w !! sid = None ->
  exists w',
    start_resolved mtime continueSession (VStr sid) bytes w = (Ret tt, w')
    /\ currentSessionId w' = VStr sid
    /\ files w' = files w
    /\ trace w' = trace w ++ [Out "Connected to Brain server" []; Out "" []]
    /\ forall input, files (snd (on_line input w')) = files w.
Proof.
  intros Hne Hf.
  assert (Ht : truthy (VStr sid) = true) by (destruct sid; [contradiction|reflexivity]).
  eexists. split.
  { unfold start_resolved, try_catch. rewrite Ht, orb_true_r.
    erewrite bind_ret_eq; [|reflexivity].
    erewrite bind_ret_eq; cycle 1.
    { erewrite bind_ret_eq; [|reflexivity]. rewrite Ht.
      erewrite bind_ret_eq; [|reflexivity].
      erewrite bind_ret_eq; [|apply getHistory_absent; exact Hf].
      reflexivity. }
    erewrite bind_ret_eq; [|reflexivity].
    reflexivity. }
  simpl. split; [reflexivity|]. split; [reflexivity|].
  split; [rewrite <- !app_assoc; reflexivity|].
  intros input.
  match goal with
  | |- files (snd (on_line input ?w1)) = _ =>
      destruct (on_line_quiet input w1
                  (processInput_absent (trim input) w1 sid eq_refl Hf))
        as (F & _)
  end.
  exact F.
Qed.

Lemma getLastSession_newest (w : world) (sid : jsstring) (t : text) :
  plain_names w -> files w !! sid = Some t ->
  (forall other t', files w !! other = Some t' -> other <> sid ->
                    (mtime (file_of other) < mtime (file_of sid))%Z) ->
  getLastSession mtime w = (Ret (VStr sid), w).
Proof.
  intros Hp Hs Hnew.
  assert (Hne : files w <> ∅).
  { intros E. rewrite E in Hs. rewrite lookup_empty in Hs. discriminate Hs. }
  destruct (getLastSession_max mtime w Hne Hp) as (sid' & t' & -> & Hs' & Hmax).
  destruct (List.list_eq_dec N.eq_dec sid' sid) as [->|Hd]; [reflexivity|].
  pose proof (Hnew sid' t' Hs' Hd). pose proof (Hmax sid t Hs). lia.
Qed.

(** X28.  Started to continue, with no id given, the REPL takes up the
    session whose file was modified last: it becomes the active session,
    its record is untouched, and its length is announced when the
    history is not empty. *)
Theorem start_continue_latest (sessionId : jsval) (bytes : list N)
    (w : world) sid s h :
  truthy sessionId = false ->
  recorded w sid s h -> sid <> [] -> plain_names w ->
  (forall other t', files w !! other = Some t' -> other <> sid ->
                    (mtime (file_of other) < mtime (file_of sid))%Z) ->
  exists w',
    start_resolved mtime true sessionId bytes w = (Ret tt, w')
    /\ currentSessionId w' = VStr sid
    /\ recorded w' sid s h
    /\ trace w'
       = trace w
         ++ (if h is [] then []
             else [Out "Continuing session"
                     [VStr sid; VNum (Fin (Z.of_nat (length h)))]])
         ++ [Out "Connected to Brain server" []; Out "" []].
Proof.
  intros Hs R Hne Hp Hnew.
  assert (Ht : truthy (VStr sid) = true)
    by (destruct sid; [contradiction|reflexivity]).
  destruct h as [|e h].
  - eexists. split.
    { unfold start_resolved, try_catch. rewrite Hs. cbn [orb].
      erewrite bind_ret_eq; [|reflexivity].
      erewrite bind_ret_eq; cycle 1.
      { erewrite bind_ret_eq;
          [|apply (getLastSession_newest (snd (set_isRunning true w)) sid _ Hp
                    (rec_file _ _ _ _ R) Hnew)].
        rewrite Ht.
        erewrite bind_ret_eq; [|reflexivity].
        erewrite bind_ret_eq; cycle 1.
        { apply (getHistory_recorded _ sid s []).
          destruct R as [F J I H W]. split; assumption. }
        reflexivity. }
      erewrite bind_ret_eq; [|reflexivity].
      reflexivity. }
    simpl. split; [reflexivity|].
    split; [destruct R as [F J I H W]; split; assumption|].
    rewrite <- !app_assoc. reflexivity.
  - eexists. split.
    { unfold start_resolved, try_catch. rewrite Hs. cbn [orb].
      erewrite bind_ret_eq; [|reflexivity].
      erewrite bind_ret_eq; cycle 1.
      { erewrite bind_ret_eq;
          [|apply (getLastSession_newest (snd (set_isRunning true w)) sid _ Hp
                    (rec_file _ _ _ _ R) Hnew)].
        rewrite Ht.
        erewrite bind_ret_eq; [|reflexivity].
        erewrite bind_ret_eq; cycle 1.
        { apply (getHistory_recorded _ sid s (e :: h)).
          destruct R as [F J I H W]. split; assumption. }
        cbn [prop lift]. rewrite eqb_refl.
        erewrite bind_ret_eq; [|reflexivity].
        assert (Hpos : positive (VNum (Fin (Z.of_nat (length (e :: h))))) = true)
          by reflexivity.
        rewrite Hpos. reflexivity. }
      erewrite bind_ret_eq; [|reflexivity].
      reflexivity. }
    simpl. split; [reflexivity|].
    split; [destruct R as [F J I H W]; split; assumption|].
    rewrite <- !app_assoc. reflexivity.
Qed.

End Starting.

Section StartingExamples.

Import CommandParser SessionManager BrainClient BrainREPL Utils.

(** A first start. *)
Lemma start_fresh_witness :
  exists w',
    start_resolved (fun _ => 0%Z) false VUndefined
      [1; 35; 69; 103; 137; 171; 205; 239] idle_world = (Ret tt, w')
    /\ currentSessionId w' = VStr (lit "0123456789abcdef")
    /\ recorded w' (lit "0123456789abcdef")
         (new_session (lit "0123456789abcdef") []) [].
Proof.
  destruct (start_fresh (fun _ => 0%Z) false VUndefined
              [1; 35; 69; 103; 137; 171; 205; 239] idle_world
              eq_refl eq_refl eq_refl) as (w' & H1 & _ & H3 & H4 & _).
  exists w'. split; [exact H1|]. split; [exact H3|exact H4].
Defined.

(** An id that was never saved. *)
Lemma start_resume_missing_witness :
  exists w',
    start_resolved (fun _ => 0%Z) false (VStr (lit "deadbeef")) [] idle_world
    = (Ret tt, w')
    /\ currentSessionId w' = VStr (lit "deadbeef")
    /\ files (snd (on_line (lit "what is this?") w')) = files idle_world.
Proof.
  destruct (start_resume_missing (fun _ => 0%Z) false [] (lit "deadbeef")
              idle_world) as (w' & H1 & H2 & _ & _ & H5);
    [discriminate|apply lookup_empty|].
  exists w'. split; [exact H1|]. split; [exact H2|apply H5].
Defined.

(** The sample session, continued. *)
Lemma start_continue_latest_witness :
  exists w',
    start_resolved (fun _ => 0%Z) true VUndefined [] sample_world = (Ret tt, w')
    /\ currentSessionId w' = VStr (lit "a1b2c3d4e5f60718").
Proof.
  destruct (start_continue_latest (fun _ => 0%Z) VUndefined [] sample_world
              (lit "a1b2c3d4e5f60718") sample_session _
              eq_refl sample_recorded) as (w' & H1 & H2 & _).
  - discriminate.
  - exact sample_plain.
  - intros other t' Ho Hne. destruct (Hne (sample_only _ _ Ho)).
  - exists w'. split; [exact H1|exact H2].
Defined.

End StartingExamples.

(* ================================================================== *)
(** * Properties of the utilities *)
(* ================================================================== *)

Section UtilsProps.

Import CommandParser SessionManager BrainClient BrainREPL Utils.

(** X29.  [truncate] returns a text that fits as it is.  A longer one
    is cut to [maxLength - 3] characters and three dots, so the result
    has [maxLength] characters when [maxLength] is at least 3, and is
    the three dots alone below that. *)
Theorem truncate_bounds (text : jsstring) (maxLength : Z) :
  ((Z.of_nat (length text) <= maxLength)%Z -> truncate text maxLength = text)
  /\ ((maxLength < Z.of_nat (length text))%Z ->
      truncate text maxLength
      = take (Z.to_nat (maxLength - 3)) text ++ lit "..."
      /\ length (truncate text maxLength) = Z.to_nat (Z.max maxLength 3))
  /\ ((3 <= maxLength)%Z ->
      (Z.of_nat (length (truncate text maxLength)) <= maxLength)%Z).
Proof.
  unfold truncate.
  destruct (Z.of_nat (length text) <=? maxLength)%Z eqn:E.
  - apply Z.leb_le in E. split; [reflexivity|]. split; [lia|]. intros _. exact E.
  - apply Z.leb_gt in E. split; [lia|].
    assert (Hl : length (take (Z.to_nat (maxLength - 3)) text ++ lit "...")
                 = Z.to_nat (Z.max maxLength 3)).
    { rewrite length_app, length_take. change (length (lit "...")) with 3%nat.
      lia. }
    split; [intros _; split; [reflexivity|exact Hl]|].
    intros H3. rewrite Hl. lia.
Qed.

Lemma In_idChars (c : N) :
  In c idChars <-> isWordChar c || (c =? 45) = true.
Proof.
  unfold idChars, isWordChar, isDigit.
  rewrite in_app_iff, in_map_iff. split.
  - intros [(n & <- & Hn)|[<-|[<-|[]]]]; [|reflexivity|reflexivity].
    rewrite !in_app_iff, !in_seq in Hn.
    repeat rewrite orb_true_iff. repeat rewrite andb_true_iff.
    repeat rewrite N.leb_le. rewrite N.eqb_eq. lia.
  - repeat rewrite orb_true_iff. repeat rewrite andb_true_iff.
    repeat rewrite N.leb_le. rewrite !N.eqb_eq.
    intros H.
    destruct (N.eq_dec c 95) as [->|H95]; [right; left; reflexivity|].
    destruct (N.eq_dec c 45) as [->|H45]; [right; right; left; reflexivity|].
    left. exists (N.to_nat c). split; [apply N2Nat.id|].
    rewrite !in_app_iff, !in_seq. lia.
Qed.

Lemma idChars_match (c : N) :
  cls_match false (CSet idChars) c = isWordChar c || (c =? 45).
Proof.
  cbn [cls_match].
  destruct (isWordChar c || (c =? 45)) eqn:E.
  - apply In_idChars in E. apply existsb_exists. exists c.
    split; [exact E|apply N.eqb_refl].
  - destruct (existsb (fun y => c =? y) idChars) eqn:X; [|reflexivity].
    apply existsb_exists in X as (y & Hy & Hcy). apply N.eqb_eq in Hcy. subst y.
    apply In_idChars in Hy. congruence.
Qed.

(** X30.  [validateServerId] accepts exactly the non-empty strings made
    of ASCII letters, digits, underscores and hyphens. *)
Theorem validateServerId_spec (id : jsstring) :
  validateServerId id = true
  <-> id <> [] /\ forallb (fun c => isWordChar c || (c =? 45)) id = true.
Proof.
  unfold validateServerId. cbn [cat fold_right]. rewrite exec_bol.
  unfold plus. split.
  - intros H.
    destruct (m false _ 0 id (replicate 1 None) _) as [[e cs]|] eqn:E;
      [clear H|discriminate H].
    cbn [m] in E. destruct id as [|c id]; [discriminate E|].
    destruct (cls_match false (CSet idChars) c) eqn:Hc; [|discriminate E].
    destruct (star_span _ _ _ _ _ _ _ _ E) as (xs & s' & -> & Hxs & Hk).
    cbv beta in Hk.
    destruct s' as [|y s']; [|discriminate Hk].
    rewrite app_nil_r. split; [discriminate|].
    cbn [forallb]. rewrite <- idChars_match, Hc. cbn [andb].
    rewrite forallb_forall in *. intros x Hx. rewrite <- idChars_match.
    apply Hxs. exact Hx.
  - intros [Hne Hall]. destruct id as [|c id]; [contradiction|].
    cbn [forallb] in Hall. apply andb_prop in Hall as [Hc Hid].
    cbn [m]. rewrite idChars_match, Hc.
    rewrite (star_greedy_all false (CSet idChars) _
               ((1 + length id)%nat, replicate 1 None));
      [reflexivity| |reflexivity].
    rewrite forallb_forall in *. intros x Hx. rewrite idChars_match.
    apply Hid. exact Hx.
Qed.

End UtilsProps.

Section UtilsPropsExamples.

Import CommandParser SessionManager BrainClient BrainREPL Utils.

(** Eleven characters cut to eight. *)
Lemma truncate_bounds_witness :
  Utils.truncate (lit "hello world") 8 = lit "hello..."
  /\ (Z.of_nat (length (Utils.truncate (lit "hello world") 8)) <= 8)%Z.
Proof.
  destruct (truncate_bounds (lit "hello world") 8) as (_ & H2 & H3).
  split.
  - apply H2. reflexivity.
  - apply H3. discriminate.
Defined.

(** An id with a hyphen and an underscore. *)
Lemma validateServerId_spec_witness :
  Utils.validateServerId (lit "my-server_1") = true.
Proof.
  apply (proj2 (validateServerId_spec (lit "my-server_1"))).
  split; [discriminate|reflexivity].
Defined.

End UtilsPropsExamples.
